(** * pyzgy: the seismic reader of [pyzgy/read.py]

    A shallow embedding of [SeismicReader] (src/pyzgy/read.py) and the
    properties its specification states about it.

    - Python integers are [Z]; [//] and [%] are [Z.div] and [Z.modulo]
      (both floor, the sign following the divisor, as in Python).
    - Python floats and numpy float64 are IEEE binary64 values, taken from
      the Standard Library's executable specification [SpecFloat].
    - numpy [intc] values are [Z] with C wrap-around written out.
    - The store behind the handle keeps the volume in bricks of 64 samples
      per axis: a ranged read within the bricks is served, with padding
      past the volume, and one that leaves them is refused.
    - Python exceptions are values of [exn]; a computation that may raise
      returns a [result].
    - numpy buffers live in a heap addressed by locations, so that views,
      copies and the cached chunks of the loader can alias or not as they do
      in the program. *)

From Stdlib Require Import ZArith Lia Bool List String.
From Stdlib Require Import Strings.Byte.
From Stdlib Require Import Floats.SpecFloat.
From stdpp Require Import base option list.

Local Open Scope Z_scope.

(** ** Exceptions and results *)

(** What an error message was formatted from. *)
Inductive pyval :=
| PyInt (n : Z)
| PyFloat (f : spec_float).

(** The messages of the [IndexError]s the reader can raise, with the values
    their format strings are filled with. *)
Inductive index_msg :=
| CoordinateNotInAxis (coord : pyval)
    (* "Coordinate {} not in axis".format(coord) *)
| TraceIndexOutOfRange (index total : Z)
    (* "Index {} is out of range, total traces is {}".format(index, total) *)
| NpOutOfBounds (index axis size : Z).
    (* numpy: "index {} is out of bounds for axis {} with size {}" *)

(** The exceptions of the reader. [StoreError] is the failure of the store
    behind the handle (openzgy's ZgyUserError), which the reader passes on
    as it comes. *)
Inductive exn :=
| IndexError (msg : index_msg)
| AttributeError (obj attr : string)
| ZeroDivisionError
| ValueError (msg : string)
| OverflowError (msg : string)
| StructError (fmt : string) (v : Z)
| StoreError (msg : string).

Inductive result (A : Type) :=
| Ok (a : A)
| Exc (e : exn).
Arguments Ok {A} a.
Arguments Exc {A} e.

#[global] Instance result_ret : MRet result := fun A a => Ok a.

#[global] Instance result_bind : MBind result := fun A B k r =>
  match r with
  | Ok a => k a
  | Exc e => Exc e
  end.

Definition is_ok {A} (r : result A) : bool :=
  match r with Ok _ => true | Exc _ => false end.

(** ** Floats: IEEE binary64 *)

Module F64.

Definition prec : Z := 53.
Definition emax : Z := 1024.

Definition add := SFadd prec emax.
Definition sub := SFsub prec emax.
Definition mul := SFmul prec emax.
Definition div := SFdiv prec emax.
Definition eqb := SFeqb.
Definition ltb := SFltb.

Definition zero : spec_float := S754_zero false.

(** Rounding of an integer to the nearest double, ties to even. *)
Definition of_Z (n : Z) : spec_float := binary_normalize prec emax n 0 false.

Definition is_finite (f : spec_float) : bool :=
  match f with
  | S754_zero _ | S754_finite _ _ _ => true
  | _ => false
  end.

Definition is_nan (f : spec_float) : bool :=
  match f with S754_nan => true | _ => false end.

Definition is_zero (f : spec_float) : bool :=
  match f with S754_zero _ => true | _ => false end.

(** Python: the implicit conversion of an [int] operand of a float
    operation; an integer beyond the double range raises. *)
Definition of_int (n : Z) : result spec_float :=
  match of_Z n with
  | S754_infinity _ => Exc (OverflowError "int too large to convert to float")
  | f => Ok f
  end.

(** Python: [int(x)] for a float [x], truncation toward zero. *)
Definition to_int (f : spec_float) : result Z :=
  match f with
  | S754_nan => Exc (ValueError "cannot convert float NaN to integer")
  | S754_infinity _ => Exc (OverflowError "cannot convert float infinity to integer")
  | S754_zero _ => Ok 0
  | S754_finite s m e =>
      let mag := if 0 <=? e then Z.shiftl (Zpos m) e else Z.shiftr (Zpos m) (- e) in
      Ok (if s then - mag else mag)
  end.

(** Python: [round(x)] for a float [x] with no digits argument: the nearest
    integer, ties to the even one. *)
Definition round (f : spec_float) : result Z :=
  match f with
  | S754_nan => Exc (ValueError "cannot convert float NaN to integer")
  | S754_infinity _ => Exc (OverflowError "cannot convert float infinity to integer")
  | S754_zero _ => Ok 0
  | S754_finite s m e =>
      let mag :=
        if 0 <=? e then Z.shiftl (Zpos m) e
        else
          let d := Z.shiftl 1 (- e) in
          let q := Zpos m / d in
          let r2 := 2 * (Zpos m mod d) in
          match r2 ?= d with
          | Lt => q
          | Gt => q + 1
          | Eq => if Z.even q then q else q + 1
          end in
      Ok (if s then - mag else mag)
  end.

(** numpy: the smallest integer not below [x], as [arange] computes the
    length of a float range. *)
Definition ceil (f : spec_float) : result Z :=
  match f with
  | S754_nan => Exc (ValueError "arange: cannot compute length")
  | S754_infinity _ => Exc (OverflowError "Maximum allowed size exceeded")
  | S754_zero _ => Ok 0
  | S754_finite s m e =>
      if 0 <=? e then
        let mag := Z.shiftl (Zpos m) e in Ok (if s then - mag else mag)
      else
        let d := Z.shiftl 1 (- e) in
        let q := Zpos m / d in
        let exact := Zpos m mod d =? 0 in
        Ok (if s then - q else if exact then q else q + 1)
  end.

(** Python: [x / n] for a float [x] and an int [n]. *)
Definition div_int (x : spec_float) (n : Z) : result spec_float :=
  d ← of_int n;
  if is_zero d then Exc ZeroDivisionError else Ok (div x d).

(** Python: [n * x] for an int [n] and a float [x]. *)
Definition int_mul (n : Z) (x : spec_float) : result spec_float :=
  a ← of_int n; Ok (mul a x).

(** Python: [x * n] for a float [x] and an int [n]. *)
Definition mul_int (x : spec_float) (n : Z) : result spec_float :=
  a ← of_int n; Ok (mul x a).

End F64.

(** ** numpy [intc]: C int, 32 bits, two's complement *)

Module Intc.

Definition min_int : Z := - 2 ^ 31.
Definition max_int : Z := 2 ^ 31 - 1.

Definition in_range (n : Z) : Prop := min_int <= n <= max_int.

Definition in_rangeb (n : Z) : bool := (min_int <=? n) && (n <=? max_int).

(** The value a C int holds after an arithmetic result [n] wraps. *)
Definition wrap (n : Z) : Z := (n + 2 ^ 31) mod 2 ^ 32 - 2 ^ 31.

Definition add (a b : Z) : Z := wrap (a + b).
Definition sub (a b : Z) : Z := wrap (a - b).

End Intc.

(** ** numpy scalars and one-dimensional arrays *)

(** What [coord_to_index] uses of the element type of an axis: [==], [+],
    [-], and the formatting of a value in a message. *)
Class NpScalar (A : Type) := {
  np_eqb : A -> A -> bool;
  np_add : A -> A -> A;
  np_sub : A -> A -> A;
  np_show : A -> pyval
}.

(** The inline and crossline axes hold [intc]; a Python int compares with
    them by value, and their sums and differences wrap. *)
#[global] Instance intc_scalar : NpScalar Z := {|
  np_eqb := Z.eqb;
  np_add := Intc.add;
  np_sub := Intc.sub;
  np_show := PyInt
|}.

(** The sample axis holds float64. *)
#[global] Instance f64_scalar : NpScalar spec_float := {|
  np_eqb := F64.eqb;
  np_add := F64.add;
  np_sub := F64.sub;
  np_show := PyFloat
|}.

(** [a[i]] on axis [axis] of extent [length a]: a negative index counts from
    the end, and an index out of bounds raises. *)
Definition np_getitem_axis {A} (axis : Z) (a : list A) (i : Z) : result A :=
  let n := Z.of_nat (length a) in
  let j := if i <? 0 then i + n else i in
  if (0 <=? j) && (j <? n) then
    match a !! Z.to_nat j with
    | Some x => Ok x
    | None => Exc (IndexError (NpOutOfBounds i axis n))
    end
  else Exc (IndexError (NpOutOfBounds i axis n)).

Definition np_getitem {A} (a : list A) (i : Z) : result A :=
  np_getitem_axis 0 a i.

(** [np.where(coords == coord)[0][0]]: the first position whose element
    equals [coord]; [None] stands for the IndexError of indexing the empty
    array of positions. *)
Fixpoint np_where_first {A} `{NpScalar A} (coord : A) (coords : list A)
  : option nat :=
  match coords with
  | [] => None
  | c :: cs =>
      if np_eqb c coord then Some 0%nat
      else S <$> np_where_first coord cs
  end.

(** read.py 50-58, [SeismicReader.coord_to_index]. The bare [except] catches
    the failed lookup only; what the handler itself raises propagates. *)
Definition coord_to_index {A} `{NpScalar A}
    (coord : A) (coords : list A) (include_stop : bool) : result Z :=
  match np_where_first coord coords with
  | Some index => Ok (Z.of_nat index)
  | None =>
      if include_stop then
        last ← np_getitem coords (-1);
        last' ← np_getitem coords (-1);
        prev ← np_getitem coords (-2);
        if np_eqb coord (np_add last (np_sub last' prev))
        then Ok (Z.of_nat (length coords))
        else Exc (IndexError (CoordinateNotInAxis (np_show coord)))
      else Exc (IndexError (CoordinateNotInAxis (np_show coord)))
  end.

(** [np.arange(start, stop, step, dtype=np.intc)] on Python ints. The length
    is the ceiling of [(stop - start) / step], computed on the Python ints;
    [stop] itself is never stored. An empty range stores nothing. Otherwise
    [start] and, for two elements or more, [start + step] are stored as
    Python ints, which raises OverflowError for a value outside a C int; the
    rest of the buffer is filled in C arithmetic, so element [i] is
    [start + i * step] wrapped. *)
Definition np_arange_intc (start stop step : Z) : result (list Z) :=
  if step =? 0 then Exc ZeroDivisionError
  else
    let len := Z.max 0 (- ((start - stop) / step)) in
    if (0 <? len) && negb (Intc.in_rangeb start)
    then Exc (OverflowError "Python integer out of bounds for int32")
    else if (1 <? len) && negb (Intc.in_rangeb (start + step))
    then Exc (OverflowError "Python integer out of bounds for int32")
    else
      Ok (map (fun i => Intc.wrap (start + Z.of_nat i * step))
              (seq 0 (Z.to_nat len))).

(** [np.arange(start, stop, step)] on floats: the length is the ceiling of
    the double [(stop - start) / step]; the first two elements are [start]
    and [start + step], the others [start + i * delta] with [delta] the
    difference of the first two. *)
Definition np_arange_f64 (start stop step : spec_float)
  : result (list spec_float) :=
  if F64.is_zero step then Exc ZeroDivisionError
  else
    len ← F64.ceil (F64.div (F64.sub stop start) step);
    let next := F64.add start step in
    let delta := F64.sub next start in
    Ok (map (fun i => match i with
                      | O => start
                      | S O => next
                      | _ => F64.add start (F64.mul (F64.of_Z (Z.of_nat i)) delta)
                      end)
            (seq 0 (Z.to_nat len))).

(** ** The ZGY handle *)

Definition xy : Type := spec_float * spec_float.

(** Modelled from the spec: the VolumeStore handle ([openzgy.api.ZgyReader]),
    which is outside src/. It gives the per-axis dimensions, the annotation
    start and increment of the two horizontal axes, the start and increment
    of the sample axis, the four corner coordinates, and dense ranged reads.
    The store keeps the volume in bricks of 64 samples per axis; the bricks
    at the volume edges are filled up with the store-supplied padding. A
    read returns the stored samples ([bulk]) inside the volume and the
    padding in the rest of an edge brick; a read that reaches past the
    bricks the store holds fails with the store's own error. *)
Record ZgyReader := {
  size : Z * Z * Z;
  annotstart : spec_float * spec_float;
  annotinc : spec_float * spec_float;
  zstart : spec_float;
  zinc : spec_float;
  corners : xy * xy * xy * xy;
  bulk : Z -> Z -> Z -> spec_float;
  padding : spec_float
}.

Definition size_at (fh : ZgyReader) (idx : nat) : Z :=
  let '(a, b, c) := size fh in
  match idx with O => a | S O => b | _ => c end.

Definition pair_at {A} (p : A * A) (idx : nat) : A :=
  match idx with O => fst p | _ => snd p end.

Definition corner (cs : xy * xy * xy * xy) (idx : nat) : xy :=
  let '(c0, c1, c2, c3) := cs in
  match idx with O => c0 | S O => c1 | S (S O) => c2 | _ => c3 end.

(** Modelled from the spec: the sample the store returns for position
    [(i, j, k)] of a brick it holds. *)
Definition store_sample (fh : ZgyReader) (i j k : Z) : spec_float :=
  let '(ni, nj, nk) := size fh in
  if (0 <=? i) && (i <? ni) && (0 <=? j) && (j <? nj) && (0 <=? k) && (k <? nk)
  then bulk fh i j k
  else padding fh.

(** Modelled from the spec: the extent of the brick grid along an axis of
    [n] samples, the least multiple of 64 that covers it. *)
Definition grid_extent (n : Z) : Z := 64 * ((n + 63) / 64).

(** Modelled from the spec: the window of [shape] at [start] touches only
    bricks the store holds. *)
Definition in_grid (fh : ZgyReader) (start shape : Z * Z * Z) : bool :=
  let '(ni, nj, nk) := size fh in
  let '(i0, j0, k0) := start in
  let '(d0, d1, d2) := shape in
  (0 <=? i0) && (i0 + d0 <=? grid_extent ni) &&
  (0 <=? j0) && (j0 + d1 <=? grid_extent nj) &&
  (0 <=? k0) && (k0 + d2 <=? grid_extent nk).

(** ** The reader object *)

(** Modelled from the spec: the loader object ([pyzgy.loader.ZgyLoader],
    outside src/) holds the handle; its cache is part of the program state
    below. *)
Record ZgyLoader := {
  loader_filehandle : ZgyReader
}.

(** The attributes [SeismicReader.__init__] sets (read.py 12-39). *)
Record SeismicReader := {
  filehandle : ZgyReader;
  loader : ZgyLoader;
  n_ilines : Z;
  n_xlines : Z;
  n_samples : Z;
  tracecount : Z;
  ilines : list Z;
  xlines : list Z;
  samples : list spec_float;
  r_corners : xy * xy * xy * xy;
  r_annotstart : spec_float * spec_float;
  r_annotinc : spec_float * spec_float;
  r_zinc : spec_float;
  easting_inc_il : spec_float;
  northing_inc_il : spec_float;
  easting_inc_xl : spec_float;
  northing_inc_xl : spec_float
}.

(** read.py 60-63, [SeismicReader.get_haxis]. *)
Definition get_haxis (fh : ZgyReader) (idx : nat) : result (list Z) :=
  start ← F64.to_int (pair_at (annotstart fh) idx);
  span ← F64.int_mul (size_at fh idx) (pair_at (annotinc fh) idx);
  stop ← F64.to_int (F64.add (pair_at (annotstart fh) idx) span);
  step ← F64.to_int (pair_at (annotinc fh) idx);
  np_arange_intc start stop step.

(** read.py 12-39, [SeismicReader.__init__], from an open handle. The corner
    coordinates are Python floats: dividing their difference by a count less
    one that is zero raises ZeroDivisionError. *)
Definition init (fh : ZgyReader) : result SeismicReader :=
  let ld := {| loader_filehandle := fh |} in
  let '(n_il, n_xl, n_s) := size fh in
  let tc := n_xl * n_il in
  il_axis ← get_haxis fh 0;
  xl_axis ← get_haxis fh 1;
  zspan ← F64.int_mul n_s (zinc fh);
  z_axis ← np_arange_f64 (zstart fh) (F64.add (zstart fh) zspan) (zinc fh);
  let cs := corners fh in
  e_il ← F64.div_int (F64.sub (fst (corner cs 1)) (fst (corner cs 0))) (size_at fh 0 - 1);
  n_il' ← F64.div_int (F64.sub (snd (corner cs 1)) (snd (corner cs 0))) (size_at fh 0 - 1);
  e_xl ← F64.div_int (F64.sub (fst (corner cs 2)) (fst (corner cs 0))) (size_at fh 1 - 1);
  n_xl' ← F64.div_int (F64.sub (snd (corner cs 2)) (snd (corner cs 0))) (size_at fh 1 - 1);
  Ok {| filehandle := fh; loader := ld;
        n_ilines := n_il; n_xlines := n_xl; n_samples := n_s;
        tracecount := tc;
        ilines := il_axis; xlines := xl_axis; samples := z_axis;
        r_corners := cs;
        r_annotstart := annotstart fh; r_annotinc := annotinc fh;
        r_zinc := zinc fh;
        easting_inc_il := e_il; northing_inc_il := n_il';
        easting_inc_xl := e_xl; northing_inc_xl := n_xl' |}.

(** ** Geometry *)

(** read.py 216-235, [SeismicReader.gen_cdp_x]. *)
Definition gen_cdp_x (r : SeismicReader) (il_coord xl_coord : Z)
  : result spec_float :=
  a ← F64.int_mul il_coord (easting_inc_il r);
  let s := F64.add (fst (corner (r_corners r) 0)) a in
  b ← F64.int_mul xl_coord (easting_inc_xl r);
  Ok (F64.add s b).

(** read.py 237-256, [SeismicReader.gen_cdp_y]. *)
Definition gen_cdp_y (r : SeismicReader) (il_coord xl_coord : Z)
  : result spec_float :=
  a ← F64.int_mul il_coord (northing_inc_il r);
  let s := F64.add (snd (corner (r_corners r) 0)) a in
  b ← F64.int_mul xl_coord (northing_inc_xl r);
  Ok (F64.add s b).

(** ** Trace headers *)

Definition byte_of_Z (n : Z) : byte :=
  default x00 (Byte.of_N (Z.to_N (n mod 256))).

(** The [width] bytes of [n] in two's complement, most significant first. *)
Definition be_bytes (width : nat) (n : Z) : list byte :=
  map (fun i => byte_of_Z (Z.shiftr n (8 * Z.of_nat i))) (rev (seq 0 width)).

(** The unsigned value of big-endian bytes. *)
Definition be_value (bs : list byte) : Z :=
  fold_left (fun acc b => 256 * acc + Z.of_N (Byte.to_N b)) bs 0.

(** [struct.pack(">h", v)], [struct.pack(">H", v)], [struct.pack(">i", v)]:
    a value outside the format's range raises [struct.error]. *)
Definition pack_h (v : Z) : result (list byte) :=
  if (- 2 ^ 15 <=? v) && (v <? 2 ^ 15) then Ok (be_bytes 2 v)
  else Exc (StructError ">h" v).

Definition pack_H (v : Z) : result (list byte) :=
  if (0 <=? v) && (v <? 2 ^ 16) then Ok (be_bytes 2 v)
  else Exc (StructError ">H" v).

Definition pack_i (v : Z) : result (list byte) :=
  if (- 2 ^ 31 <=? v) && (v <? 2 ^ 31) then Ok (be_bytes 4 v)
  else Exc (StructError ">i" v).

(** [bytearray(n)]. *)
Definition bytearray (n : nat) : list byte := replicate n x00.

(** [h[a:b] = bs] on a bytearray: the bytes from [a] up to [b] are replaced
    by [bs], whatever the length of [bs]. *)
Definition slice_assign (a b : nat) (bs h : list byte) : list byte :=
  take a h ++ bs ++ drop (a `max` b) h.

(** [h[a:b]]. *)
Definition slice (a b : nat) (h : list byte) : list byte :=
  take (b - a) (drop a h).

(** [segyio.segy.Field(header, kind='trace')]: the header buffer and its
    kind. *)
Record Field := {
  buf : list byte;
  kind : string
}.

(** The literal [100.0]. *)
Definition f100 : spec_float := Eval vm_compute in F64.of_Z 100.

(** The byte ranges [gen_trace_header] writes, as [(first, one past last)]. *)
Definition header_fields : list (nat * nat) :=
  [(70, 72); (114, 116); (116, 118); (180, 184); (184, 188); (188, 192);
   (192, 196)]%nat.

Definition in_field (i : nat) (f : nat * nat) : bool :=
  (fst f <=? i)%nat && (i <? snd f)%nat.

Definition in_header_fields (i : nat) : bool :=
  existsb (in_field i) header_fields.

(** read.py 276-282: what the header carries for trace [index]: scaled CDP
    X and Y, inline number, crossline number. *)
Definition trace_header_values (r : SeismicReader) (index : Z)
  : result (Z * Z * Z * Z) :=
  let xl_coord := index mod n_xlines r in
  let il_coord := index / n_xlines r in
  x ← gen_cdp_x r il_coord xl_coord;
  cdp_x ← F64.round (F64.mul f100 x);
  y ← gen_cdp_y r il_coord xl_coord;
  cdp_y ← F64.round (F64.mul f100 y);
  il_off ← F64.int_mul il_coord (fst (r_annotinc r));
  inline_3d ← F64.to_int (F64.add (fst (r_annotstart r)) il_off);
  xl_off ← F64.int_mul xl_coord (snd (r_annotinc r));
  crossline_3d ← F64.to_int (F64.add (snd (r_annotstart r)) xl_off);
  Ok (cdp_x, cdp_y, inline_3d, crossline_3d).

(** read.py 258-293, [SeismicReader.gen_trace_header]. The class never sets
    [range_error], so the guard's [raise] fails on the attribute lookup
    before an [IndexError] is built. *)
Definition gen_trace_header (r : SeismicReader) (index : Z) : result Field :=
  if negb ((0 <=? index) && (index <? n_ilines r * n_xlines r)) then
    Exc (AttributeError "SeismicReader" "range_error")
  else
    '(cdp_x, cdp_y, inline_3d, crossline_3d) ← trace_header_values r index;
    let header := bytearray 240 in
    scalar ← pack_h (-100);
    let header := slice_assign 70 72 scalar header in
    bx ← pack_i cdp_x;
    let header := slice_assign 180 184 bx header in
    by' ← pack_i cdp_y;
    let header := slice_assign 184 188 by' header in
    bi ← pack_i inline_3d;
    let header := slice_assign 188 192 bi header in
    bc ← pack_i crossline_3d;
    let header := slice_assign 192 196 bc header in
    bn ← pack_H (n_samples r);
    let header := slice_assign 114 116 bn header in
    zi ← F64.mul_int (r_zinc r) 1000;
    zi' ← F64.to_int zi;
    bz ← pack_H zi';
    let header := slice_assign 116 118 bz header in
    Ok {| buf := header; kind := "trace" |}.

(** ** numpy buffers, views and the program state *)

Definition loc : Type := nat.

(** A float32 buffer of one, two or three axes, as nested rows. *)
Inductive ndarray :=
| Nd1 (a : list spec_float)
| Nd2 (a : list (list spec_float))
| Nd3 (a : list (list (list spec_float))).

(** Modelled from the spec: what a cache entry is keyed by. The unit the
    cache holds is the aligned slab that one wide read returns: a brick row
    (inline origin), a brick column (crossline origin), a brick layer
    (sample origin), or the brick column of one trace brick. The reader asks
    the loader for whole slabs, one load method per kind, so an entry is
    keyed by the kind of slab and its aligned origin; nothing below relies
    on a slab loaded for one axis being reused for another. *)
Inductive slab_key :=
| InlineSlab (il0 : Z)
| CrosslineSlab (xl0 : Z)
| ZsliceSlab (z0 : Z)
| TraceSlab (il0 xl0 : Z).

#[global] Instance slab_key_eq_dec : EqDecision slab_key.
Proof. solve_decision. Defined.

(** The heap of buffers (a location is a position in it; buffers are never
    freed), and the loader's cache: most recently used entry first, at most
    [cache_capacity] entries. *)
Record state := {
  heap : list ndarray;
  cache_capacity : nat;
  cache : list (slab_key * loc)
}.

Definition set_heap (h : list ndarray) (st : state) : state :=
  {| heap := h; cache_capacity := cache_capacity st; cache := cache st |}.

Definition set_cache (c : list (slab_key * loc)) (st : state) : state :=
  {| heap := heap st; cache_capacity := cache_capacity st; cache := c |}.

(** Computations that read and write the state and may raise. An exception
    keeps the state reached when it was raised. *)
Definition M (A : Type) : Type := state -> result A * state.

#[global] Instance M_ret : MRet M := fun A a st => (Ok a, st).

#[global] Instance M_bind : MBind M := fun A B k m st =>
  match m st with
  | (Ok a, st') => k a st'
  | (Exc e, st') => (Exc e, st')
  end.

Definition lift {A} (r : result A) : M A := fun st => (r, st).

Definition raise {A} (e : exn) : M A := fun st => (Exc e, st).

(** A new buffer. *)
Definition alloc (v : ndarray) : M loc := fun st =>
  (Ok (length (heap st)), set_heap (heap st ++ [v]) st).

(** [f i] for [i] from 0 up to [n]. *)
Definition tab {A} (n : Z) (f : Z -> A) : list A :=
  map (fun i => f (Z.of_nat i)) (seq 0 (Z.to_nat n)).

Definition tab3 {A} (shape : Z * Z * Z) (f : Z -> Z -> Z -> A)
  : list (list (list A)) :=
  let '(d0, d1, d2) := shape in
  tab d0 (fun i => tab d1 (fun j => tab d2 (fun k => f i j k))).

(** [np.zeros(shape, dtype=np.float32)] for a shape of three extents. *)
Definition np_zeros3 (shape : Z * Z * Z) : M loc :=
  let '(d0, d1, d2) := shape in
  if (d0 <? 0) || (d1 <? 0) || (d2 <? 0)
  then raise (ValueError "negative dimensions are not allowed")
  else alloc (Nd3 (tab3 shape (fun _ _ _ => F64.zero))).

(** The shape of a three-axis buffer, as its nested rows show it. *)
Definition nd_shape3 {A} (a : list (list (list A))) : Z * Z * Z :=
  (Z.of_nat (length a),
   Z.of_nat (length (default [] (head a))),
   Z.of_nat (length (default [] (head a ≫= head)))).

(** Modelled from the spec: [read_box], the handle's ranged read
    ([filehandle.read(start, buf)]). A window that leaves the brick grid is
    refused with the store's error and the buffer stays as it was. Otherwise
    every element of the caller's buffer is overwritten, in place, by the
    store's sample at [start] plus the element's position. *)
Definition fill3 (fh : ZgyReader) (start : Z * Z * Z)
    (a : list (list (list spec_float))) : list (list (list spec_float)) :=
  let '(i0, j0, k0) := start in
  imap (fun i plane =>
    imap (fun j row =>
      imap (fun k _ =>
        store_sample fh (i0 + Z.of_nat i) (j0 + Z.of_nat j) (k0 + Z.of_nat k))
      row) plane) a.

Definition zgy_read (fh : ZgyReader) (start : Z * Z * Z) (b : loc) : M unit :=
  fun st =>
    match heap st !! b with
    | Some (Nd3 a) =>
        if in_grid fh start (nd_shape3 a)
        then (Ok tt, set_heap (<[b := Nd3 (fill3 fh start a)]> (heap st)) st)
        else (Exc (StoreError "Requested brick position is outside the valid range"), st)
    | _ => (Exc (ValueError "buffer must have three dimensions"), st)
    end.

(** The index expressions of the reader: [[i, :, :]], [[:, j, :]],
    [[:, :, k]] and [[i, j, :]]. *)
Inductive selector :=
| SelInline (i : Z)
| SelCrossline (j : Z)
| SelZslice (k : Z)
| SelTrace (i j : Z).

(** The result of basic indexing: no data of its own, a window on [base]. *)
Record view := {
  base : loc;
  sel : selector
}.

(** [mapM] over a list, in [result]. *)
Fixpoint traverse {A B} (f : A -> result B) (l : list A) : result (list B) :=
  match l with
  | [] => Ok []
  | x :: xs => y ← f x; ys ← traverse f xs; Ok (y :: ys)
  end.

(** What a selector picks from a three-axis buffer; an index out of the
    bounds of its axis raises. *)
Definition select3 (a : list (list (list spec_float))) (s : selector)
  : result ndarray :=
  match s with
  | SelInline i => p ← np_getitem_axis 0 a i; Ok (Nd2 p)
  | SelCrossline j =>
      p ← traverse (fun plane => np_getitem_axis 1 plane j) a; Ok (Nd2 p)
  | SelZslice k =>
      p ← traverse (traverse (fun row => np_getitem_axis 2 row k)) a; Ok (Nd2 p)
  | SelTrace i j =>
      p ← np_getitem_axis 0 a i; t ← np_getitem_axis 1 p j; Ok (Nd1 t)
  end.

Definition read_view (v : view) (h : list ndarray) : result ndarray :=
  match h !! base v with
  | Some (Nd3 a) => select3 a (sel v)
  | _ => Exc (ValueError "too many indices for array")
  end.

(** [a[...]]: the bounds are checked when the view is made. *)
Definition np_index (a : loc) (s : selector) : M view := fun st =>
  let v := {| base := a; sel := s |} in
  match read_view v (heap st) with
  | Ok _ => (Ok v, st)
  | Exc e => (Exc e, st)
  end.

(** [v.copy()]: a new buffer holding what the view shows now. *)
Definition np_copy (v : view) : M loc := fun st =>
  match read_view v (heap st) with
  | Ok d => alloc d st
  | Exc e => (Exc e, st)
  end.

(** What a caller can do to an array it holds: overwrite its contents. *)
Definition caller_store (l : loc) (v : ndarray) (st : state) : state :=
  set_heap (<[l := v]> (heap st)) st.

(** ** The loader *)

Definition slab_start (k : slab_key) : Z * Z * Z :=
  match k with
  | InlineSlab il0 => (il0, 0, 0)
  | CrosslineSlab xl0 => (0, xl0, 0)
  | ZsliceSlab z0 => (0, 0, z0)
  | TraceSlab il0 xl0 => (il0, xl0, 0)
  end.

Definition slab_shape (fh : ZgyReader) (k : slab_key) : Z * Z * Z :=
  let '(ni, nj, nk) := size fh in
  match k with
  | InlineSlab _ => (64, nj, nk)
  | CrosslineSlab _ => (ni, 64, nk)
  | ZsliceSlab _ => (ni, nj, 64)
  | TraceSlab _ _ => (64, 64, nk)
  end.

(** Modelled from the spec: [read_aligned_slab], the wide read behind a
    cache miss: the whole brick row, column or layer at the aligned origin,
    spanning the other axes fully. *)
Definition load_slab (fh : ZgyReader) (k : slab_key) : M loc :=
  b ← np_zeros3 (slab_shape fh k);
  _ ← zgy_read fh (slab_start k) b;
  mret b.

Fixpoint cache_lookup (k : slab_key) (c : list (slab_key * loc)) : option loc :=
  match c with
  | [] => None
  | (k', l) :: c' => if decide (k' = k) then Some l else cache_lookup k c'
  end.

Definition cache_remove (k : slab_key) (c : list (slab_key * loc))
  : list (slab_key * loc) :=
  filter (fun e => e.1 ≠ k) c.

(** Modelled from the spec: [BrickCache.get_or_load]. A resident entry is
    returned and becomes the most recent; otherwise the slab is loaded,
    inserted, and the least recently used entries beyond the capacity are
    dropped. A load that raises leaves the cache as it was. *)
Definition get_or_load (fh : ZgyReader) (k : slab_key) : M loc := fun st =>
  match cache_lookup k (cache st) with
  | Some l => (Ok l, set_cache ((k, l) :: cache_remove k (cache st)) st)
  | None =>
      match load_slab fh k st with
      | (Ok l, st') =>
          (Ok l, set_cache (take (cache_capacity st') ((k, l) :: cache st')) st')
      | (Exc e, st') => (Exc e, st')
      end
  end.

(** Modelled from the spec: the four loads the reader asks of
    [pyzgy.loader.ZgyLoader] (outside src/), each through the cache. *)
Definition load_inline_chunk (ld : ZgyLoader) (il_idx : Z) : M loc :=
  get_or_load (loader_filehandle ld) (InlineSlab il_idx).

Definition load_crossline_chunk (ld : ZgyLoader) (xl_idx : Z) : M loc :=
  get_or_load (loader_filehandle ld) (CrosslineSlab xl_idx).

Definition load_zslice_chunk (ld : ZgyLoader) (z_idx : Z) : M loc :=
  get_or_load (loader_filehandle ld) (ZsliceSlab z_idx).

Definition load_trace_chunk (ld : ZgyLoader) (il_idx xl_idx : Z) : M loc :=
  get_or_load (loader_filehandle ld) (TraceSlab il_idx xl_idx).

(** ** Reads *)

(** read.py 80-93, [SeismicReader.read_inline]. *)
Definition read_inline (r : SeismicReader) (il_idx : Z) : M loc :=
  chunk ← load_inline_chunk (loader r) (64 * (il_idx / 64));
  v ← np_index chunk (SelInline (il_idx mod 64));
  np_copy v.

(** read.py 65-78, [SeismicReader.read_inline_number]. *)
Definition read_inline_number (r : SeismicReader) (il_no : Z) : M loc :=
  il_idx ← lift (coord_to_index il_no (ilines r) false);
  read_inline r il_idx.

(** read.py 110-123, [SeismicReader.read_crossline]. *)
Definition read_crossline (r : SeismicReader) (xl_idx : Z) : M loc :=
  chunk ← load_crossline_chunk (loader r) (64 * (xl_idx / 64));
  v ← np_index chunk (SelCrossline (xl_idx mod 64));
  np_copy v.

(** read.py 95-108, [SeismicReader.read_crossline_number]. *)
Definition read_crossline_number (r : SeismicReader) (xl_no : Z) : M loc :=
  xl_idx ← lift (coord_to_index xl_no (xlines r) false);
  read_crossline r xl_idx.

(** read.py 140-153, [SeismicReader.read_zslice]. *)
Definition read_zslice (r : SeismicReader) (z_idx : Z) : M loc :=
  chunk ← load_zslice_chunk (loader r) (64 * (z_idx / 64));
  v ← np_index chunk (SelZslice (z_idx mod 64));
  np_copy v.

(** read.py 125-138, [SeismicReader.read_zslice_coord]. *)
Definition read_zslice_coord (r : SeismicReader) (samp_no : spec_float) : M loc :=
  z_idx ← lift (coord_to_index samp_no (samples r) false);
  read_zslice r z_idx.

(** read.py 155-182, [SeismicReader.read_subvolume]. *)
Definition read_subvolume (r : SeismicReader)
    (min_il max_il min_xl max_xl min_z max_z : Z) : M loc :=
  b ← np_zeros3 (max_il - min_il, max_xl - min_xl, max_z - min_z);
  _ ← zgy_read (filehandle r) (min_il, min_xl, min_z) b;
  mret b.

(** read.py 184-194, [SeismicReader.read_volume]. *)
Definition read_volume (r : SeismicReader) : M loc :=
  read_subvolume r 0 (n_ilines r) 0 (n_xlines r) 0 (n_samples r).

(** read.py 196-214, [SeismicReader.get_trace]. *)
Definition get_trace (r : SeismicReader) (index : Z) : M loc :=
  if negb ((0 <=? index) && (index <? n_ilines r * n_xlines r)) then
    raise (IndexError (TraceIndexOutOfRange index (n_ilines r * n_xlines r)))
  else
    let il := index / n_xlines r in
    let xl := index mod n_xlines r in
    chunk ← load_trace_chunk (loader r) (64 * (il / 64)) (64 * (xl / 64));
    v ← np_index chunk (SelTrace (il mod 64) (xl mod 64));
    np_copy v.

(** ** Invariants and well-formedness *)

(** The dimensions of an open volume are not negative. *)
Definition size_ok (fh : ZgyReader) : Prop :=
  let '(ni, nj, nk) := size fh in 0 <= ni /\ 0 <= nj /\ 0 <= nk.

(** What the store returns for the slab of key [k]. *)
Definition slab_content (fh : ZgyReader) (k : slab_key)
  : list (list (list spec_float)) :=
  let '(i0, j0, k0) := slab_start k in
  tab3 (slab_shape fh k)
       (fun a b c => store_sample fh (i0 + a) (j0 + b) (k0 + c)).

(** Every cache entry points to a buffer that holds its slab as loaded. *)
Definition cache_ok (fh : ZgyReader) (st : state) : Prop :=
  forall k l, (k, l) ∈ cache st ->
    heap st !! l = Some (Nd3 (slab_content fh k)).

(** The slab of key [k] lies within the brick grid. *)
Definition slab_in_grid (fh : ZgyReader) (k : slab_key) : bool :=
  in_grid fh (slab_start k) (slab_shape fh k).

(** An outcome that is not an error of the reader's making: a result, or the
    failure of the store, passed on as it came. *)
Definition no_reader_error {A} (res : result A) : Prop :=
  match res with
  | Ok _ | Exc (StoreError _) => True
  | Exc _ => False
  end.

(** What a state keeps of an earlier one: its buffers, and its capacity. *)
Definition extends (st st' : state) : Prop :=
  (exists ext, heap st' = heap st ++ ext) /\
  cache_capacity st' = cache_capacity st.

(** [read] hands the caller an array of its own. Run in [st], it returns a
    new buffer holding [d], apart from the chunk of key [key] it was taken
    from and from every cached buffer; whatever the caller then stores in
    the returned array, the chunk and the cached buffers keep their
    contents, and the same read returns [d] again. *)
Definition independent_copy (fh : ZgyReader) (read : M loc) (st : state)
    (key : slab_key) (d : ndarray) : Prop :=
  exists l st' chunk,
    read st = (Ok l, st') /\
    heap st' !! chunk = Some (Nd3 (slab_content fh key)) /\
    ((0 < cache_capacity st)%nat -> (key, chunk) ∈ cache st') /\
    heap st' !! l = Some d /\
    l <> chunk /\
    (forall k l', (k, l') ∈ cache st' -> l' <> l) /\
    (length (heap st) <= l)%nat /\
    cache_ok fh st' /\
    forall v,
      let st2 := caller_store l v st' in
      heap st2 !! chunk = Some (Nd3 (slab_content fh key)) /\
      (forall k l', (k, l') ∈ cache st2 -> heap st2 !! l' = heap st' !! l') /\
      cache_ok fh st2 /\
      exists l2 st3, read st2 = (Ok l2, st3) /\ heap st3 !! l2 = Some d.

(** The inline plane, crossline plane, sample layer and trace of the store
    at an ordinal. *)
Definition inline_plane (fh : ZgyReader) (i : Z) : list (list spec_float) :=
  tab (size_at fh 1) (fun j => tab (size_at fh 2) (fun k => store_sample fh i j k)).

Definition crossline_plane (fh : ZgyReader) (j : Z) : list (list spec_float) :=
  tab (size_at fh 0) (fun i => tab (size_at fh 2) (fun k => store_sample fh i j k)).

Definition zslice_plane (fh : ZgyReader) (k : Z) : list (list spec_float) :=
  tab (size_at fh 0) (fun i => tab (size_at fh 1) (fun j => store_sample fh i j k)).

Definition trace_at (fh : ZgyReader) (i j : Z) : list spec_float :=
  tab (size_at fh 2) (fun k => store_sample fh i j k).

(** The arguments [get_haxis] gives to [np.arange]: start and stop. *)
Definition haxis_bounds (fh : ZgyReader) (idx : nat) : result (Z * Z) :=
  start ← F64.to_int (pair_at (annotstart fh) idx);
  span ← F64.int_mul (size_at fh idx) (pair_at (annotinc fh) idx);
  stop ← F64.to_int (F64.add (pair_at (annotstart fh) idx) span);
  Ok (start, stop).

(** Every annotation number of a horizontal axis fits the C int it is stored
    in: the axis is empty, or its first and its last number fit. *)
Definition haxis_unwrapped (fh : ZgyReader) (idx : nat) : bool :=
  match haxis_bounds fh idx, F64.to_int (pair_at (annotinc fh) idx) with
  | Ok (start, stop), Ok step =>
      let len := Z.max 0 (- ((start - stop) / step)) in
      (len =? 0) ||
      (Intc.in_rangeb start && Intc.in_rangeb (start + (len - 1) * step))
  | _, _ => false
  end.

(** What looking up the coordinate [a] found at ordinal [i] of an axis
    gives: the first ordinal [j] that holds a value equal to [a], which is
    [i] exactly when no earlier value equals [a]. *)
Definition first_match {A} `{NpScalar A} (axis : list A) (i : nat) (a : A)
    (include_stop : bool) : Prop :=
  exists j, (j <= i)%nat /\
    coord_to_index a axis include_stop = Ok (Z.of_nat j) /\
    (exists b, axis !! j = Some b /\ np_eqb b a = true) /\
    (forall j' b, (j' < j)%nat -> axis !! j' = Some b -> np_eqb b a = false) /\
    (j = i <->
     forall j' b, (j' < i)%nat -> axis !! j' = Some b -> np_eqb b a = false).

(** The values of an axis are pairwise different, and each equals itself
    (no NaN): an exact match determines the ordinal. *)
Fixpoint distinct_axis {A} `{NpScalar A} (l : list A) : bool :=
  match l with
  | [] => true
  | a :: l' =>
      np_eqb a a && forallb (fun b => negb (np_eqb a b)) l' && distinct_axis l'
  end.

(** ** The concrete scenario of the specification

    Volume shape (3, 4, 2); inline annotations 100, 102, 104; crossline
    annotations 10 to 13; sample axis 0.0, 4.0; corners on a unit-increment
    rectilinear grid from the origin (1000.0, 2000.0). *)
Module Scenario.

Definition fl (n : Z) : spec_float := F64.of_Z n.

Definition handle : ZgyReader := {|
  size := (3, 4, 2);
  annotstart := (fl 100, fl 10);
  annotinc := (fl 2, fl 1);
  zstart := fl 0;
  zinc := fl 4;
  corners := ((fl 1000, fl 2000), (fl 1002, fl 2000),
              (fl 1000, fl 2003), (fl 1002, fl 2003));
  bulk := fun i j k => fl (100 * i + 10 * j + k + 1);
  padding := fl 0
|}.

(** The reader [init] builds on the handle. *)
Definition reader : SeismicReader := {|
  filehandle := handle;
  loader := {| loader_filehandle := handle |};
  n_ilines := 3; n_xlines := 4; n_samples := 2;
  tracecount := 12;
  ilines := [100; 102; 104];
  xlines := [10; 11; 12; 13];
  samples := [fl 0; fl 4];
  r_corners := corners handle;
  r_annotstart := annotstart handle;
  r_annotinc := annotinc handle;
  r_zinc := fl 4;
  easting_inc_il := fl 1; northing_inc_il := fl 0;
  easting_inc_xl := fl 0; northing_inc_xl := fl 1
|}.

(** A freshly opened reader: no buffers, an empty cache of capacity one. *)
Definition fresh : state :=
  {| heap := []; cache_capacity := 1; cache := [] |}.

(** The same volume sampled every 100 units (a coarse depth model). *)
Definition coarse_handle : ZgyReader := {|
  size := size handle;
  annotstart := annotstart handle;
  annotinc := annotinc handle;
  zstart := zstart handle;
  zinc := fl 100;
  corners := corners handle;
  bulk := bulk handle;
  padding := padding handle
|}.

(** The reader [init] builds on the coarse handle. *)
Definition coarse_reader : SeismicReader := {|
  filehandle := coarse_handle;
  loader := {| loader_filehandle := coarse_handle |};
  n_ilines := 3; n_xlines := 4; n_samples := 2;
  tracecount := 12;
  ilines := [100; 102; 104];
  xlines := [10; 11; 12; 13];
  samples := [fl 0; fl 100];
  r_corners := corners handle;
  r_annotstart := annotstart handle;
  r_annotinc := annotinc handle;
  r_zinc := fl 100;
  easting_inc_il := fl 1; northing_inc_il := fl 0;
  easting_inc_xl := fl 0; northing_inc_xl := fl 1
|}.

End Scenario.

(** ** Further notions used below *)

(** [struct.unpack] of a signed big-endian field (">h", ">i"): the two's
    complement value of the bytes. *)
Definition be_signed (bs : list byte) : Z :=
  let u := be_value bs in
  let w := 8 * Z.of_nat (length bs) in
  if u <? 2 ^ (w - 1) then u else u - 2 ^ w.

(** [a[i, j, k]] on a three-axis buffer, for indices that are not negative. *)
Definition nd3_at {A} (a : list (list (list A))) (i j k : Z) : option A :=
  plane ← a !! Z.to_nat i;
  row ← plane !! Z.to_nat j;
  row !! Z.to_nat k.

(** A computation keeps the buffers it finds: whatever it returns or raises,
    the heap it leaves is the heap it found followed by new buffers. *)
Definition keeps_buffers {A} (m : M A) : Prop :=
  forall st res st', m st = (res, st') -> exists ext, heap st' = heap st ++ ext.

(** Reading twice in a row: the second read returns a second buffer with the
    same contents [d], and allocates nothing but that buffer. *)
Definition rereads_warm (read : M loc) (st : state) (d : ndarray) : Prop :=
  exists l1 st1 l2 st2,
    read st = (Ok l1, st1) /\ read st1 = (Ok l2, st2) /\
    l1 <> l2 /\
    heap st2 !! l1 = Some d /\ heap st2 !! l2 = Some d /\
    heap st2 = heap st1 ++ [d].

(** Handles at the edges of what [__init__] accepts. *)
Module Edge.

(** The scenario volume annotated every half inline. *)
Definition half_step_handle : ZgyReader := {|
  size := size Scenario.handle;
  annotstart := annotstart Scenario.handle;
  annotinc := (F64.div (F64.of_Z 1) (F64.of_Z 2), F64.of_Z 1);
  zstart := zstart Scenario.handle;
  zinc := zinc Scenario.handle;
  corners := corners Scenario.handle;
  bulk := bulk Scenario.handle;
  padding := padding Scenario.handle
|}.

(** A single inline of four crosslines and two samples. *)
Definition single_inline_handle : ZgyReader := {|
  size := (1, 4, 2);
  annotstart := annotstart Scenario.handle;
  annotinc := annotinc Scenario.handle;
  zstart := zstart Scenario.handle;
  zinc := zinc Scenario.handle;
  corners := ((F64.of_Z 1000, F64.of_Z 2000), (F64.of_Z 1000, F64.of_Z 2000),
              (F64.of_Z 1000, F64.of_Z 2003), (F64.of_Z 1000, F64.of_Z 2003));
  bulk := bulk Scenario.handle;
  padding := padding Scenario.handle
|}.

(** Four samples from 2^53 on, one unit apart: the next double after 2^53
    is 2^53 + 2, so the increment is absorbed. *)
Definition big : spec_float := F64.of_Z (2 ^ 53).

Definition absorbed_handle : ZgyReader := {|
  size := (3, 4, 4);
  annotstart := annotstart Scenario.handle;
  annotinc := annotinc Scenario.handle;
  zstart := big;
  zinc := F64.of_Z 1;
  corners := corners Scenario.handle;
  bulk := bulk Scenario.handle;
  padding := padding Scenario.handle
|}.

(** The reader [init] builds on it. *)
Definition absorbed_reader : SeismicReader := {|
  filehandle := absorbed_handle;
  loader := {| loader_filehandle := absorbed_handle |};
  n_ilines := 3; n_xlines := 4; n_samples := 4;
  tracecount := 12;
  ilines := [100; 102; 104];
  xlines := [10; 11; 12; 13];
  samples := [big; big; big; big];
  r_corners := corners Scenario.handle;
  r_annotstart := annotstart Scenario.handle;
  r_annotinc := annotinc Scenario.handle;
  r_zinc := F64.of_Z 1;
  easting_inc_il := F64.of_Z 1; northing_inc_il := F64.of_Z 0;
  easting_inc_xl := F64.of_Z 0; northing_inc_xl := F64.of_Z 1
|}.

End Edge.

(** * Properties *)

(** ** Coordinate lookup *)

Section CoordIndex.
Context {A : Type} `{NpScalar A}.

Lemma np_where_first_None (coord : A) (coords : list A) :
  np_where_first coord coords = None <->
  Forall (fun c => np_eqb c coord = false) coords.
Proof.
  induction coords as [|c cs IH]; simpl.
  - split; [constructor | done].
  - destruct (np_eqb c coord) eqn:E.
    + split; [done | inversion 1; congruence].
    + rewrite fmap_None, IH. split.
      * intros; by constructor.
      * by inversion 1.
Qed.

Lemma np_where_first_Some (coord : A) (coords : list A) (i : nat) :
  np_where_first coord coords = Some i <->
  (exists c, coords !! i = Some c /\ np_eqb c coord = true) /\
  (forall j c, (j < i)%nat -> coords !! j = Some c -> np_eqb c coord = false).
Proof.
  revert i. induction coords as [|c cs IH]; intros i; simpl.
  - split; [done | intros [(c & Hc & _) _]; done].
  - destruct (np_eqb c coord) eqn:E.
    + split.
      * intros [= <-]. split; [by exists c | intros; lia].
      * intros [(c' & Hc & Hm) Hlt]. destruct i as [|i]; [done|].
        specialize (Hlt 0%nat c (Nat.lt_0_succ _) eq_refl). congruence.
    + rewrite fmap_Some. split.
      * intros (i' & Hi' & ->). apply IH in Hi' as [Hex Hlt].
        split; [done|]. intros [|j] c' Hj Hc'; simpl in *.
        -- congruence.
        -- apply (Hlt j); [lia | done].
      * intros [(c' & Hc & Hm) Hlt]. destruct i as [|i]; simpl in *.
        -- congruence.
        -- exists i. split; [|done]. apply IH. split; [by exists c'|].
           intros j c'' Hj Hc''. apply (Hlt (S j)); [lia | done].
Qed.

(** An exact match is returned as such, whatever [include_stop]. *)
Lemma coord_to_index_found (coord : A) coords stop i :
  np_where_first coord coords = Some i ->
  coord_to_index coord coords stop = Ok (Z.of_nat i).
Proof. unfold coord_to_index. by intros ->. Qed.

Lemma np_getitem_last (front : list A) (prev last : A) :
  np_getitem (front ++ [prev; last]) (-1) = Ok last /\
  np_getitem (front ++ [prev; last]) (-2) = Ok prev.
Proof.
  unfold np_getitem, np_getitem_axis.
  rewrite length_app; simpl length.
  assert (Hlen : Z.of_nat (length front + 2) = Z.of_nat (length front) + 2) by lia.
  rewrite Hlen. split.
  - replace (-1 <? 0) with true by done.
    replace (Z.to_nat (-1 + (Z.of_nat (length front) + 2)))
      with (length front + 1)%nat by lia.
    rewrite lookup_app_r by lia.
    replace (length front + 1 - length front)%nat with 1%nat by lia.
    simpl. case_match; [done|]. apply andb_false_iff in H0 as [?%Z.leb_gt|?%Z.ltb_ge]; lia.
  - replace (-2 <? 0) with true by done.
    replace (Z.to_nat (-2 + (Z.of_nat (length front) + 2)))
      with (length front + 0)%nat by lia.
    rewrite lookup_app_r by lia.
    replace (length front + 0 - length front)%nat with 0%nat by lia.
    simpl. case_match; [done|]. apply andb_false_iff in H0 as [?%Z.leb_gt|?%Z.ltb_ge]; lia.
Qed.

(** Without a match and without [include_stop], the lookup raises
    "Coordinate {} not in axis". *)
Lemma coord_to_index_absent (coord : A) coords :
  np_where_first coord coords = None ->
  coord_to_index coord coords false =
    Exc (IndexError (CoordinateNotInAxis (np_show coord))).
Proof. unfold coord_to_index. by intros ->. Qed.

(** Without a match, on an axis of two elements or more, [include_stop]
    accepts exactly the coordinate one increment past the last. *)
Lemma coord_to_index_stop (coord : A) front prev last :
  np_where_first coord (front ++ [prev; last]) = None ->
  coord_to_index coord (front ++ [prev; last]) true =
    if np_eqb coord (np_add last (np_sub last prev))
    then Ok (Z.of_nat (length (front ++ [prev; last])))
    else Exc (IndexError (CoordinateNotInAxis (np_show coord))).
Proof.
  unfold coord_to_index. intros ->.
  destruct (np_getitem_last front prev last) as [-> ->]. done.
Qed.

(** On an axis of one element, the handler fails on [coords[-2]]. *)
Lemma coord_to_index_single (coord a : A) :
  np_eqb a coord = false ->
  coord_to_index coord [a] true = Exc (IndexError (NpOutOfBounds (-2) 0 1)).
Proof. unfold coord_to_index; simpl. by intros ->. Qed.

(** On an empty axis, the handler fails on [coords[-1]]. *)
Lemma coord_to_index_empty (coord : A) :
  coord_to_index coord [] true = Exc (IndexError (NpOutOfBounds (-1) 0 0)).
Proof. done. Qed.

Lemma distinct_axis_lookup (l : list A) :
  distinct_axis l = true ->
  forall i a, l !! i = Some a ->
    np_eqb a a = true /\
    forall j b, (j < i)%nat -> l !! j = Some b -> np_eqb b a = false.
Proof.
  induction l as [|x l IH]; simpl; [done|].
  intros [[Hx Hall]%andb_true_iff Hl]%andb_true_iff.
  rewrite forallb_forall in Hall.
  intros [|i] a Hi; simpl in Hi.
  - injection Hi as <-. split; [done | intros; lia].
  - destruct (IH Hl i a Hi) as [Ha Hlt]. split; [done|].
    intros [|j] b Hj Hb; simpl in Hb.
    + injection Hb as <-. apply negb_true_iff, Hall.
      apply list_elem_of_In. by eapply list_elem_of_lookup_2.
    + apply (Hlt j); [lia | done].
Qed.

(** Round trip on an axis of distinct values. *)
Lemma coord_to_index_distinct (l : list A) stop i a :
  distinct_axis l = true -> l !! i = Some a ->
  coord_to_index a l stop = Ok (Z.of_nat i).
Proof.
  intros Hd Hi. apply coord_to_index_found, np_where_first_Some.
  destruct (distinct_axis_lookup l Hd i a Hi) as [Ha Hlt].
  split; [by exists a | done].
Qed.

(** A coordinate that equals itself and sits on the axis is found, no later
    than where it sits. *)
Lemma np_where_first_le (l : list A) (i : nat) (a : A) :
  l !! i = Some a -> np_eqb a a = true ->
  exists j, (j <= i)%nat /\ np_where_first a l = Some j.
Proof.
  revert i. induction l as [|c cs IH]; intros i Hi Ha; [done|]. simpl.
  destruct (np_eqb c a) eqn:E.
  - exists 0%nat. split; [lia | done].
  - destruct i as [|i]; simpl in Hi.
    + injection Hi as ->. congruence.
    + destruct (IH i Hi Ha) as (j & Hj & ->). exists (S j). split; [lia | done].
Qed.

Lemma coord_to_index_first (l : list A) (i : nat) (a : A) (stop : bool) :
  l !! i = Some a -> np_eqb a a = true -> first_match l i a stop.
Proof.
  intros Hi Ha. destruct (np_where_first_le l i a Hi Ha) as (j & Hj & Hw).
  exists j. split; [exact Hj|].
  split; [exact (coord_to_index_found a l stop j Hw)|].
  apply np_where_first_Some in Hw as [Hex Hmin].
  split; [exact Hex|]. split; [exact Hmin|]. split.
  - intros ->. exact Hmin.
  - intros Hno. apply Nat.le_antisymm; [exact Hj|]. apply Nat.nlt_ge.
    intros Hlt. destruct Hex as (b & Hb & Hba).
    pose proof (Hno j b Hlt Hb) as Hnb. congruence.
Qed.

End CoordIndex.

(** ** The reader's attributes *)

Ltac bind_ok H x Hx :=
  match type of H with
  | (mbind _ ?m) = Ok _ =>
      destruct m as [x|?] eqn:Hx; [simpl in H | discriminate H]
  | (?m ≫= _) = Ok _ =>
      destruct m as [x|?] eqn:Hx; [simpl in H | discriminate H]
  end.

Lemma init_inv (fh : ZgyReader) (r : SeismicReader) :
  init fh = Ok r ->
  filehandle r = fh /\
  loader r = {| loader_filehandle := fh |} /\
  size fh = (n_ilines r, n_xlines r, n_samples r) /\
  tracecount r = n_xlines r * n_ilines r /\
  get_haxis fh 0 = Ok (ilines r) /\
  get_haxis fh 1 = Ok (xlines r) /\
  r_corners r = corners fh /\
  r_annotstart r = annotstart fh /\
  r_annotinc r = annotinc fh /\
  r_zinc r = zinc fh /\
  F64.div_int (F64.sub (fst (corner (corners fh) 1)) (fst (corner (corners fh) 0)))
              (n_ilines r - 1) = Ok (easting_inc_il r) /\
  F64.div_int (F64.sub (snd (corner (corners fh) 1)) (snd (corner (corners fh) 0)))
              (n_ilines r - 1) = Ok (northing_inc_il r) /\
  F64.div_int (F64.sub (fst (corner (corners fh) 2)) (fst (corner (corners fh) 0)))
              (n_xlines r - 1) = Ok (easting_inc_xl r) /\
  F64.div_int (F64.sub (snd (corner (corners fh) 2)) (snd (corner (corners fh) 0)))
              (n_xlines r - 1) = Ok (northing_inc_xl r).
Proof.
  unfold init, size_at. destruct (size fh) as [[ni nj] nk] eqn:Hsz. intros Hi.
  bind_ok Hi il Hil. bind_ok Hi xl Hxl. bind_ok Hi zs Hzs. bind_ok Hi za Hza.
  bind_ok Hi e1 He1. bind_ok Hi n1 Hn1. bind_ok Hi e2 He2. bind_ok Hi n2 Hn2.
  injection Hi as <-. simpl. repeat split; done.
Qed.

(** A double that is a number equals itself. *)
Lemma f64_eqb_refl (x : spec_float) : F64.is_nan x = false -> F64.eqb x x = true.
Proof.
  destruct x as [s|s| |s m e]; intros Hx; try discriminate Hx; unfold F64.eqb, SFeqb; simpl.
  - reflexivity.
  - by destruct s.
  - destruct s; rewrite Z.compare_refl, Pos.compare_cont_refl; reflexivity.
Qed.

(** A NaN equals nothing. *)
Lemma f64_eqb_nan (x y : spec_float) : F64.is_nan y = true -> F64.eqb x y = false.
Proof.
  destruct y; intros Hy; try discriminate Hy. by destruct x as [| [|] | |].
Qed.

(** ** The horizontal axes *)

Lemma in_rangeb_spec (n : Z) : Intc.in_rangeb n = true <-> Intc.in_range n.
Proof.
  unfold Intc.in_rangeb, Intc.in_range.
  rewrite andb_true_iff, !Z.leb_le. tauto.
Qed.

Lemma wrap_in_range (n : Z) : Intc.in_range n -> Intc.wrap n = n.
Proof.
  unfold Intc.in_range, Intc.min_int, Intc.max_int, Intc.wrap. intros Hn.
  rewrite Z.mod_small; lia.
Qed.

(** The elements of an integer range lie between its start and its stop. *)
Lemma arange_element_between (start stop step : Z) (i : nat) :
  step <> 0 ->
  (i < Z.to_nat (Z.max 0 (- ((start - stop) / step))))%nat ->
  (0 < step /\ start <= start + Z.of_nat i * step < stop) \/
  (step < 0 /\ stop < start + Z.of_nat i * step <= start).
Proof.
  intros Hstep Hi.
  set (q := (start - stop) / step) in *.
  assert (Hq : q + 1 <= - Z.of_nat i) by lia.
  destruct (Z.lt_trichotomy step 0) as [Hneg | [? | Hpos]]; [right | done | left].
  - split; [done|].
    pose proof (Z.mod_neg_bound (start - stop) step Hneg) as Hm.
    pose proof (Z.div_mod (start - stop) step Hstep) as Hd. fold q in Hd.
    nia.
  - split; [done|].
    pose proof (Z.mod_pos_bound (start - stop) step Hpos) as Hm.
    pose proof (Z.div_mod (start - stop) step Hstep) as Hd. fold q in Hd.
    nia.
Qed.

Lemma distinct_axis_NoDup (l : list Z) : NoDup l -> distinct_axis l = true.
Proof.
  induction 1 as [|x l Hx Hl IH]; simpl; [done|].
  rewrite Z.eqb_refl, IH, andb_true_r. simpl.
  apply forallb_forall. intros y Hy%list_elem_of_In.
  apply negb_true_iff, Z.eqb_neq. intros ->. done.
Qed.

(** An integer range whose numbers all fit a C int holds the unwrapped
    progression. *)
Lemma np_arange_intc_plain (start stop step : Z) :
  step <> 0 ->
  Z.max 0 (- ((start - stop) / step)) = 0 \/
  (Intc.in_range start /\
   Intc.in_range (start + (Z.max 0 (- ((start - stop) / step)) - 1) * step)) ->
  np_arange_intc start stop step =
    Ok ((fun i : nat => start + Z.of_nat i * step) <$>
        seq 0 (Z.to_nat (Z.max 0 (- ((start - stop) / step))))).
Proof.
  intros Hstep Hfit. unfold np_arange_intc.
  set (len := Z.max 0 (- ((start - stop) / step))) in *.
  destruct (step =? 0) eqn:Hz; [apply Z.eqb_eq in Hz; done|].
  assert (Hel : forall i, 0 <= i < len -> Intc.in_range (start + i * step)).
  { intros i Hi. destruct Hfit as [?|[Hs He]]; [lia|].
    unfold Intc.in_range in *.
    destruct (Z.lt_trichotomy step 0) as [?|[?|?]]; [nia | done | nia]. }
  assert (H0 : (0 <? len) && negb (Intc.in_rangeb start) = false).
  { destruct (0 <? len) eqn:Hl; [|done]. apply Z.ltb_lt in Hl.
    specialize (Hel 0). rewrite Z.mul_0_l, Z.add_0_r in Hel.
    apply negb_false_iff, in_rangeb_spec, Hel. lia. }
  assert (H1 : (1 <? len) && negb (Intc.in_rangeb (start + step)) = false).
  { destruct (1 <? len) eqn:Hl; [|done]. apply Z.ltb_lt in Hl.
    specialize (Hel 1). rewrite Z.mul_1_l in Hel.
    apply negb_false_iff, in_rangeb_spec, Hel. lia. }
  rewrite H0, H1. f_equal.
  apply map_ext_in. intros i [_ Hi]%in_seq. apply wrap_in_range, Hel. lia.
Qed.

(** An integer range whose bounds fit a C int holds the unwrapped
    progression, whose values are pairwise different. *)
Lemma np_arange_intc_progression (start stop step : Z) (l : list Z) :
  step <> 0 ->
  np_arange_intc start stop step =
    Ok ((fun i : nat => start + Z.of_nat i * step) <$>
        seq 0 (Z.to_nat (Z.max 0 (- ((start - stop) / step))))) ->
  np_arange_intc start stop step = Ok l ->
  distinct_axis l = true /\
  forall i a, l !! i = Some a -> a = start + Z.of_nat i * step.
Proof.
  intros Hz -> [= <-].
  set (n := Z.to_nat (Z.max 0 (- ((start - stop) / step)))).
  split.
  - apply distinct_axis_NoDup, NoDup_fmap_2; [|apply NoDup_seq].
    intros i j Hij. nia.
  - intros i a Hi. rewrite list_lookup_fmap in Hi.
    destruct (seq 0 n !! i) as [k|] eqn:Hk; [|done].
    apply lookup_seq in Hk as [-> _]. simpl in Hi. by injection Hi as <-.
Qed.

Lemma np_arange_intc_step (start stop step : Z) (l : list Z) :
  np_arange_intc start stop step = Ok l -> step <> 0.
Proof. intros Hl ->. discriminate Hl. Qed.

Lemma np_arange_intc_bounded (start stop step : Z) :
  step <> 0 -> Intc.in_range start -> Intc.in_range stop ->
  np_arange_intc start stop step =
    Ok ((fun i : nat => start + Z.of_nat i * step) <$>
        seq 0 (Z.to_nat (Z.max 0 (- ((start - stop) / step))))).
Proof.
  intros Hz Hs He. apply np_arange_intc_plain; [exact Hz|].
  set (len := Z.max 0 (- ((start - stop) / step))).
  destruct (decide (len = 0)) as [?|Hne]; [by left | right].
  split; [exact Hs|].
  destruct (arange_element_between start stop step (Z.to_nat (len - 1)) Hz)
    as [[? ?]|[? ?]]; [fold len; lia | |];
    rewrite Z2Nat.id in * by lia; unfold Intc.in_range in *; lia.
Qed.

Lemma np_arange_intc_distinct (start stop step : Z) (l : list Z) :
  Intc.in_range start -> Intc.in_range stop ->
  np_arange_intc start stop step = Ok l ->
  distinct_axis l = true /\
  forall i a, l !! i = Some a -> a = start + Z.of_nat i * step.
Proof.
  intros Hs He Hl. pose proof (np_arange_intc_step _ _ _ _ Hl) as Hz.
  apply (np_arange_intc_progression start stop step); [exact Hz | | exact Hl].
  by apply np_arange_intc_bounded.
Qed.

Lemma np_arange_intc_length (start stop step : Z) (l : list Z) :
  Intc.in_range start -> Intc.in_range stop ->
  np_arange_intc start stop step = Ok l ->
  length l = Z.to_nat (Z.max 0 (- ((start - stop) / step))).
Proof.
  intros Hs He Hl. pose proof (np_arange_intc_step _ _ _ _ Hl) as Hz.
  rewrite np_arange_intc_bounded in Hl by assumption. injection Hl as <-.
  by rewrite length_fmap, length_seq.
Qed.

(** A horizontal axis whose numbers all fit a C int holds pairwise different
    numbers. *)
Lemma get_haxis_unwrapped (fh : ZgyReader) (idx : nat) (l : list Z) :
  haxis_unwrapped fh idx = true -> get_haxis fh idx = Ok l ->
  distinct_axis l = true.
Proof.
  unfold get_haxis. intros Hfit Hl.
  bind_ok Hl a Ha. bind_ok Hl sp Hsp. bind_ok Hl b Hb. bind_ok Hl s Hs.
  unfold haxis_unwrapped, haxis_bounds in Hfit. rewrite Ha in Hfit. simpl in Hfit.
  rewrite Hsp in Hfit. simpl in Hfit. rewrite Hb in Hfit. simpl in Hfit.
  rewrite Hs in Hfit.
  pose proof (np_arange_intc_step _ _ _ _ Hl) as Hz.
  refine (proj1 (np_arange_intc_progression a b s l Hz _ Hl)).
  apply np_arange_intc_plain; [exact Hz|].
  apply orb_true_iff in Hfit as [He|[Hra Hrb]%andb_true_iff].
  - left. by apply Z.eqb_eq.
  - right. by rewrite <- !in_rangeb_spec.
Qed.


Lemma scenario_init : init Scenario.handle = Ok Scenario.reader.
Proof. reflexivity. Qed.



(** An integer range that leaves the C int after its second element wraps
    and can repeat a number: the third element of the range from 0 in steps
    of -2^31 is 0 again, and looks up as ordinal 0. *)
Example np_arange_intc_wraps :
  np_arange_intc 0 (3 * - 2 ^ 31) (- 2 ^ 31) = Ok [0; - 2 ^ 31; 0] /\
  coord_to_index 0 [0; - 2 ^ 31; 0] false = Ok 0.
Proof. split; reflexivity. Qed.

(** ** Exact matching and the one-past-end marker *)

Section ExactMatch.
Context {A : Type} `{NpScalar A}.

(** C9. On a single-element axis the one-past-end path cannot succeed:
    for a coordinate other than the element, the lookup with
    [include_stop] does not return 1 but raises the out-of-bounds
    IndexError of [coords[-2]]. On an axis of two elements or more the
    path takes the increment to be last - previous and returns the axis
    length for the coordinate one increment past the last. *)
Theorem one_past_end_needs_two_elements (coord a : A) :
  np_eqb a coord = false ->
  coord_to_index coord [a] true = Exc (IndexError (NpOutOfBounds (-2) 0 1)) /\
  coord_to_index coord [a] true <> Ok 1 /\
  (forall front prev last,
     Forall (fun c => np_eqb c coord = false) (front ++ [prev; last]) ->
     np_eqb coord (np_add last (np_sub last prev)) = true ->
     coord_to_index coord (front ++ [prev; last]) true =
       Ok (Z.of_nat (length (front ++ [prev; last])))).
Proof.
  intros Ha. rewrite (coord_to_index_single coord a Ha).
  repeat split; [done|].
  intros front prev last Habs%np_where_first_None Hstop.
  rewrite coord_to_index_stop by done. by rewrite Hstop.
Qed.

End ExactMatch.

(** C3. Where the lookup departs from its specification. The handler of a
    failed match computes [coords[-1] + (coords[-1] - coords[-2])] before
    it reaches its own [raise IndexError("Coordinate {} not in axis")]. On the
    one-element axis [5] with [include_stop], the absent coordinate 7 is
    therefore reported by the out-of-bounds error of [coords[-2]], not by
    "Coordinate 7 not in axis", which the same lookup without
    [include_stop], and the lookup of 9 on the axis [5, 6], do raise. On the
    C int axis [2^31 - 2, 2^31 - 1] the sum wraps to -2^31, so the absent
    coordinate -2^31, which is not last + increment, is answered with the
    axis length 2. *)
Lemma coord_to_index_handler_slip :
  coord_to_index 7 [5] true = Exc (IndexError (NpOutOfBounds (-2) 0 1)) /\
  coord_to_index 7 [5] true <> Exc (IndexError (CoordinateNotInAxis (PyInt 7))) /\
  coord_to_index 7 [5] false = Exc (IndexError (CoordinateNotInAxis (PyInt 7))) /\
  coord_to_index 9 [5; 6] true = Exc (IndexError (CoordinateNotInAxis (PyInt 9))) /\
  coord_to_index (- 2 ^ 31) [2 ^ 31 - 2; 2 ^ 31 - 1] true = Ok 2 /\
  - 2 ^ 31 <> (2 ^ 31 - 1) + ((2 ^ 31 - 1) - (2 ^ 31 - 2)).
Proof.
  split; [reflexivity|]. split; [discriminate|]. split; [reflexivity|].
  split; [reflexivity|]. split; [reflexivity | lia].
Qed.

Lemma one_past_end_needs_two_elements_witness :
  coord_to_index 7 [5] true = Exc (IndexError (NpOutOfBounds (-2) 0 1)) /\
  coord_to_index 106 [100; 102; 104] true = Ok 3.
Proof.
  assert (H7 : np_eqb 5 7 = false) by reflexivity.
  assert (H106 : np_eqb 5 106 = false) by reflexivity.
  destruct (one_past_end_needs_two_elements 7 5 H7) as (H1 & _ & _).
  destruct (one_past_end_needs_two_elements 106 5 H106) as (_ & _ & H3).
  split; [exact H1|].
  apply (H3 [100] 102 104); [repeat constructor | reflexivity].
Defined.

(** ** Geometry *)


(** Ordinal 0 contributes a zero: [0 * inc] is a zero for a finite [inc]. *)
Lemma f64_int_mul_0 (inc : spec_float) :
  F64.is_finite inc = true ->
  exists z, F64.int_mul 0 inc = Ok z /\ F64.is_zero z = true.
Proof.
  destruct inc as [s|s| |s m e]; intros Hf; try discriminate Hf;
    eexists; split; reflexivity.
Qed.

(** Adding a zero leaves a number equal to itself. *)
Lemma f64_add_zero_r (x z : spec_float) :
  F64.is_nan x = false -> F64.is_zero z = true ->
  F64.eqb (F64.add x z) x = true /\ F64.is_nan (F64.add x z) = false /\
  (F64.is_zero x = false -> F64.add x z = x).
Proof.
  intros Hx Hz.
  destruct z as [sz|sz| |sz mz ez]; try discriminate Hz.
  destruct x as [s|s| |s m e]; try discriminate Hx.
  - destruct s, sz; repeat split; intros; discriminate.
  - destruct s; repeat split.
  - change (F64.add (S754_finite s m e) (S754_zero sz)) with (S754_finite s m e).
    split; [|split; [reflexivity | reflexivity]].
    apply f64_eqb_refl. reflexivity.
Qed.

Lemma f64_eqb_zero_l (x y : spec_float) :
  F64.is_zero x = true -> F64.is_zero y = true -> F64.eqb x y = true.
Proof.
  destruct x; intros Hx; try discriminate Hx.
  destruct y; intros Hy; try discriminate Hy. reflexivity.
Qed.

Lemma f64_add_zeros (x y : spec_float) :
  F64.is_zero x = true -> F64.is_zero y = true -> F64.is_zero (F64.add x y) = true.
Proof.
  destruct x as [sx| | |]; intros Hx; try discriminate Hx.
  destruct y as [sy| | |]; intros Hy; try discriminate Hy.
  destruct sx, sy; reflexivity.
Qed.

Lemma gen_cdp_origin (o e1 e2 : spec_float) :
  F64.is_finite e1 = true -> F64.is_finite e2 = true -> F64.is_nan o = false ->
  exists x,
    (a ← F64.int_mul 0 e1;
     let s := F64.add o a in
     b ← F64.int_mul 0 e2;
     Ok (F64.add s b)) = Ok x /\
    F64.eqb x o = true.
Proof.
  intros H1 H2 Ho.
  destruct (f64_int_mul_0 e1 H1) as (z1 & -> & Hz1).
  destruct (f64_int_mul_0 e2 H2) as (z2 & -> & Hz2).
  exists (F64.add (F64.add o z1) z2). split; [reflexivity|].
  destruct (f64_add_zero_r o z1 Ho Hz1) as (He1 & Hn1 & Hk1).
  destruct (f64_add_zero_r (F64.add o z1) z2 Hn1 Hz2) as (He2 & Hn2 & Hk2).
  destruct (F64.is_zero o) eqn:Hzo.
  - apply f64_eqb_zero_l; [|exact Hzo].
    apply f64_add_zeros; [|exact Hz2]. apply f64_add_zeros; assumption.
  - rewrite (Hk1 eq_refl) in Hk2 |- *. rewrite Hzo in Hk2. rewrite (Hk2 eq_refl).
    apply f64_eqb_refl, Ho.
Qed.

(** C6. For a reader built on a handle: the per-axis easting and northing
    increments are the finite differences between corner points (corner 1
    minus corner 0 over the inline count less one; corner 2 minus corner 0
    over the crossline count less one); [gen_cdp_x] and [gen_cdp_y] are
    origin + il * increment_il + xl * increment_xl in double arithmetic; and
    at (0, 0), for finite increments and an origin that is a number, they
    equal the origin corner's easting and northing. *)
Theorem gen_cdp_linear_from_origin (fh : ZgyReader) (r : SeismicReader) :
  init fh = Ok r ->
  F64.is_finite (easting_inc_il r) = true ->
  F64.is_finite (easting_inc_xl r) = true ->
  F64.is_finite (northing_inc_il r) = true ->
  F64.is_finite (northing_inc_xl r) = true ->
  F64.is_nan (fst (corner (corners fh) 0)) = false ->
  F64.is_nan (snd (corner (corners fh) 0)) = false ->
  let o := corner (corners fh) 0 in
  let c1 := corner (corners fh) 1 in
  let c2 := corner (corners fh) 2 in
  (F64.div_int (F64.sub (fst c1) (fst o)) (n_ilines r - 1) = Ok (easting_inc_il r) /\
   F64.div_int (F64.sub (snd c1) (snd o)) (n_ilines r - 1) = Ok (northing_inc_il r) /\
   F64.div_int (F64.sub (fst c2) (fst o)) (n_xlines r - 1) = Ok (easting_inc_xl r) /\
   F64.div_int (F64.sub (snd c2) (snd o)) (n_xlines r - 1) = Ok (northing_inc_xl r)) /\
  (forall il xl a b, F64.of_int il = Ok a -> F64.of_int xl = Ok b ->
     gen_cdp_x r il xl =
       Ok (F64.add (F64.add (fst o) (F64.mul a (easting_inc_il r)))
                   (F64.mul b (easting_inc_xl r))) /\
     gen_cdp_y r il xl =
       Ok (F64.add (F64.add (snd o) (F64.mul a (northing_inc_il r)))
                   (F64.mul b (northing_inc_xl r)))) /\
  (exists x y,
     gen_cdp_x r 0 0 = Ok x /\ gen_cdp_y r 0 0 = Ok y /\
     F64.eqb x (fst o) = true /\ F64.eqb y (snd o) = true).
Proof.
  intros Hinit He1 He2 Hn1 Hn2 Hox Hoy o c1 c2.
  destruct (init_inv fh r Hinit)
    as (_ & _ & _ & _ & _ & _ & Hc & _ & _ & _ & D1 & D2 & D3 & D4).
  split; [repeat split; assumption|]. split.
  - intros il xl a b Ha Hb. unfold gen_cdp_x, gen_cdp_y, F64.int_mul.
    rewrite Ha, Hb, Hc. split; reflexivity.
  - destruct (gen_cdp_origin (fst o) _ _ He1 He2 Hox) as (x & Hx & Hxo).
    destruct (gen_cdp_origin (snd o) _ _ Hn1 Hn2 Hoy) as (y & Hy & Hyo).
    exists x, y. unfold gen_cdp_x, gen_cdp_y. rewrite Hc.
    repeat split; assumption.
Qed.

Lemma gen_cdp_linear_from_origin_witness :
  exists x y,
    gen_cdp_x Scenario.reader 0 0 = Ok x /\
    gen_cdp_y Scenario.reader 0 0 = Ok y /\
    F64.eqb x (F64.of_Z 1000) = true /\ F64.eqb y (F64.of_Z 2000) = true.
Proof.
  assert (Hi : init Scenario.handle = Ok Scenario.reader) by reflexivity.
  destruct (gen_cdp_linear_from_origin Scenario.handle Scenario.reader Hi)
    as (_ & _ & H00); [reflexivity .. | exact H00].
Defined.

(** The scenario of the specification: the CDP of (0, 0) is (1000.0, 2000.0)
    exactly, and that of the far corner (2, 3) is (1002.0, 2003.0). *)
Example scenario_cdp :
  gen_cdp_x Scenario.reader 0 0 = Ok (F64.of_Z 1000) /\
  gen_cdp_y Scenario.reader 0 0 = Ok (F64.of_Z 2000) /\
  gen_cdp_x Scenario.reader 2 3 = Ok (F64.of_Z 1002) /\
  gen_cdp_y Scenario.reader 2 3 = Ok (F64.of_Z 2003).
Proof. vm_compute. repeat split. Qed.

(** ** Trace headers *)

Lemma be_bytes_length (w : nat) (v : Z) : length (be_bytes w v) = w.
Proof. unfold be_bytes. by rewrite length_map, length_rev, length_seq. Qed.

Lemma byte_of_Z_value (n : Z) : Z.of_N (Byte.to_N (byte_of_Z n)) = n mod 256.
Proof.
  unfold byte_of_Z.
  assert (Hb : 0 <= n mod 256 < 256) by (apply Z.mod_pos_bound; lia).
  destruct (Byte.of_N (Z.to_N (n mod 256))) as [b|] eqn:Hof.
  - apply Byte.to_of_N in Hof. simpl. rewrite Hof. lia.
  - apply Byte.of_N_None_iff in Hof. lia.
Qed.

Lemma be_bytes_2 (v : Z) :
  be_bytes 2 v = [byte_of_Z (Z.shiftr v 8); byte_of_Z (Z.shiftr v 0)].
Proof. reflexivity. Qed.

Lemma be_bytes_4 (v : Z) :
  be_bytes 4 v = [byte_of_Z (Z.shiftr v 24); byte_of_Z (Z.shiftr v 16);
                  byte_of_Z (Z.shiftr v 8); byte_of_Z (Z.shiftr v 0)].
Proof. reflexivity. Qed.

(** The bytes of a two-byte and of a four-byte field decode to the value
    they were packed from, modulo the field's width. *)
Lemma be_value_2 (v : Z) : be_value (be_bytes 2 v) = v mod 2 ^ 16.
Proof.
  rewrite be_bytes_2. unfold be_value. cbn [fold_left].
  rewrite !byte_of_Z_value, Z.shiftr_0_r, Z.shiftr_div_pow2 by lia.
  change (2 ^ 8) with 256. change (2 ^ 16) with (256 * 256).
  rewrite (Z.rem_mul_r v 256 256) by lia. lia.
Qed.

Lemma be_value_4 (v : Z) : be_value (be_bytes 4 v) = v mod 2 ^ 32.
Proof.
  rewrite be_bytes_4. unfold be_value. cbn [fold_left].
  rewrite !byte_of_Z_value, Z.shiftr_0_r, !Z.shiftr_div_pow2 by lia.
  change (2 ^ 8) with 256. change (2 ^ 16) with (256 * 256).
  change (2 ^ 24) with (256 * 256 * 256).
  change (2 ^ 32) with (256 * (256 * (256 * 256))).
  rewrite (Z.rem_mul_r v 256 (256 * (256 * 256))) by lia.
  rewrite (Z.rem_mul_r (v / 256) 256 (256 * 256)) by lia.
  rewrite (Z.rem_mul_r (v / 256 / 256) 256 256) by lia.
  rewrite <- !Z.div_div by lia. lia.
Qed.

(** The buffer [gen_trace_header] builds from its seven packed fields. *)
Lemma header_layout (scalar bx by' bi bc bn bz : list byte) :
  length scalar = 2%nat -> length bx = 4%nat -> length by' = 4%nat ->
  length bi = 4%nat -> length bc = 4%nat -> length bn = 2%nat ->
  length bz = 2%nat ->
  slice_assign 116 118 bz
    (slice_assign 114 116 bn
      (slice_assign 192 196 bc
        (slice_assign 188 192 bi
          (slice_assign 184 188 by'
            (slice_assign 180 184 bx
              (slice_assign 70 72 scalar (bytearray 240)))))))
  = replicate 70 x00 ++ scalar ++ replicate 42 x00 ++ bn ++ bz ++
    replicate 62 x00 ++ bx ++ by' ++ bi ++ bc ++ replicate 44 x00.
Proof.
  intros.
  destruct scalar as [|s1 [|s2 [|]]]; try discriminate.
  destruct bx as [|x1 [|x2 [|x3 [|x4 [|]]]]]; try discriminate.
  destruct by' as [|y1 [|y2 [|y3 [|y4 [|]]]]]; try discriminate.
  destruct bi as [|i1 [|i2 [|i3 [|i4 [|]]]]]; try discriminate.
  destruct bc as [|c1 [|c2 [|c3 [|c4 [|]]]]]; try discriminate.
  destruct bn as [|n1 [|n2 [|]]]; try discriminate.
  destruct bz as [|z1 [|z2 [|]]]; try discriminate.
  reflexivity.
Qed.

Lemma header_layout_facts (scalar bx by' bi bc bn bz : list byte) :
  length scalar = 2%nat -> length bx = 4%nat -> length by' = 4%nat ->
  length bi = 4%nat -> length bc = 4%nat -> length bn = 2%nat ->
  length bz = 2%nat ->
  let h := replicate 70 x00 ++ scalar ++ replicate 42 x00 ++ bn ++ bz ++
           replicate 62 x00 ++ bx ++ by' ++ bi ++ bc ++ replicate 44 x00 in
  length h = 240%nat /\
  slice 70 72 h = scalar /\ slice 114 116 h = bn /\ slice 116 118 h = bz /\
  slice 180 184 h = bx /\ slice 184 188 h = by' /\
  slice 188 192 h = bi /\ slice 192 196 h = bc /\
  (forall i, (i < 240)%nat -> in_header_fields i = false -> h !! i = Some x00).
Proof.
  intros.
  destruct scalar as [|s1 [|s2 [|]]]; try discriminate.
  destruct bx as [|x1 [|x2 [|x3 [|x4 [|]]]]]; try discriminate.
  destruct by' as [|y1 [|y2 [|y3 [|y4 [|]]]]]; try discriminate.
  destruct bi as [|i1 [|i2 [|i3 [|i4 [|]]]]]; try discriminate.
  destruct bc as [|c1 [|c2 [|c3 [|c4 [|]]]]]; try discriminate.
  destruct bn as [|n1 [|n2 [|]]]; try discriminate.
  destruct bz as [|z1 [|z2 [|]]]; try discriminate.
  subst h. repeat split.
  intros i Hi Hf.
  do 240 (destruct i as [|i]; [first [reflexivity | discriminate Hf]|]).
  lia.
Qed.

Lemma result_bind_ok {A B} (a : A) (k : A -> result B) : (Ok a ≫= k) = k a.
Proof. reflexivity. Qed.

Lemma pack_i_ok (v : Z) : - 2 ^ 31 <= v < 2 ^ 31 -> pack_i v = Ok (be_bytes 4 v).
Proof.
  intros Hv. unfold pack_i.
  replace ((- 2 ^ 31 <=? v) && (v <? 2 ^ 31)) with true; [reflexivity|].
  symmetry. apply andb_true_iff. split; [apply Z.leb_le | apply Z.ltb_lt]; lia.
Qed.

Lemma pack_H_ok (v : Z) : 0 <= v < 2 ^ 16 -> pack_H v = Ok (be_bytes 2 v).
Proof.
  intros Hv. unfold pack_H.
  replace ((0 <=? v) && (v <? 2 ^ 16)) with true; [reflexivity|].
  symmetry. apply andb_true_iff. split; [apply Z.leb_le | apply Z.ltb_lt]; lia.
Qed.

Lemma pack_H_overflow (v : Z) : 2 ^ 16 <= v -> pack_H v = Exc (StructError ">H" v).
Proof.
  intros Hv. unfold pack_H.
  replace (v <? 2 ^ 16) with false; [by rewrite andb_false_r|].
  symmetry. apply Z.ltb_ge. lia.
Qed.

Lemma trace_index_in_range (r : SeismicReader) (index : Z) :
  0 <= index < n_ilines r * n_xlines r ->
  negb ((0 <=? index) && (index <? n_ilines r * n_xlines r)) = false.
Proof.
  intros [H0 H1]. apply negb_false_iff, andb_true_iff.
  split; [by apply Z.leb_le | by apply Z.ltb_lt].
Qed.

Lemma trace_index_out_of_range (r : SeismicReader) (index : Z) :
  ~ 0 <= index < n_ilines r * n_xlines r ->
  negb ((0 <=? index) && (index <? n_ilines r * n_xlines r)) = true.
Proof.
  intros Hn. apply negb_true_iff, andb_false_iff.
  destruct (Z.leb_spec 0 index); [right | by left].
  apply Z.ltb_ge. lia.
Qed.

(** C5, as the code has it. For a valid trace ordinal whose header values
    fit their fields (scaled CDP X and Y and the two annotation numbers in a
    signed 32-bit field, sample count and sample interval in an unsigned
    16-bit field), [gen_trace_header] produces a record of exactly 240 bytes:
    the scale factor -100 at 70:72, the sample count at 114:116, the sample
    interval [int(zinc * 1000)] at 116:118, the CDP X and Y (the geometric
    coordinate times 100, rounded) at 180:184 and 184:188, the inline and
    crossline numbers at 188:192 and 192:196, all big-endian; every byte
    outside these ranges is zero. *)
Theorem gen_trace_header_layout (r : SeismicReader) (index : Z)
    (cdp_x cdp_y inline_3d crossline_3d interval : Z) :
  0 <= index < n_ilines r * n_xlines r ->
  trace_header_values r index = Ok (cdp_x, cdp_y, inline_3d, crossline_3d) ->
  (zf ← F64.mul_int (r_zinc r) 1000; F64.to_int zf) = Ok interval ->
  - 2 ^ 31 <= cdp_x < 2 ^ 31 ->
  - 2 ^ 31 <= cdp_y < 2 ^ 31 ->
  - 2 ^ 31 <= inline_3d < 2 ^ 31 ->
  - 2 ^ 31 <= crossline_3d < 2 ^ 31 ->
  0 <= n_samples r < 2 ^ 16 ->
  0 <= interval < 2 ^ 16 ->
  exists h,
    gen_trace_header r index = Ok {| buf := h; kind := "trace" |} /\
    length h = 240%nat /\
    slice 70 72 h = be_bytes 2 (-100) /\
    slice 114 116 h = be_bytes 2 (n_samples r) /\
    slice 116 118 h = be_bytes 2 interval /\
    slice 180 184 h = be_bytes 4 cdp_x /\
    slice 184 188 h = be_bytes 4 cdp_y /\
    slice 188 192 h = be_bytes 4 inline_3d /\
    slice 192 196 h = be_bytes 4 crossline_3d /\
    be_value (slice 114 116 h) = n_samples r /\
    be_value (slice 116 118 h) = interval /\
    be_value (slice 180 184 h) = cdp_x mod 2 ^ 32 /\
    be_value (slice 188 192 h) = inline_3d mod 2 ^ 32 /\
    (forall i, (i < 240)%nat -> in_header_fields i = false -> h !! i = Some x00).
Proof.
  intros Hidx Hvals Hint Hx Hy Hi Hc Hn Hz.
  bind_ok Hint zf Hzf.
  unfold gen_trace_header.
  rewrite (trace_index_in_range r index Hidx), Hvals, result_bind_ok.
  cbv beta iota.
  change (pack_h (-100)) with (Ok (be_bytes 2 (-100))).
  rewrite (pack_i_ok _ Hx), (pack_i_ok _ Hy), (pack_i_ok _ Hi), (pack_i_ok _ Hc),
    (pack_H_ok _ Hn), Hzf, !result_bind_ok, Hint, !result_bind_ok,
    (pack_H_ok _ Hz), !result_bind_ok.
  rewrite header_layout by apply be_bytes_length.
  eexists. split; [reflexivity|].
  destruct (header_layout_facts (be_bytes 2 (-100)) (be_bytes 4 cdp_x)
              (be_bytes 4 cdp_y) (be_bytes 4 inline_3d) (be_bytes 4 crossline_3d)
              (be_bytes 2 (n_samples r)) (be_bytes 2 interval))
    as (Hlen & F1 & F2 & F3 & F4 & F5 & F6 & F7 & Hzero);
    try apply be_bytes_length.
  repeat (split; [assumption|]).
  rewrite F2, F3, F4, F6, !be_value_2, !be_value_4.
  repeat split; [apply Z.mod_small; lia .. | exact Hzero].
Qed.

Lemma gen_trace_header_layout_witness :
  exists h,
    gen_trace_header Scenario.reader 5 = Ok {| buf := h; kind := "trace" |} /\
    length h = 240%nat /\
    slice 114 116 h = be_bytes 2 2 /\
    slice 116 118 h = be_bytes 2 4000 /\
    slice 180 184 h = be_bytes 4 100100 /\
    slice 184 188 h = be_bytes 4 200100 /\
    slice 188 192 h = be_bytes 4 102 /\
    slice 192 196 h = be_bytes 4 11.
Proof.
  destruct (gen_trace_header_layout Scenario.reader 5 100100 200100 102 11 4000)
    as (h & Hh & Hlen & _ & F2 & F3 & F4 & F5 & F6 & F7 & _);
    [ vm_compute; split; [discriminate | reflexivity]
    | vm_compute; reflexivity
    | vm_compute; reflexivity
    | lia | lia | lia | lia
    | vm_compute; split; [discriminate | reflexivity]
    | lia | ].
  exists h. repeat split; assumption.
Defined.

(** C5 as stated fails for a volume sampled every 100 units: trace 0 is a
    valid ordinal, and no record is produced, the sample interval 100000
    not fitting the unsigned 16-bit field. *)
Lemma gen_trace_header_interval_cex :
  init Scenario.coarse_handle = Ok Scenario.coarse_reader /\
  0 <= 0 < n_ilines Scenario.coarse_reader * n_xlines Scenario.coarse_reader /\
  gen_trace_header Scenario.coarse_reader 0 = Exc (StructError ">H" 100000).
Proof.
  split; [reflexivity|]. split; [vm_compute; split; [discriminate | reflexivity]|].
  vm_compute. reflexivity.
Qed.

(** ** Tabulated arrays *)

Lemma length_tab {A} (n : Z) (f : Z -> A) : length (tab n f) = Z.to_nat n.
Proof. unfold tab. by rewrite length_map, length_seq. Qed.

Lemma tab_lookup_nat {A} (n : Z) (f : Z -> A) (i : nat) :
  (i < Z.to_nat n)%nat -> tab n f !! i = Some (f (Z.of_nat i)).
Proof.
  intros Hi. unfold tab.
  change (map ?g ?l) with (g <$> l).
  rewrite list_lookup_fmap, lookup_seq_lt by done. done.
Qed.

Lemma tab_lookup {A} (n : Z) (f : Z -> A) (i : Z) :
  0 <= i < n -> tab n f !! Z.to_nat i = Some (f i).
Proof.
  intros Hi. rewrite tab_lookup_nat by lia. by rewrite Z2Nat.id by lia.
Qed.

Lemma tab_ext {A} (n : Z) (f g : Z -> A) :
  (forall i, 0 <= i < n -> f i = g i) -> tab n f = tab n g.
Proof.
  intros Hfg. unfold tab. apply map_ext_in. intros i [_ Hi]%in_seq.
  apply Hfg. lia.
Qed.

Lemma imap_tab {A B} (n : Z) (f : Z -> A) (g : nat -> A -> B) :
  imap g (tab n f) = tab n (fun i => g (Z.to_nat i) (f i)).
Proof.
  apply list_eq. intros i. rewrite list_lookup_imap.
  destruct (decide (i < Z.to_nat n)%nat) as [Hi|Hi].
  - rewrite !tab_lookup_nat by done. simpl. by rewrite Nat2Z.id.
  - rewrite !lookup_ge_None_2; [done | |]; rewrite length_tab; lia.
Qed.

Lemma np_getitem_axis_tab {A} (axis n : Z) (f : Z -> A) (i : Z) :
  0 <= i < n -> np_getitem_axis axis (tab n f) i = Ok (f i).
Proof.
  intros Hi. unfold np_getitem_axis. rewrite length_tab.
  replace (i <? 0) with false by (symmetry; apply Z.ltb_ge; lia).
  replace ((0 <=? i) && (i <? Z.of_nat (Z.to_nat n))) with true.
  - by rewrite tab_lookup.
  - symmetry. apply andb_true_iff. split; [apply Z.leb_le | apply Z.ltb_lt]; lia.
Qed.

Lemma traverse_tab {A B} (g : A -> result B) (n : Z) (f : Z -> A) (h : Z -> B) :
  (forall i, 0 <= i < n -> g (f i) = Ok (h i)) ->
  traverse g (tab n f) = Ok (tab n h).
Proof.
  intros Hg. unfold tab.
  assert (Hseq : forall k, k ∈ seq 0 (Z.to_nat n) -> g (f (Z.of_nat k)) = Ok (h (Z.of_nat k))).
  { intros k [_ Hk]%elem_of_seq. apply Hg. lia. }
  induction (seq 0 (Z.to_nat n)) as [|k ks IH]; [done|].
  cbn [map traverse]. rewrite Hseq by left.
  rewrite result_bind_ok, IH; [done|]. intros k' Hk'. apply Hseq. by right.
Qed.

(** The store's read fills a fresh zero buffer of a given shape with the
    samples at and after the start position. *)
Lemma fill3_zeros (fh : ZgyReader) (i0 j0 k0 d0 d1 d2 : Z) :
  fill3 fh (i0, j0, k0) (tab3 (d0, d1, d2) (fun _ _ _ => F64.zero)) =
  tab3 (d0, d1, d2) (fun a b c => store_sample fh (i0 + a) (j0 + b) (k0 + c)).
Proof.
  unfold fill3, tab3. rewrite imap_tab. apply tab_ext. intros a Ha.
  rewrite imap_tab. apply tab_ext. intros b Hb.
  rewrite imap_tab. apply tab_ext. intros c Hc.
  by rewrite !Z2Nat.id by lia.
Qed.

(** ** The heap *)

Lemma alloc_spec (v : ndarray) (st : state) :
  alloc v st = (Ok (length (heap st)), set_heap (heap st ++ [v]) st).
Proof. reflexivity. Qed.

Lemma heap_lookup_fresh (h : list ndarray) (v : ndarray) :
  (h ++ [v]) !! length h = Some v.
Proof. by rewrite lookup_app_r, Nat.sub_diag. Qed.

Lemma heap_insert_fresh (h : list ndarray) (v w : ndarray) :
  <[length h := w]> (h ++ [v]) = h ++ [w].
Proof. by rewrite insert_app_r_alt, Nat.sub_diag. Qed.

(** ** The brick grid *)

Lemma grid_extent_covers (n : Z) : n <= grid_extent n.
Proof.
  unfold grid_extent. pose proof (Z.div_mod (n + 63) 64).
  pose proof (Z.mod_pos_bound (n + 63) 64). lia.
Qed.

Lemma grid_extent_chunk (n i : Z) :
  0 <= i < grid_extent n ->
  0 <= 64 * (i / 64) /\ 64 * (i / 64) + 64 <= grid_extent n.
Proof.
  unfold grid_extent. intros Hi.
  pose proof (Z.div_mod i 64). pose proof (Z.mod_pos_bound i 64).
  assert (i / 64 < (n + 63) / 64) by (apply Z.div_lt_upper_bound; lia).
  assert (0 <= i / 64) by (apply Z.div_pos; lia). lia.
Qed.

Lemma grid_extent_outside (n i : Z) :
  i < 0 \/ grid_extent n <= i ->
  64 * (i / 64) < 0 \/ grid_extent n < 64 * (i / 64) + 64.
Proof.
  unfold grid_extent. intros Hi.
  pose proof (Z.div_mod i 64). pose proof (Z.mod_pos_bound i 64).
  destruct Hi as [Hi|Hi]; [left | right].
  - assert (i / 64 < 0) by (apply Z.div_lt_upper_bound; lia). lia.
  - assert ((n + 63) / 64 <= i / 64) by (apply Z.div_le_lower_bound; lia). lia.
Qed.

Lemma in_grid_spec (fh : ZgyReader) (i0 j0 k0 d0 d1 d2 : Z) :
  in_grid fh (i0, j0, k0) (d0, d1, d2) = true <->
  (0 <= i0 /\ i0 + d0 <= grid_extent (size_at fh 0)) /\
  (0 <= j0 /\ j0 + d1 <= grid_extent (size_at fh 1)) /\
  (0 <= k0 /\ k0 + d2 <= grid_extent (size_at fh 2)).
Proof.
  unfold in_grid, size_at. destruct (size fh) as [[ni nj] nk].
  rewrite !andb_true_iff, !Z.leb_le. tauto.
Qed.

Lemma head_tab {A} (n : Z) (f : Z -> A) :
  head (tab n f) = match Z.to_nat n with O => None | S _ => Some (f 0) end.
Proof. unfold tab. by destruct (Z.to_nat n). Qed.

(** The shape a tabulated buffer shows: its first extent, and of the others
    no more than it was made with. *)
Lemma nd_shape3_tab3 {A} (d0 d1 d2 : Z) (f : Z -> Z -> Z -> A) :
  0 <= d0 -> 0 <= d1 -> 0 <= d2 ->
  exists c1 c2,
    nd_shape3 (tab3 (d0, d1, d2) f) = (d0, c1, c2) /\
    0 <= c1 <= d1 /\ 0 <= c2 <= d2 /\
    (0 < d0 -> c1 = d1) /\ (0 < d0 -> 0 < d1 -> c2 = d2).
Proof.
  intros H0 H1 H2. unfold nd_shape3, tab3.
  rewrite length_tab, Z2Nat.id, head_tab by lia.
  destruct (Z.to_nat d0) as [|n0] eqn:E0.
  - exists 0, 0. split; [reflexivity|]. lia.
  - cbn. rewrite length_tab, Z2Nat.id, head_tab by lia.
    destruct (Z.to_nat d1) as [|n1] eqn:E1.
    + exists d1, 0. split; [reflexivity|]. lia.
    + cbn. rewrite length_tab, Z2Nat.id by lia.
      exists d1, d2. split; [reflexivity|]. lia.
Qed.

Lemma in_grid_shown (fh : ZgyReader) (start : Z * Z * Z) (d0 d1 d2 : Z)
    (f : Z -> Z -> Z -> spec_float) :
  0 <= d0 -> 0 <= d1 -> 0 <= d2 ->
  in_grid fh start (d0, d1, d2) = true ->
  in_grid fh start (nd_shape3 (tab3 (d0, d1, d2) f)) = true.
Proof.
  intros H0 H1 H2. destruct start as [[i0 j0] k0].
  destruct (nd_shape3_tab3 d0 d1 d2 f H0 H1 H2) as (c1 & c2 & -> & Hc1 & Hc2 & _).
  rewrite !in_grid_spec. lia.
Qed.

(** ** Ranged reads *)

(** What [np.zeros] followed by the store's read does: inside the brick
    grid the new buffer holds the store's samples; otherwise the store
    refuses, and the new buffer stays zero. *)
Lemma zeros_read_cases (fh : ZgyReader) (start : Z * Z * Z) (d0 d1 d2 : Z)
    (st : state) :
  0 <= d0 -> 0 <= d1 -> 0 <= d2 ->
  let zeros := tab3 (d0, d1, d2) (fun _ _ _ => F64.zero) in
  (b ← np_zeros3 (d0, d1, d2); _ ← zgy_read fh start b; mret b) st =
    if in_grid fh start (nd_shape3 zeros)
    then (Ok (length (heap st)),
          set_heap
            (heap st ++
             [Nd3 (tab3 (d0, d1, d2)
                        (fun a b c =>
                           store_sample fh (start.1.1 + a) (start.1.2 + b)
                                        (start.2 + c)))]) st)
    else (Exc (StoreError "Requested brick position is outside the valid range"),
          set_heap (heap st ++ [Nd3 zeros]) st).
Proof.
  intros H0 H1 H2 zeros. destruct start as [[i0 j0] k0].
  unfold np_zeros3, mbind, M_bind.
  replace ((d0 <? 0) || (d1 <? 0) || (d2 <? 0))
    with false by (symmetry; rewrite !orb_false_iff, !Z.ltb_ge; lia).
  rewrite alloc_spec. unfold zgy_read. cbn [heap set_heap].
  rewrite heap_lookup_fresh. fold zeros.
  destruct (in_grid fh (i0, j0, k0) (nd_shape3 zeros)); [|reflexivity].
  subst zeros. rewrite heap_insert_fresh, fill3_zeros. reflexivity.
Qed.

Lemma zeros_read_spec (fh : ZgyReader) (i0 j0 k0 d0 d1 d2 : Z) (st : state) :
  0 <= d0 -> 0 <= d1 -> 0 <= d2 ->
  in_grid fh (i0, j0, k0) (d0, d1, d2) = true ->
  (b ← np_zeros3 (d0, d1, d2); _ ← zgy_read fh (i0, j0, k0) b; mret b) st =
    (Ok (length (heap st)),
     set_heap
       (heap st ++
        [Nd3 (tab3 (d0, d1, d2)
                   (fun a b c => store_sample fh (i0 + a) (j0 + b) (k0 + c)))])
       st).
Proof.
  intros H0 H1 H2 Hg. rewrite zeros_read_cases by assumption.
  by rewrite in_grid_shown.
Qed.

Lemma slab_shape_bounds (fh : ZgyReader) (k : slab_key) :
  size_ok fh ->
  0 <= (slab_shape fh k).1.1 /\ 0 <= (slab_shape fh k).1.2 /\
  0 <= (slab_shape fh k).2.
Proof.
  unfold size_ok, slab_shape. destruct (size fh) as [[ni nj] nk].
  intros (Hi & Hj & Hk). destruct k; cbn; lia.
Qed.

(** A load allocates one buffer; inside the brick grid it leaves it filled
    with the slab, outside it the store refuses. *)
Lemma load_slab_cases (fh : ZgyReader) (k : slab_key) (st : state) :
  size_ok fh ->
  load_slab fh k st =
    if in_grid fh (slab_start k)
               (nd_shape3 (tab3 (slab_shape fh k) (fun _ _ _ => F64.zero)))
    then (Ok (length (heap st)),
          set_heap (heap st ++ [Nd3 (slab_content fh k)]) st)
    else (Exc (StoreError "Requested brick position is outside the valid range"),
          set_heap
            (heap st ++ [Nd3 (tab3 (slab_shape fh k) (fun _ _ _ => F64.zero))])
            st).
Proof.
  intros Hsz. destruct (slab_shape_bounds fh k Hsz) as (H0 & H1 & H2).
  unfold load_slab, slab_content.
  destruct (slab_shape fh k) as [[d0 d1] d2].
  rewrite zeros_read_cases by assumption.
  by destruct (slab_start k) as [[i0 j0] k0].
Qed.

(** ** The cache *)

Lemma cache_lookup_elem (k : slab_key) (c : list (slab_key * loc)) (l : loc) :
  cache_lookup k c = Some l -> (k, l) ∈ c.
Proof.
  induction c as [|[k' l'] c IH]; simpl; [done|].
  destruct (decide (k' = k)) as [->|Hne].
  - intros [= ->]. left.
  - intros Hl. right. by apply IH.
Qed.

Lemma cache_ok_bound (fh : ZgyReader) (st : state) (k : slab_key) (l : loc) :
  cache_ok fh st -> (k, l) ∈ cache st -> (l < length (heap st))%nat.
Proof. intros Hok Hin. eapply lookup_lt_Some. by apply Hok. Qed.

Lemma extends_lookup (st st' : state) (l : loc) (v : ndarray) :
  extends st st' -> heap st !! l = Some v -> heap st' !! l = Some v.
Proof. intros [[ext ->] _] Hl. by apply lookup_app_l_Some. Qed.

Lemma extends_length (st st' : state) :
  extends st st' -> (length (heap st) <= length (heap st'))%nat.
Proof. intros [[ext ->] _]. rewrite length_app. lia. Qed.

(** A cached read returns a buffer holding the slab, and keeps the cache
    consistent; nothing already in the heap changes. On a miss outside the
    brick grid the store's refusal comes back, and the cache is as it was. *)
Lemma get_or_load_cases (fh : ZgyReader) (k : slab_key) (st : state) :
  size_ok fh -> cache_ok fh st ->
  (exists l st',
     get_or_load fh k st = (Ok l, st') /\
     heap st' !! l = Some (Nd3 (slab_content fh k)) /\
     cache_ok fh st' /\ extends st st' /\
     ((0 < cache_capacity st)%nat -> (k, l) ∈ cache st')) \/
  (slab_in_grid fh k = false /\
   exists msg st',
     get_or_load fh k st = (Exc (StoreError msg), st') /\
     cache st' = cache st /\ cache_ok fh st' /\ extends st st').
Proof.
  intros Hsz Hok. unfold get_or_load.
  destruct (cache_lookup k (cache st)) as [l|] eqn:Hl.
  - left. apply cache_lookup_elem in Hl.
    exists l, (set_cache ((k, l) :: cache_remove k (cache st)) st).
    split; [done|]. split; [by apply Hok|]. split; [|split].
    + intros k' l' Hin. cbn [cache set_cache heap] in *.
      apply elem_of_cons in Hin as [[= -> ->]|Hin]; [by apply Hok|].
      apply list_elem_of_filter in Hin as [_ Hin]. by apply Hok.
    + split; [exists []; by rewrite app_nil_r | done].
    + intros _. left.
  - rewrite load_slab_cases by done.
    destruct (in_grid fh (slab_start k) _) eqn:Hserved.
    + left. set (l := length (heap st)).
      set (st1 := set_heap (heap st ++ [Nd3 (slab_content fh k)]) st).
      exists l, (set_cache (take (cache_capacity st1) ((k, l) :: cache st1)) st1).
      split; [done|]. split; [apply heap_lookup_fresh|]. split; [|split].
      * intros k' l' Hin. cbn [cache set_cache heap set_heap] in *.
        apply elem_of_take in Hin as (i & Hi & _).
        apply list_elem_of_lookup_2, elem_of_cons in Hi as [[= -> ->]|Hin].
        -- apply heap_lookup_fresh.
        -- apply lookup_app_l_Some. by apply Hok.
      * split; [by eexists | done].
      * intros Hcap. cbn [cache set_cache heap set_heap cache_capacity st1].
        destruct (cache_capacity st) as [|n]; [lia|]. left.
    + right. split.
      { destruct (slab_in_grid fh k) eqn:Hg; [|done].
        destruct (slab_shape_bounds fh k Hsz) as (H0 & H1 & H2).
        unfold slab_in_grid in Hg. destruct (slab_shape fh k) as [[d0 d1] d2].
        rewrite in_grid_shown in Hserved by assumption. discriminate Hserved. }
      eexists _, _. split; [reflexivity|]. cbn [cache set_heap heap].
      split; [done|]. split.
      * intros k' l' Hin. apply lookup_app_l_Some. by apply Hok.
      * split; [by eexists | done].
Qed.

Lemma get_or_load_spec (fh : ZgyReader) (k : slab_key) (st : state) :
  size_ok fh -> slab_in_grid fh k = true -> cache_ok fh st ->
  exists l st',
    get_or_load fh k st = (Ok l, st') /\
    heap st' !! l = Some (Nd3 (slab_content fh k)) /\
    cache_ok fh st' /\ extends st st' /\
    ((0 < cache_capacity st)%nat -> (k, l) ∈ cache st').
Proof.
  intros Hsz Hg Hok.
  destruct (get_or_load_cases fh k st Hsz Hok) as [Hserved|[Hout _]]; [done|].
  congruence.
Qed.

(** ** Views and copies *)

Lemma view_copy_spec (lc : loc) (c : list (list (list spec_float)))
    (s : selector) (d : ndarray) (st : state) :
  heap st !! lc = Some (Nd3 c) -> select3 c s = Ok d ->
  (v ← np_index lc s; np_copy v) st =
    (Ok (length (heap st)), set_heap (heap st ++ [d]) st).
Proof.
  intros Hc Hs. unfold mbind, M_bind, np_index, np_copy, read_view.
  cbn [base sel]. rewrite Hc, Hs. cbn [base sel]. rewrite Hc, Hs. apply alloc_spec.
Qed.

Lemma caller_store_cache_ok (fh : ZgyReader) (st : state) (l : loc) (v : ndarray) :
  cache_ok fh st -> (forall k l', (k, l') ∈ cache st -> l' ≠ l) ->
  cache_ok fh (caller_store l v st).
Proof.
  intros Hok Hne k l' Hin. cbn [caller_store set_heap heap cache] in *.
  rewrite list_lookup_insert_ne; [by apply Hok|]. intros ->. by eapply Hne.
Qed.

(** ** What the selectors pick from a slab *)

Lemma chunk_position (i : Z) : 64 * (i / 64) + i mod 64 = i /\ 0 <= i mod 64 < 64.
Proof.
  pose proof (Z.div_mod i 64). pose proof (Z.mod_pos_bound i 64). lia.
Qed.

Lemma select_inline (fh : ZgyReader) (i : Z) :
  select3 (slab_content fh (InlineSlab (64 * (i / 64)))) (SelInline (i mod 64))
  = Ok (Nd2 (inline_plane fh i)).
Proof.
  destruct (chunk_position i) as [Hpos Hm].
  unfold slab_content, slab_shape, slab_start, inline_plane, size_at, tab3, select3.
  destruct (size fh) as [[ni nj] nk].
  rewrite np_getitem_axis_tab, result_bind_ok by done.
  do 2 f_equal. apply tab_ext; intros j _. apply tab_ext; intros k _.
  by rewrite Hpos, !Z.add_0_l.
Qed.

Lemma select_crossline (fh : ZgyReader) (j : Z) :
  select3 (slab_content fh (CrosslineSlab (64 * (j / 64)))) (SelCrossline (j mod 64))
  = Ok (Nd2 (crossline_plane fh j)).
Proof.
  destruct (chunk_position j) as [Hpos Hm].
  unfold slab_content, slab_shape, slab_start, crossline_plane, size_at, tab3, select3.
  destruct (size fh) as [[ni nj] nk].
  erewrite traverse_tab; [rewrite result_bind_ok; reflexivity|].
  intros i _. cbv beta. rewrite np_getitem_axis_tab by done. f_equal.
  apply tab_ext; intros k _. by rewrite Hpos, !Z.add_0_l.
Qed.

Lemma select_zslice (fh : ZgyReader) (k : Z) :
  select3 (slab_content fh (ZsliceSlab (64 * (k / 64)))) (SelZslice (k mod 64))
  = Ok (Nd2 (zslice_plane fh k)).
Proof.
  destruct (chunk_position k) as [Hpos Hm].
  unfold slab_content, slab_shape, slab_start, zslice_plane, size_at, tab3, select3.
  destruct (size fh) as [[ni nj] nk].
  erewrite traverse_tab; [rewrite result_bind_ok; reflexivity|].
  intros i _. cbv beta. apply traverse_tab.
  intros j _. cbv beta. rewrite np_getitem_axis_tab by done.
  by rewrite Hpos, !Z.add_0_l.
Qed.

Lemma select_trace (fh : ZgyReader) (i j : Z) :
  select3 (slab_content fh (TraceSlab (64 * (i / 64)) (64 * (j / 64))))
          (SelTrace (i mod 64) (j mod 64))
  = Ok (Nd1 (trace_at fh i j)).
Proof.
  destruct (chunk_position i) as [Hpi Hmi]. destruct (chunk_position j) as [Hpj Hmj].
  unfold slab_content, slab_shape, slab_start, trace_at, size_at, tab3, select3.
  destruct (size fh) as [[ni nj] nk].
  rewrite np_getitem_axis_tab, result_bind_ok by done.
  rewrite np_getitem_axis_tab, result_bind_ok by done.
  do 2 f_equal. apply tab_ext; intros k _. by rewrite Hpi, Hpj, Z.add_0_l.
Qed.

(** ** Cached reads *)

(** The shape shared by [read_inline], [read_crossline], [read_zslice] and
    the body of [get_trace]: load the aligned chunk through the cache, index
    it, copy the view. *)
Lemma cached_read_spec (fh : ZgyReader) (key : slab_key) (s : selector)
    (d : ndarray) (st : state) :
  size_ok fh -> slab_in_grid fh key = true -> cache_ok fh st ->
  select3 (slab_content fh key) s = Ok d ->
  exists l st' chunk,
    (c ← get_or_load fh key; v ← np_index c s; np_copy v) st = (Ok l, st') /\
    heap st' !! chunk = Some (Nd3 (slab_content fh key)) /\
    ((0 < cache_capacity st)%nat -> (key, chunk) ∈ cache st') /\
    heap st' !! l = Some d /\
    l <> chunk /\
    (forall k l', (k, l') ∈ cache st' -> l' <> l) /\
    (length (heap st) <= l)%nat /\
    cache_ok fh st' /\ extends st st'.
Proof.
  intros Hsz Hg Hok Hsel.
  destruct (get_or_load_spec fh key st Hsz Hg Hok)
    as (chunk & st1 & Hload & Hchunk & Hok1 & Hext & Hcached).
  exists (length (heap st1)), (set_heap (heap st1 ++ [d]) st1), chunk.
  split.
  { unfold mbind at 1. unfold M_bind at 1. rewrite Hload.
    by apply view_copy_spec with (c := slab_content fh key). }
  cbn [heap set_heap cache cache_capacity].
  pose proof (lookup_lt_Some _ _ _ Hchunk) as Hlt.
  split; [by apply lookup_app_l_Some|]. split; [done|].
  split; [apply heap_lookup_fresh|]. split; [lia|].
  split. { intros k l' Hin. pose proof (cache_ok_bound fh st1 k l' Hok1 Hin). lia. }
  split; [by apply extends_length|].
  split. { intros k l' Hin. apply lookup_app_l_Some. by apply Hok1. }
  destruct Hext as [[ext Hheap] Hcap]. split; [|done].
  exists (ext ++ [d]). by rewrite Hheap, app_assoc.
Qed.

Lemma cached_read_independent (fh : ZgyReader) (key : slab_key) (s : selector)
    (d : ndarray) (st : state) :
  size_ok fh -> slab_in_grid fh key = true -> cache_ok fh st ->
  select3 (slab_content fh key) s = Ok d ->
  independent_copy fh (c ← get_or_load fh key; v ← np_index c s; np_copy v)
                   st key d.
Proof.
  intros Hsz Hg Hok Hsel.
  destruct (cached_read_spec fh key s d st Hsz Hg Hok Hsel)
    as (l & st' & chunk & Hrun & Hchunk & Hcached & Hl & Hne & Hfresh & Hlen & Hok' & _).
  exists l, st', chunk. repeat (split; [assumption|]).
  intros v st2.
  assert (Hok2 : cache_ok fh st2) by by apply caller_store_cache_ok.
  split; [|split; [|split; [done|]]].
  - subst st2. cbn [caller_store set_heap heap].
    by rewrite list_lookup_insert_ne.
  - intros k l' Hin. subst st2. cbn [caller_store set_heap heap cache] in *.
    rewrite list_lookup_insert_ne; [done|]. intros ->. by eapply Hfresh.
  - destruct (cached_read_spec fh key s d st2 Hsz Hg Hok2 Hsel)
      as (l2 & st3 & _ & Hrun2 & _ & _ & Hl2 & _).
    by exists l2, st3.
Qed.

Lemma store_sample_inside (fh : ZgyReader) (i j k : Z) :
  0 <= i < size_at fh 0 -> 0 <= j < size_at fh 1 -> 0 <= k < size_at fh 2 ->
  store_sample fh i j k = bulk fh i j k.
Proof.
  unfold store_sample, size_at. destruct (size fh) as [[ni nj] nk].
  intros Hi Hj Hk.
  replace ((0 <=? i) && (i <? ni) && (0 <=? j) && (j <? nj) && (0 <=? k) && (k <? nk))
    with true; [done|].
  symmetry. rewrite !andb_true_iff, !Z.leb_le, !Z.ltb_lt. lia.
Qed.

Lemma reader_sizes (fh : ZgyReader) (r : SeismicReader) :
  init fh = Ok r ->
  loader r = {| loader_filehandle := fh |} /\ filehandle r = fh /\
  size_at fh 0 = n_ilines r /\ size_at fh 1 = n_xlines r /\
  size_at fh 2 = n_samples r.
Proof.
  intros Hinit.
  destruct (init_inv fh r Hinit) as (Hfh & Hld & Hsz & _).
  unfold size_at. rewrite Hsz. done.
Qed.

(** Inside the volume the planes of the store are the stored samples. *)
Lemma inline_plane_inside (fh : ZgyReader) (r : SeismicReader) (i : Z) :
  init fh = Ok r -> 0 <= i < n_ilines r ->
  inline_plane fh i =
    tab (n_xlines r) (fun j => tab (n_samples r) (fun k => bulk fh i j k)).
Proof.
  intros Hinit Hi.
  destruct (reader_sizes fh r Hinit) as (_ & _ & H0 & H1 & H2).
  unfold inline_plane. rewrite H1, H2.
  apply tab_ext; intros j Hj. apply tab_ext; intros k Hk.
  apply store_sample_inside; lia.
Qed.

Lemma crossline_plane_inside (fh : ZgyReader) (r : SeismicReader) (j : Z) :
  init fh = Ok r -> 0 <= j < n_xlines r ->
  crossline_plane fh j =
    tab (n_ilines r) (fun i => tab (n_samples r) (fun k => bulk fh i j k)).
Proof.
  intros Hinit Hj.
  destruct (reader_sizes fh r Hinit) as (_ & _ & H0 & H1 & H2).
  unfold crossline_plane. rewrite H0, H2.
  apply tab_ext; intros i Hi. apply tab_ext; intros k Hk.
  apply store_sample_inside; lia.
Qed.

Lemma zslice_plane_inside (fh : ZgyReader) (r : SeismicReader) (k : Z) :
  init fh = Ok r -> 0 <= k < n_samples r ->
  zslice_plane fh k =
    tab (n_ilines r) (fun i => tab (n_xlines r) (fun j => bulk fh i j k)).
Proof.
  intros Hinit Hk.
  destruct (reader_sizes fh r Hinit) as (_ & _ & H0 & H1 & H2).
  unfold zslice_plane. rewrite H0, H1.
  apply tab_ext; intros i Hi. apply tab_ext; intros j Hj.
  apply store_sample_inside; lia.
Qed.

(** The aligned slabs of the ordinals within the brick grid lie within it. *)
Lemma slab_in_grid_inline (fh : ZgyReader) (i : Z) :
  size_ok fh -> 0 <= i < grid_extent (size_at fh 0) ->
  slab_in_grid fh (InlineSlab (64 * (i / 64))) = true.
Proof.
  unfold slab_in_grid, size_ok, slab_start, slab_shape, in_grid, size_at.
  destruct (size fh) as [[ni nj] nk]. intros (H0 & H1 & H2) Hi.
  pose proof (grid_extent_chunk ni i Hi).
  pose proof (grid_extent_covers nj). pose proof (grid_extent_covers nk).
  rewrite !andb_true_iff, !Z.leb_le. lia.
Qed.

Lemma slab_in_grid_crossline (fh : ZgyReader) (j : Z) :
  size_ok fh -> 0 <= j < grid_extent (size_at fh 1) ->
  slab_in_grid fh (CrosslineSlab (64 * (j / 64))) = true.
Proof.
  unfold slab_in_grid, size_ok, slab_start, slab_shape, in_grid, size_at.
  destruct (size fh) as [[ni nj] nk]. intros (H0 & H1 & H2) Hj.
  pose proof (grid_extent_chunk nj j Hj).
  pose proof (grid_extent_covers ni). pose proof (grid_extent_covers nk).
  rewrite !andb_true_iff, !Z.leb_le. lia.
Qed.

Lemma slab_in_grid_zslice (fh : ZgyReader) (k : Z) :
  size_ok fh -> 0 <= k < grid_extent (size_at fh 2) ->
  slab_in_grid fh (ZsliceSlab (64 * (k / 64))) = true.
Proof.
  unfold slab_in_grid, size_ok, slab_start, slab_shape, in_grid, size_at.
  destruct (size fh) as [[ni nj] nk]. intros (H0 & H1 & H2) Hk.
  pose proof (grid_extent_chunk nk k Hk).
  pose proof (grid_extent_covers ni). pose proof (grid_extent_covers nj).
  rewrite !andb_true_iff, !Z.leb_le. lia.
Qed.

Lemma slab_in_grid_trace (fh : ZgyReader) (i j : Z) :
  size_ok fh ->
  0 <= i < grid_extent (size_at fh 0) -> 0 <= j < grid_extent (size_at fh 1) ->
  slab_in_grid fh (TraceSlab (64 * (i / 64)) (64 * (j / 64))) = true.
Proof.
  unfold slab_in_grid, size_ok, slab_start, slab_shape, in_grid, size_at.
  destruct (size fh) as [[ni nj] nk]. intros (H0 & H1 & H2) Hi Hj.
  pose proof (grid_extent_chunk ni i Hi). pose proof (grid_extent_chunk nj j Hj).
  pose proof (grid_extent_covers nk).
  rewrite !andb_true_iff, !Z.leb_le. lia.
Qed.

(** The three slice readers, at any ordinal within the brick grid. *)
Lemma read_inline_copy (fh : ZgyReader) (r : SeismicReader) (st : state) (i : Z) :
  init fh = Ok r -> size_ok fh -> cache_ok fh st ->
  0 <= i < grid_extent (n_ilines r) ->
  independent_copy fh (read_inline r i) st
    (InlineSlab (64 * (i / 64))) (Nd2 (inline_plane fh i)).
Proof.
  intros Hinit Hsz Hok Hi. destruct (reader_sizes fh r Hinit) as (Hld & _ & H0 & _).
  unfold read_inline, load_inline_chunk. rewrite Hld.
  apply cached_read_independent; [done | | done | apply select_inline].
  apply (slab_in_grid_inline fh); [done | by rewrite H0].
Qed.

Lemma read_crossline_copy (fh : ZgyReader) (r : SeismicReader) (st : state) (j : Z) :
  init fh = Ok r -> size_ok fh -> cache_ok fh st ->
  0 <= j < grid_extent (n_xlines r) ->
  independent_copy fh (read_crossline r j) st
    (CrosslineSlab (64 * (j / 64))) (Nd2 (crossline_plane fh j)).
Proof.
  intros Hinit Hsz Hok Hj.
  destruct (reader_sizes fh r Hinit) as (Hld & _ & _ & H1 & _).
  unfold read_crossline, load_crossline_chunk. rewrite Hld.
  apply cached_read_independent; [done | | done | apply select_crossline].
  apply (slab_in_grid_crossline fh); [done | by rewrite H1].
Qed.

Lemma read_zslice_copy (fh : ZgyReader) (r : SeismicReader) (st : state) (k : Z) :
  init fh = Ok r -> size_ok fh -> cache_ok fh st ->
  0 <= k < grid_extent (n_samples r) ->
  independent_copy fh (read_zslice r k) st
    (ZsliceSlab (64 * (k / 64))) (Nd2 (zslice_plane fh k)).
Proof.
  intros Hinit Hsz Hok Hk.
  destruct (reader_sizes fh r Hinit) as (Hld & _ & _ & _ & H2).
  unfold read_zslice, load_zslice_chunk. rewrite Hld.
  apply cached_read_independent; [done | | done | apply select_zslice].
  apply (slab_in_grid_zslice fh); [done | by rewrite H2].
Qed.

(** A valid ordinal lies within the brick grid. *)
Lemma valid_in_grid (n i : Z) : 0 <= i < n -> 0 <= i < grid_extent n.
Proof. pose proof (grid_extent_covers n). lia. Qed.

(** C4. For every valid ordinal, [read_inline] returns plane [i mod 64] of
    the brick-row chunk loaded at the aligned origin [64 * (i div 64)]: the
    samples of inline [i], of shape (n_xlines, n_samples), in a buffer of the
    caller's own. Storing into the returned array changes neither the chunk
    nor any cached buffer, and a later read of the same ordinal returns the
    same plane. [read_crossline] and [read_zslice] do the same from
    brick-column and brick-layer chunks. *)
Theorem reads_return_independent_copies (fh : ZgyReader) (r : SeismicReader)
    (st : state) :
  init fh = Ok r -> size_ok fh -> cache_ok fh st ->
  (forall i, 0 <= i < n_ilines r ->
     let key := InlineSlab (64 * (i / 64)) in
     let plane := tab (n_xlines r) (fun j => tab (n_samples r) (fun k => bulk fh i j k)) in
     select3 (slab_content fh key) (SelInline (i mod 64)) = Ok (Nd2 plane) /\
     independent_copy fh (read_inline r i) st key (Nd2 plane)) /\
  (forall j, 0 <= j < n_xlines r ->
     let key := CrosslineSlab (64 * (j / 64)) in
     let plane := tab (n_ilines r) (fun i => tab (n_samples r) (fun k => bulk fh i j k)) in
     select3 (slab_content fh key) (SelCrossline (j mod 64)) = Ok (Nd2 plane) /\
     independent_copy fh (read_crossline r j) st key (Nd2 plane)) /\
  (forall k, 0 <= k < n_samples r ->
     let key := ZsliceSlab (64 * (k / 64)) in
     let plane := tab (n_ilines r) (fun i => tab (n_xlines r) (fun j => bulk fh i j k)) in
     select3 (slab_content fh key) (SelZslice (k mod 64)) = Ok (Nd2 plane) /\
     independent_copy fh (read_zslice r k) st key (Nd2 plane)).
Proof.
  intros Hinit Hsz Hok. split; [|split].
  - intros i Hi key plane. subst key plane.
    rewrite <- (inline_plane_inside fh r i Hinit Hi).
    split; [apply select_inline | by apply read_inline_copy, valid_in_grid].
  - intros j Hj key plane. subst key plane.
    rewrite <- (crossline_plane_inside fh r j Hinit Hj).
    split; [apply select_crossline | by apply read_crossline_copy, valid_in_grid].
  - intros k Hk key plane. subst key plane.
    rewrite <- (zslice_plane_inside fh r k Hinit Hk).
    split; [apply select_zslice | by apply read_zslice_copy, valid_in_grid].
Qed.

Lemma reads_return_independent_copies_witness :
  independent_copy Scenario.handle (read_inline Scenario.reader 1) Scenario.fresh
    (InlineSlab 0)
    (Nd2 (tab 4 (fun j => tab 2 (fun k => bulk Scenario.handle 1 j k)))) /\
  independent_copy Scenario.handle (read_crossline Scenario.reader 1) Scenario.fresh
    (CrosslineSlab 0)
    (Nd2 (tab 3 (fun i => tab 2 (fun k => bulk Scenario.handle i 1 k)))) /\
  independent_copy Scenario.handle (read_zslice Scenario.reader 1) Scenario.fresh
    (ZsliceSlab 0)
    (Nd2 (tab 3 (fun i => tab 4 (fun j => bulk Scenario.handle i j 1)))).
Proof.
  destruct (reads_return_independent_copies Scenario.handle Scenario.reader
              Scenario.fresh) as (Hil & Hxl & Hz).
  - reflexivity.
  - unfold size_ok. simpl. lia.
  - intros k l Hin. cbn in Hin. by apply elem_of_nil in Hin.
  - split; [|split].
    + apply (Hil 1). simpl. lia.
    + apply (Hxl 1). simpl. lia.
    + apply (Hz 1). simpl. lia.
Defined.

(** ** Direct reads *)

(** [read_subvolume] allocates one buffer of the requested shape, has the
    store fill it, and leaves the cache alone. *)
Lemma read_subvolume_spec (r : SeismicReader) (st : state)
    (min_il max_il min_xl max_xl min_z max_z : Z) :
  min_il <= max_il -> min_xl <= max_xl -> min_z <= max_z ->
  in_grid (filehandle r) (min_il, min_xl, min_z)
          (max_il - min_il, max_xl - min_xl, max_z - min_z) = true ->
  read_subvolume r min_il max_il min_xl max_xl min_z max_z st =
    (Ok (length (heap st)),
     set_heap
       (heap st ++
        [Nd3 (tab3 (max_il - min_il, max_xl - min_xl, max_z - min_z)
                   (fun a b c =>
                      store_sample (filehandle r) (min_il + a) (min_xl + b) (min_z + c)))])
       st).
Proof.
  intros Hi Hx Hz Hg. unfold read_subvolume.
  apply zeros_read_spec; [lia | lia | lia | exact Hg].
Qed.

(** Whatever the window, a failure of [read_subvolume] on extents that are
    not negative is the store's. *)
Lemma read_subvolume_outcome (r : SeismicReader) (st : state)
    (min_il max_il min_xl max_xl min_z max_z : Z) res st' :
  min_il <= max_il -> min_xl <= max_xl -> min_z <= max_z ->
  read_subvolume r min_il max_il min_xl max_xl min_z max_z st = (res, st') ->
  no_reader_error res.
Proof.
  intros Hi Hx Hz. unfold read_subvolume.
  rewrite zeros_read_cases by lia.
  destruct (in_grid _ _ _); intros [= <- _]; exact I.
Qed.

(** A window inside the volume lies within the brick grid. *)
Lemma in_grid_inside (fh : ZgyReader) (i0 i1 j0 j1 k0 k1 : Z) :
  0 <= i0 -> i1 <= size_at fh 0 -> 0 <= j0 -> j1 <= size_at fh 1 ->
  0 <= k0 -> k1 <= size_at fh 2 ->
  in_grid fh (i0, j0, k0) (i1 - i0, j1 - j0, k1 - k0) = true.
Proof.
  intros. apply in_grid_spec.
  pose proof (grid_extent_covers (size_at fh 0)).
  pose proof (grid_extent_covers (size_at fh 1)).
  pose proof (grid_extent_covers (size_at fh 2)). lia.
Qed.

(** A window with a negative extent is refused by [np.zeros]. *)
Lemma read_subvolume_negative (r : SeismicReader) (st : state)
    (min_il max_il min_xl max_xl min_z max_z : Z) :
  max_il < min_il \/ max_xl < min_xl \/ max_z < min_z ->
  read_subvolume r min_il max_il min_xl max_xl min_z max_z st =
    (Exc (ValueError "negative dimensions are not allowed"), st).
Proof.
  intros Hneg. unfold read_subvolume, np_zeros3, mbind, M_bind.
  replace ((max_il - min_il <? 0) || (max_xl - min_xl <? 0) || (max_z - min_z <? 0))
    with true; [done|].
  symmetry. rewrite !orb_true_iff, !Z.ltb_lt. lia.
Qed.

(** C7. The cached and the direct path agree. For a valid inline ordinal,
    [read_inline] returns the plane that [read_subvolume] on the window
    (i, i+1, 0, n_xlines, 0, n_samples) returns as its only inline: element
    [j, k] of the one is element [0, j, k] of the other, the stored sample
    (i, j, k). [read_subvolume] goes to the store directly: for any window
    within the bricks the store holds it returns one new buffer of shape
    (max_il - min_il, max_xl - min_xl, max_z - min_z) and the cache is as it
    was. *)
Theorem cached_and_direct_reads_agree (fh : ZgyReader) (r : SeismicReader)
    (st : state) (i : Z) :
  init fh = Ok r -> size_ok fh -> cache_ok fh st ->
  0 <= i < n_ilines r ->
  (exists l1 st1 l2 st2 plane,
     read_inline r i st = (Ok l1, st1) /\
     read_subvolume r i (i + 1) 0 (n_xlines r) 0 (n_samples r) st1 = (Ok l2, st2) /\
     heap st2 !! l1 = Some (Nd2 plane) /\
     heap st2 !! l2 = Some (Nd3 [plane]) /\
     plane = tab (n_xlines r) (fun j => tab (n_samples r) (fun k => bulk fh i j k)) /\
     (forall j k, 0 <= j < n_xlines r -> 0 <= k < n_samples r ->
        exists row, plane !! Z.to_nat j = Some row /\
                    row !! Z.to_nat k = Some (bulk fh i j k)) /\
     cache st2 = cache st1) /\
  (forall st0 min_il max_il min_xl max_xl min_z max_z,
     min_il <= max_il -> min_xl <= max_xl -> min_z <= max_z ->
     in_grid fh (min_il, min_xl, min_z)
             (max_il - min_il, max_xl - min_xl, max_z - min_z) = true ->
     exists l st' vol,
       read_subvolume r min_il max_il min_xl max_xl min_z max_z st0 = (Ok l, st') /\
       heap st' !! l = Some (Nd3 vol) /\
       vol = tab3 (max_il - min_il, max_xl - min_xl, max_z - min_z)
                  (fun a b c => store_sample fh (min_il + a) (min_xl + b) (min_z + c)) /\
       (length (heap st0) <= l)%nat /\
       cache st' = cache st0).
Proof.
  intros Hinit Hsz Hok Hi.
  destruct (reader_sizes fh r Hinit) as (Hld & Hfh & H0 & H1 & H2).
  assert (Hnn : 0 <= n_xlines r /\ 0 <= n_samples r).
  { unfold size_ok, size_at in *. destruct (size fh) as [[ni nj] nk]. lia. }
  split.
  - destruct (read_inline_copy fh r st i Hinit Hsz Hok (valid_in_grid _ _ Hi))
      as (l1 & st1 & chunk & Hrun & _ & _ & Hl1 & _).
    rewrite (inline_plane_inside fh r i Hinit Hi) in Hl1.
    set (plane := tab (n_xlines r) (fun j => tab (n_samples r) (fun k => bulk fh i j k))) in *.
    eexists l1, st1, (length (heap st1)), _, plane.
    split; [exact Hrun|]. split.
    { apply read_subvolume_spec; [lia | lia | lia |].
      rewrite Hfh. replace (n_xlines r) with (n_xlines r - 0) at 1 by lia.
      replace (n_samples r) with (n_samples r - 0) at 1 by lia.
      apply in_grid_inside; lia. }
    cbn [heap set_heap cache].
    split; [by apply lookup_app_l_Some|]. split; [|split; [done|split; [|done]]].
    + rewrite heap_lookup_fresh. do 2 f_equal. unfold tab3.
      replace (i + 1 - i) with 1 by lia. rewrite !Z.sub_0_r.
      change (tab 1 ?f) with [f 0]. f_equal. subst plane.
      apply tab_ext; intros j Hj. apply tab_ext; intros k Hk.
      rewrite Hfh, Z.add_0_r, !Z.add_0_l. apply store_sample_inside; lia.
    + intros j k Hj Hk. eexists. subst plane. split.
      * by apply tab_lookup.
      * by apply (tab_lookup (n_samples r)).
  - intros st0 min_il max_il min_xl max_xl min_z max_z Hil Hxl Hz Hg.
    eexists _, _, _. split; [apply read_subvolume_spec; by rewrite ?Hfh|].
    cbn [heap set_heap cache]. split; [apply heap_lookup_fresh|].
    rewrite Hfh. done.
Qed.

Lemma cached_and_direct_reads_agree_witness :
  exists l1 st1 l2 st2 plane,
    read_inline Scenario.reader 1 Scenario.fresh = (Ok l1, st1) /\
    read_subvolume Scenario.reader 1 2 0 4 0 2 st1 = (Ok l2, st2) /\
    heap st2 !! l1 = Some (Nd2 plane) /\
    heap st2 !! l2 = Some (Nd3 [plane]).
Proof.
  destruct (cached_and_direct_reads_agree Scenario.handle Scenario.reader
              Scenario.fresh 1) as [(l1 & st1 & l2 & st2 & plane & H) _].
  - reflexivity.
  - unfold size_ok. simpl. lia.
  - intros k l Hin. cbn in Hin. by apply elem_of_nil in Hin.
  - simpl. lia.
  - exists l1, st1, l2, st2, plane.
    destruct H as (H1 & H2 & H3 & H4 & _). repeat split; assumption.
Defined.

(** ** Flat trace indices *)

Lemma trace_index_split (n_il n_xl index : Z) :
  0 <= n_il -> 0 <= index < n_il * n_xl ->
  0 <= index / n_xl < n_il /\ 0 <= index mod n_xl < n_xl /\
  index = index / n_xl * n_xl + index mod n_xl.
Proof.
  intros Hn Hidx.
  assert (Hx : 0 < n_xl) by nia.
  pose proof (Z.div_mod index n_xl ltac:(lia)) as Hdm.
  pose proof (Z.mod_pos_bound index n_xl Hx) as Hm.
  split; [|split; [done | lia]].
  split; [apply Z.div_pos; lia|].
  apply Z.div_lt_upper_bound; lia.
Qed.

(** The record [gen_trace_header] builds from header values that fit their
    fields. *)
Lemma gen_trace_header_of_values (r : SeismicReader) (index : Z)
    (cdp_x cdp_y inline_3d crossline_3d interval : Z) :
  0 <= index < n_ilines r * n_xlines r ->
  trace_header_values r index = Ok (cdp_x, cdp_y, inline_3d, crossline_3d) ->
  (zf ← F64.mul_int (r_zinc r) 1000; F64.to_int zf) = Ok interval ->
  - 2 ^ 31 <= cdp_x < 2 ^ 31 ->
  - 2 ^ 31 <= cdp_y < 2 ^ 31 ->
  - 2 ^ 31 <= inline_3d < 2 ^ 31 ->
  - 2 ^ 31 <= crossline_3d < 2 ^ 31 ->
  0 <= n_samples r < 2 ^ 16 ->
  0 <= interval < 2 ^ 16 ->
  gen_trace_header r index =
    Ok {| buf := replicate 70 x00 ++ be_bytes 2 (-100) ++ replicate 42 x00 ++
                 be_bytes 2 (n_samples r) ++ be_bytes 2 interval ++
                 replicate 62 x00 ++ be_bytes 4 cdp_x ++ be_bytes 4 cdp_y ++
                 be_bytes 4 inline_3d ++ be_bytes 4 crossline_3d ++
                 replicate 44 x00;
          kind := "trace" |}.
Proof.
  intros Hidx Hvals Hint Hx Hy Hi Hc Hn Hz.
  bind_ok Hint zf Hzf.
  unfold gen_trace_header.
  rewrite (trace_index_in_range r index Hidx), Hvals, result_bind_ok.
  cbv beta iota.
  change (pack_h (-100)) with (Ok (be_bytes 2 (-100))).
  rewrite (pack_i_ok _ Hx), (pack_i_ok _ Hy), (pack_i_ok _ Hi), (pack_i_ok _ Hc),
    (pack_H_ok _ Hn), Hzf, !result_bind_ok, Hint, !result_bind_ok,
    (pack_H_ok _ Hz), !result_bind_ok.
  rewrite header_layout by apply be_bytes_length. reflexivity.
Qed.

(** C10. A flat trace index runs crossline-fastest. For an index in
    [0, n_ilines * n_xlines), which is [0, tracecount): the inline ordinal
    [index div n_xlines] and the crossline ordinal [index mod n_xlines] are
    valid ordinals that recompose the index; [get_trace] returns, in a
    buffer of the caller's own, the n_samples stored samples of that inline
    and crossline; the values [gen_trace_header] packs are the CDP and the
    annotation numbers of that same pair; and when those values fit their
    fields, [gen_trace_header] returns the record that holds them: the
    scaled CDP of (index div n_xlines, index mod n_xlines) at 180:188, and
    the inline and crossline number of that pair at 188:196. *)
Theorem trace_index_crossline_fastest (fh : ZgyReader) (r : SeismicReader)
    (st : state) (index : Z) :
  init fh = Ok r -> size_ok fh -> cache_ok fh st ->
  0 <= index < n_ilines r * n_xlines r ->
  let il := index / n_xlines r in
  let xl := index mod n_xlines r in
  tracecount r = n_ilines r * n_xlines r /\
  0 <= il < n_ilines r /\ 0 <= xl < n_xlines r /\
  index = il * n_xlines r + xl /\
  independent_copy fh (get_trace r index) st
    (TraceSlab (64 * (il / 64)) (64 * (xl / 64)))
    (Nd1 (tab (n_samples r) (fun k => bulk fh il xl k))) /\
  (forall cdp_x cdp_y inline_3d crossline_3d,
     trace_header_values r index = Ok (cdp_x, cdp_y, inline_3d, crossline_3d) ->
     exists x y il_off xl_off,
       gen_cdp_x r il xl = Ok x /\ F64.round (F64.mul f100 x) = Ok cdp_x /\
       gen_cdp_y r il xl = Ok y /\ F64.round (F64.mul f100 y) = Ok cdp_y /\
       F64.int_mul il (fst (annotinc fh)) = Ok il_off /\
       F64.to_int (F64.add (fst (annotstart fh)) il_off) = Ok inline_3d /\
       F64.int_mul xl (snd (annotinc fh)) = Ok xl_off /\
       F64.to_int (F64.add (snd (annotstart fh)) xl_off) = Ok crossline_3d) /\
  (forall cdp_x cdp_y inline_3d crossline_3d interval,
     (x ← gen_cdp_x r il xl; F64.round (F64.mul f100 x)) = Ok cdp_x ->
     (y ← gen_cdp_y r il xl; F64.round (F64.mul f100 y)) = Ok cdp_y ->
     (o ← F64.int_mul il (fst (annotinc fh));
      F64.to_int (F64.add (fst (annotstart fh)) o)) = Ok inline_3d ->
     (o ← F64.int_mul xl (snd (annotinc fh));
      F64.to_int (F64.add (snd (annotstart fh)) o)) = Ok crossline_3d ->
     (zf ← F64.mul_int (zinc fh) 1000; F64.to_int zf) = Ok interval ->
     - 2 ^ 31 <= cdp_x < 2 ^ 31 ->
     - 2 ^ 31 <= cdp_y < 2 ^ 31 ->
     - 2 ^ 31 <= inline_3d < 2 ^ 31 ->
     - 2 ^ 31 <= crossline_3d < 2 ^ 31 ->
     0 <= n_samples r < 2 ^ 16 ->
     0 <= interval < 2 ^ 16 ->
     exists h,
       gen_trace_header r index = Ok {| buf := h; kind := "trace" |} /\
       length h = 240%nat /\
       slice 180 184 h = be_bytes 4 cdp_x /\
       slice 184 188 h = be_bytes 4 cdp_y /\
       slice 188 192 h = be_bytes 4 inline_3d /\
       slice 192 196 h = be_bytes 4 crossline_3d).
Proof.
  intros Hinit Hsz Hok Hidx il xl.
  destruct (reader_sizes fh r Hinit) as (Hld & Hfh & H0 & H1 & H2).
  destruct (init_inv fh r Hinit)
    as (_ & _ & _ & Htc & _ & _ & _ & Has & Hai & Hzi & _).
  assert (Hnn : 0 <= n_ilines r).
  { unfold size_ok, size_at in *. destruct (size fh) as [[ni nj] nk]. lia. }
  destruct (trace_index_split _ _ _ Hnn Hidx) as (Hil & Hxl & Hsplit).
  split; [lia|]. do 3 (split; [done|]). split; [|split].
  - unfold get_trace. rewrite (trace_index_in_range r index Hidx).
    unfold load_trace_chunk. rewrite Hld. cbn [loader_filehandle]. fold il xl.
    apply cached_read_independent; [done | | done |].
    + apply (slab_in_grid_trace fh); [done | |]; apply valid_in_grid; lia.
    + rewrite select_trace. unfold trace_at. rewrite H2. do 2 f_equal.
      apply tab_ext; intros k Hk. apply store_sample_inside; lia.
  - intros cdp_x cdp_y inline_3d crossline_3d Hv.
    unfold trace_header_values in Hv. fold il xl in Hv. rewrite Has, Hai in Hv.
    bind_ok Hv x Hx. bind_ok Hv cx Hcx. bind_ok Hv y Hy. bind_ok Hv cy Hcy.
    bind_ok Hv io Hio. bind_ok Hv i3 Hi3. bind_ok Hv xo Hxo. bind_ok Hv x3 Hx3.
    injection Hv as <- <- <- <-. exists x, y, io, xo. repeat split; assumption.
  - intros cdp_x cdp_y inline_3d crossline_3d interval
      Hcx Hcy Hi3 Hx3 Hint Rx Ry Ri Rc Rn Rz.
    assert (Hvals : trace_header_values r index =
                      Ok (cdp_x, cdp_y, inline_3d, crossline_3d)).
    { unfold trace_header_values. cbv zeta. fold il xl. rewrite Has, Hai.
      destruct (gen_cdp_x r il xl) as [x|] eqn:Hx; [|discriminate Hcx].
      destruct (gen_cdp_y r il xl) as [y|] eqn:Hy; [|discriminate Hcy].
      destruct (F64.int_mul il (annotinc fh).1) as [io|] eqn:Hio;
        [|discriminate Hi3].
      destruct (F64.int_mul xl (annotinc fh).2) as [xo|] eqn:Hxo;
        [|discriminate Hx3].
      rewrite result_bind_ok in Hcx, Hcy, Hi3, Hx3.
      rewrite result_bind_ok, Hcx, !result_bind_ok, Hcy, !result_bind_ok,
        Hi3, !result_bind_ok, Hx3. reflexivity. }
    rewrite <- Hzi in Hint.
    rewrite (gen_trace_header_of_values r index cdp_x cdp_y inline_3d
               crossline_3d interval Hidx Hvals Hint Rx Ry Ri Rc Rn Rz).
    eexists. split; [reflexivity|].
    destruct (header_layout_facts (be_bytes 2 (-100)) (be_bytes 4 cdp_x)
                (be_bytes 4 cdp_y) (be_bytes 4 inline_3d) (be_bytes 4 crossline_3d)
                (be_bytes 2 (n_samples r)) (be_bytes 2 interval))
      as (Hlen & _ & _ & _ & F4 & F5 & F6 & F7 & _);
      try apply be_bytes_length.
    repeat split; assumption.
Qed.

Lemma trace_index_crossline_fastest_witness :
  5 = 1 * n_xlines Scenario.reader + 1 /\
  independent_copy Scenario.handle (get_trace Scenario.reader 5) Scenario.fresh
    (TraceSlab 0 0)
    (Nd1 (tab 2 (fun k => bulk Scenario.handle 1 1 k))) /\
  exists h,
    gen_trace_header Scenario.reader 5 = Ok {| buf := h; kind := "trace" |} /\
    length h = 240%nat /\
    slice 180 184 h = be_bytes 4 100100 /\
    slice 184 188 h = be_bytes 4 200100 /\
    slice 188 192 h = be_bytes 4 102 /\
    slice 192 196 h = be_bytes 4 11.
Proof.
  destruct (trace_index_crossline_fastest Scenario.handle Scenario.reader
              Scenario.fresh 5) as (_ & _ & _ & Hsplit & Hcopy & _ & Hhdr).
  - reflexivity.
  - unfold size_ok. simpl. lia.
  - intros k l Hin. cbn in Hin. by apply elem_of_nil in Hin.
  - simpl. lia.
  - split; [exact Hsplit|]. split; [exact Hcopy|].
    apply (Hhdr 100100 200100 102 11 4000);
      [ vm_compute; reflexivity | vm_compute; reflexivity
      | vm_compute; reflexivity | vm_compute; reflexivity
      | vm_compute; reflexivity
      | lia | lia | lia | lia
      | vm_compute; split; [discriminate | reflexivity]
      | lia ].
Defined.

(** ** Bounds *)

Lemma store_sample_outside_inline (fh : ZgyReader) (i j k : Z) :
  ~ 0 <= i < size_at fh 0 -> store_sample fh i j k = padding fh.
Proof.
  unfold store_sample, size_at. destruct (size fh) as [[ni nj] nk]. intros Hi.
  destruct (Z.leb_spec 0 i); [|reflexivity].
  destruct (Z.ltb_spec i ni); [lia | reflexivity].
Qed.

Lemma store_sample_outside_crossline (fh : ZgyReader) (i j k : Z) :
  ~ 0 <= j < size_at fh 1 -> store_sample fh i j k = padding fh.
Proof.
  unfold store_sample, size_at. destruct (size fh) as [[ni nj] nk]. intros Hj.
  destruct ((0 <=? i) && (i <? ni)); [|reflexivity]. cbn [andb].
  destruct (Z.leb_spec 0 j); [|reflexivity].
  destruct (Z.ltb_spec j nj); [lia | reflexivity].
Qed.

Lemma store_sample_outside_sample (fh : ZgyReader) (i j k : Z) :
  ~ 0 <= k < size_at fh 2 -> store_sample fh i j k = padding fh.
Proof.
  unfold store_sample, size_at. destruct (size fh) as [[ni nj] nk]. intros Hk.
  destruct ((0 <=? i) && (i <? ni) && (0 <=? j) && (j <? nj)); [|reflexivity].
  cbn [andb].
  destruct (Z.leb_spec 0 k); [|reflexivity].
  destruct (Z.ltb_spec k nk); [lia | reflexivity].
Qed.

(** The planes of the store past the end of an axis are padding. *)
Lemma inline_plane_padding (fh : ZgyReader) (r : SeismicReader) (i : Z) :
  init fh = Ok r -> ~ 0 <= i < n_ilines r ->
  inline_plane fh i =
    tab (n_xlines r) (fun _ => tab (n_samples r) (fun _ => padding fh)).
Proof.
  intros Hinit Hi.
  destruct (reader_sizes fh r Hinit) as (_ & _ & H0 & H1 & H2).
  unfold inline_plane. rewrite H1, H2.
  apply tab_ext; intros j _. apply tab_ext; intros k _.
  apply store_sample_outside_inline. by rewrite H0.
Qed.

Lemma crossline_plane_padding (fh : ZgyReader) (r : SeismicReader) (j : Z) :
  init fh = Ok r -> ~ 0 <= j < n_xlines r ->
  crossline_plane fh j =
    tab (n_ilines r) (fun _ => tab (n_samples r) (fun _ => padding fh)).
Proof.
  intros Hinit Hj.
  destruct (reader_sizes fh r Hinit) as (_ & _ & H0 & H1 & H2).
  unfold crossline_plane. rewrite H0, H2.
  apply tab_ext; intros i _. apply tab_ext; intros k _.
  apply store_sample_outside_crossline. by rewrite H1.
Qed.

Lemma zslice_plane_padding (fh : ZgyReader) (r : SeismicReader) (k : Z) :
  init fh = Ok r -> ~ 0 <= k < n_samples r ->
  zslice_plane fh k =
    tab (n_ilines r) (fun _ => tab (n_xlines r) (fun _ => padding fh)).
Proof.
  intros Hinit Hk.
  destruct (reader_sizes fh r Hinit) as (_ & _ & H0 & H1 & H2).
  unfold zslice_plane. rewrite H0, H1.
  apply tab_ext; intros i _. apply tab_ext; intros j _.
  apply store_sample_outside_sample. by rewrite H2.
Qed.

(** Whatever the key, a cached read fails only as the store does. *)
Lemma cached_read_outcome (fh : ZgyReader) (key : slab_key) (s : selector)
    (d : ndarray) (st : state) res st' :
  size_ok fh -> cache_ok fh st ->
  select3 (slab_content fh key) s = Ok d ->
  (c ← get_or_load fh key; v ← np_index c s; np_copy v) st = (res, st') ->
  no_reader_error res.
Proof.
  intros Hsz Hok Hsel. unfold mbind at 1. unfold M_bind at 1.
  destruct (get_or_load_cases fh key st Hsz Hok)
    as [(l & st1 & -> & Hchunk & _)|(_ & msg & st1 & -> & _)].
  - rewrite (view_copy_spec l (slab_content fh key) s d st1 Hchunk Hsel).
    intros [= <- _]. exact I.
  - intros [= <- _]. exact I.
Qed.

(** C1, as the code has it. [get_trace] rejects every index outside
    [0, n_ilines * n_xlines), the count itself included, with an IndexError
    that carries the index and the total trace count, and
    [gen_trace_header] returns no header for such an index. The slice
    readers and [read_subvolume] check no bounds of their own. An ordinal
    from the dimension up to the end of the last brick of its axis is
    served: [read_inline], [read_crossline] and [read_zslice] return a plane
    of the usual shape filled with the store's padding. At no ordinal do
    they raise an error of their own: what they give is a result or the
    failure of the store. [read_subvolume] likewise: a window of
    non-negative extents gives a result or the failure of the store, and
    within the bricks the store holds it gives the store's samples, padding
    past the volume; a negative extent raises ValueError. *)
Theorem bounds_checks_as_coded (fh : ZgyReader) (r : SeismicReader) (st : state) :
  init fh = Ok r -> size_ok fh -> cache_ok fh st ->
  (forall index, ~ 0 <= index < n_ilines r * n_xlines r ->
     get_trace r index st =
       (Exc (IndexError (TraceIndexOutOfRange index (n_ilines r * n_xlines r))), st) /\
     is_ok (gen_trace_header r index) = false) /\
  (forall i, n_ilines r <= i < grid_extent (n_ilines r) ->
     independent_copy fh (read_inline r i) st (InlineSlab (64 * (i / 64)))
       (Nd2 (tab (n_xlines r) (fun _ => tab (n_samples r) (fun _ => padding fh))))) /\
  (forall j, n_xlines r <= j < grid_extent (n_xlines r) ->
     independent_copy fh (read_crossline r j) st (CrosslineSlab (64 * (j / 64)))
       (Nd2 (tab (n_ilines r) (fun _ => tab (n_samples r) (fun _ => padding fh))))) /\
  (forall k, n_samples r <= k < grid_extent (n_samples r) ->
     independent_copy fh (read_zslice r k) st (ZsliceSlab (64 * (k / 64)))
       (Nd2 (tab (n_ilines r) (fun _ => tab (n_xlines r) (fun _ => padding fh))))) /\
  (forall i res st',
     (read_inline r i st = (res, st') \/ read_crossline r i st = (res, st') \/
      read_zslice r i st = (res, st')) ->
     no_reader_error res) /\
  (forall min_il max_il min_xl max_xl min_z max_z,
     (min_il <= max_il /\ min_xl <= max_xl /\ min_z <= max_z ->
      (forall res st',
         read_subvolume r min_il max_il min_xl max_xl min_z max_z st = (res, st') ->
         no_reader_error res) /\
      (in_grid fh (min_il, min_xl, min_z)
               (max_il - min_il, max_xl - min_xl, max_z - min_z) = true ->
       exists l st',
         read_subvolume r min_il max_il min_xl max_xl min_z max_z st = (Ok l, st') /\
         heap st' !! l =
           Some (Nd3 (tab3 (max_il - min_il, max_xl - min_xl, max_z - min_z)
                           (fun a b c =>
                              store_sample fh (min_il + a) (min_xl + b) (min_z + c)))))) /\
     (max_il < min_il \/ max_xl < min_xl \/ max_z < min_z ->
      read_subvolume r min_il max_il min_xl max_xl min_z max_z st =
        (Exc (ValueError "negative dimensions are not allowed"), st))).
Proof.
  intros Hinit Hsz Hok.
  destruct (reader_sizes fh r Hinit) as (Hld & Hfh & H0 & H1 & H2).
  assert (Hnn : 0 <= n_ilines r /\ 0 <= n_xlines r /\ 0 <= n_samples r).
  { unfold size_ok, size_at in *. destruct (size fh) as [[ni nj] nk]. lia. }
  split; [|split; [|split; [|split; [|split]]]].
  - intros index Hout. unfold get_trace, gen_trace_header.
    rewrite (trace_index_out_of_range r index Hout). done.
  - intros i Hi. rewrite <- (inline_plane_padding fh r i Hinit) by lia.
    apply read_inline_copy; [done | done | done | lia].
  - intros j Hj. rewrite <- (crossline_plane_padding fh r j Hinit) by lia.
    apply read_crossline_copy; [done | done | done | lia].
  - intros k Hk. rewrite <- (zslice_plane_padding fh r k Hinit) by lia.
    apply read_zslice_copy; [done | done | done | lia].
  - intros i res st' [Hrun|[Hrun|Hrun]];
      unfold read_inline, load_inline_chunk, read_crossline, load_crossline_chunk,
        read_zslice, load_zslice_chunk in Hrun;
      rewrite Hld in Hrun; cbn [loader_filehandle] in Hrun.
    + exact (cached_read_outcome fh _ _ _ st res st' Hsz Hok (select_inline fh i) Hrun).
    + exact (cached_read_outcome fh _ _ _ st res st' Hsz Hok (select_crossline fh i) Hrun).
    + exact (cached_read_outcome fh _ _ _ st res st' Hsz Hok (select_zslice fh i) Hrun).
  - intros min_il max_il min_xl max_xl min_z max_z. split.
    + intros (Hi & Hx & Hz). split.
      * intros res st'. by apply read_subvolume_outcome.
      * intros Hg. eexists _, _.
        split; [apply read_subvolume_spec; by rewrite ?Hfh|].
        cbn [heap set_heap]. rewrite heap_lookup_fresh, Hfh. done.
    + apply read_subvolume_negative.
Qed.

Lemma bounds_checks_as_coded_witness :
  get_trace Scenario.reader 12 Scenario.fresh =
    (Exc (IndexError (TraceIndexOutOfRange 12 12)), Scenario.fresh) /\
  independent_copy Scenario.handle (read_inline Scenario.reader 3) Scenario.fresh
    (InlineSlab 0)
    (Nd2 (tab 4 (fun _ => tab 2 (fun _ => padding Scenario.handle)))) /\
  no_reader_error (read_inline Scenario.reader 64 Scenario.fresh).1.
Proof.
  destruct (bounds_checks_as_coded Scenario.handle Scenario.reader Scenario.fresh)
    as (Htrace & Hil & _ & _ & Hout & _).
  - reflexivity.
  - unfold size_ok. simpl. lia.
  - intros k l Hin. cbn in Hin. by apply elem_of_nil in Hin.
  - split; [|split].
    + apply (Htrace 12). simpl. lia.
    + apply (Hil 3). vm_compute. split; [discriminate | reflexivity].
    + apply (Hout 64 _ (read_inline Scenario.reader 64 Scenario.fresh).2).
      left. by destruct (read_inline Scenario.reader 64 Scenario.fresh).
Defined.

(** C1 as stated fails on [read_inline]: on the volume of three inlines,
    ordinal 3 (the dimension itself) is not refused; the read returns a
    plane of shape (4, 2) holding the store's padding. *)
Lemma read_inline_past_end_cex :
  n_ilines Scenario.reader = 3 /\
  exists l st',
    read_inline Scenario.reader 3 Scenario.fresh = (Ok l, st') /\
    heap st' !! l =
      Some (Nd2 (tab 4 (fun _ => tab 2 (fun _ => padding Scenario.handle)))).
Proof.
  split; [reflexivity|].
  eexists _, _. split; [vm_compute; reflexivity|]. vm_compute. reflexivity.
Qed.

(** ** Reading by annotation number *)

Lemma np_where_first_present (n : Z) (l : list Z) :
  n ∈ l -> exists i, np_where_first n l = Some i /\ l !! i = Some n.
Proof.
  induction l as [|c cs IH]; intros Hin; [by apply elem_of_nil in Hin|].
  simpl. destruct (Z.eqb_spec c n) as [->|Hne].
  - by exists 0%nat.
  - apply elem_of_cons in Hin as [->|Hin]; [done|].
    destruct (IH Hin) as (i & -> & Hi). by exists (S i).
Qed.

Lemma lift_bind {A B} (x : result A) (k : A -> M B) (st : state) :
  (a ← lift x; k a) st = match x with Ok a => k a st | Exc e => (Exc e, st) end.
Proof. unfold mbind, M_bind, lift. by destruct x. Qed.

(** C8. Reading by annotation number is reading by ordinal after the
    coordinate lookup. For every annotation number present in the inline
    axis, [read_inline_number] is [read_inline] at the ordinal
    [coord_to_index] gives, an ordinal at which the axis holds that number;
    likewise [read_crossline_number] on the crossline axis, and
    [read_zslice_coord] for every coordinate the lookup finds in the sample
    axis. *)
Theorem read_by_number_delegates (r : SeismicReader) (st : state) :
  (forall n, n ∈ ilines r ->
     exists i, ilines r !! i = Some n /\
               coord_to_index n (ilines r) false = Ok (Z.of_nat i) /\
               read_inline_number r n st = read_inline r (Z.of_nat i) st) /\
  (forall n, n ∈ xlines r ->
     exists i, xlines r !! i = Some n /\
               coord_to_index n (xlines r) false = Ok (Z.of_nat i) /\
               read_crossline_number r n st = read_crossline r (Z.of_nat i) st) /\
  (forall c i, coord_to_index c (samples r) false = Ok i ->
     read_zslice_coord r c st = read_zslice r i st).
Proof.
  split; [|split].
  - intros n Hn. destruct (np_where_first_present n _ Hn) as (i & Hw & Hi).
    exists i. pose proof (coord_to_index_found n (ilines r) false i Hw) as Hc.
    split; [done|]. split; [done|].
    unfold read_inline_number. by rewrite lift_bind, Hc.
  - intros n Hn. destruct (np_where_first_present n _ Hn) as (i & Hw & Hi).
    exists i. pose proof (coord_to_index_found n (xlines r) false i Hw) as Hc.
    split; [done|]. split; [done|].
    unfold read_crossline_number. by rewrite lift_bind, Hc.
  - intros c i Hc. unfold read_zslice_coord. by rewrite lift_bind, Hc.
Qed.

Lemma read_by_number_delegates_witness :
  read_inline_number Scenario.reader 102 Scenario.fresh =
  read_inline Scenario.reader 1 Scenario.fresh.
Proof.
  destruct (read_by_number_delegates Scenario.reader Scenario.fresh) as (Hil & _).
  destruct (Hil 102) as (i & Hi & Hc & Hread).
  - right. left.
  - assert (Hc' : coord_to_index 102 (ilines Scenario.reader) false = Ok 1)
      by reflexivity.
    rewrite Hc' in Hc. injection Hc as Hone.
    rewrite Hread, <- Hone. reflexivity.
Defined.

(** The scenario of the specification: inline number 102 is ordinal 1, and
    reading by the one is reading by the other. *)
Example scenario_read_inline_number :
  ilines Scenario.reader = [100; 102; 104] /\
  coord_to_index 102 (ilines Scenario.reader) false = Ok 1 /\
  read_inline_number Scenario.reader 102 Scenario.fresh =
  read_inline Scenario.reader 1 Scenario.fresh.
Proof. repeat split. Qed.

(** * Further properties of the reader *)

(** ** Lookup: first match and range of the result *)

Section LookupResult.
Context {A : Type} `{NpScalar A}.

(** X1. An ordinal below the axis length that [coord_to_index] returns is
    the first position whose element equals the coordinate, and it is
    returned whatever [include_stop]. *)
Theorem coord_to_index_first_match (coord : A) (coords : list A)
    (include_stop : bool) (i : nat) :
  coord_to_index coord coords include_stop = Ok (Z.of_nat i) ->
  (i < length coords)%nat ->
  (exists c, coords !! i = Some c /\ np_eqb c coord = true) /\
  (forall j c, (j < i)%nat -> coords !! j = Some c -> np_eqb c coord = false) /\
  coord_to_index coord coords (negb include_stop) = Ok (Z.of_nat i).
Proof.
  intros Hres Hlt. unfold coord_to_index in Hres.
  destruct (np_where_first coord coords) as [i0|] eqn:Hw.
  - injection Hres as Hi. apply Nat2Z.inj in Hi. subst i0.
    pose proof (coord_to_index_found coord coords (negb include_stop) i Hw) as Hneg.
    apply np_where_first_Some in Hw as [Hex Hmin]. repeat split; assumption.
  - exfalso. destruct include_stop; [|discriminate Hres].
    lazy beta iota in Hres.
    bind_ok Hres a Ha. bind_ok Hres b Hb.
    destruct (np_eqb _ _); [|discriminate Hres].
    injection Hres as Hn. apply Nat2Z.inj in Hn. lia.
Qed.

(** X2. What [coord_to_index] returns is never negative and never beyond
    the axis length; without [include_stop] it is a valid ordinal, and the
    axis length itself is returned only with [include_stop] on an axis of at
    least two elements. *)
Theorem coord_to_index_range (coord : A) (coords : list A)
    (include_stop : bool) (n : Z) :
  coord_to_index coord coords include_stop = Ok n ->
  0 <= n <= Z.of_nat (length coords) /\
  (include_stop = false -> n < Z.of_nat (length coords)) /\
  (n = Z.of_nat (length coords) ->
     include_stop = true /\ (2 <= length coords)%nat).
Proof.
  intros Hres. unfold coord_to_index in Hres.
  destruct (np_where_first coord coords) as [i|] eqn:Hw.
  - injection Hres as <-.
    apply np_where_first_Some in Hw as [(c & Hc & _) _].
    apply lookup_lt_Some in Hc. repeat split; try lia.
  - destruct include_stop; [|discriminate Hres].
    lazy beta iota in Hres.
    destruct coords as [|x [|y l]]; [discriminate Hres | discriminate Hres |].
    bind_ok Hres a Ha. bind_ok Hres b Hb.
    destruct (np_eqb _ _); [|discriminate Hres].
    injection Hres as <-. cbn [length]. repeat split; lia.
Qed.

End LookupResult.

Lemma coord_to_index_first_match_witness :
  (exists c, [100; 102; 102; 104] !! 1%nat = Some c /\ np_eqb c 102 = true) /\
  coord_to_index 102 [100; 102; 102; 104] false = Ok 1.
Proof.
  destruct (coord_to_index_first_match 102 [100; 102; 102; 104] true 1)
    as (Hex & _ & Hneg).
  - reflexivity.
  - simpl. lia.
  - split; [exact Hex | exact Hneg].
Defined.

Lemma coord_to_index_range_witness :
  0 <= 3 <= Z.of_nat (length [100; 102; 104]) /\
  (3 = Z.of_nat (length [100; 102; 104]) ->
     true = true /\ (2 <= length [100; 102; 104])%nat).
Proof.
  destruct (coord_to_index_range 106 [100; 102; 104] true 3) as (Hr & _ & Hend).
  - reflexivity.
  - split; [exact Hr | exact Hend].
Defined.

(** ** Reading by a number that is not on the axis *)

Lemma np_where_first_absent (n : Z) (l : list Z) :
  n ∉ l -> np_where_first n l = None.
Proof.
  intros Hn. apply np_where_first_None, Forall_forall. intros c Hc.
  apply Z.eqb_neq. intros ->. done.
Qed.

(** X3. Reading by a number that is on no position of its axis raises
    "Coordinate {} not in axis" and touches neither the heap nor the cache:
    no chunk is loaded. This holds for every absent number, the one past the
    end of the axis included, the by-number readers never asking for the
    stop marker. *)
Theorem read_by_number_absent (r : SeismicReader) (st : state) :
  (forall n, n ∉ ilines r ->
     read_inline_number r n st =
       (Exc (IndexError (CoordinateNotInAxis (PyInt n))), st)) /\
  (forall n, n ∉ xlines r ->
     read_crossline_number r n st =
       (Exc (IndexError (CoordinateNotInAxis (PyInt n))), st)) /\
  (forall c, Forall (fun s => F64.eqb s c = false) (samples r) ->
     read_zslice_coord r c st =
       (Exc (IndexError (CoordinateNotInAxis (PyFloat c))), st)).
Proof.
  split; [|split].
  - intros n Hn. unfold read_inline_number.
    rewrite lift_bind, coord_to_index_absent; [done|].
    by apply np_where_first_absent.
  - intros n Hn. unfold read_crossline_number.
    rewrite lift_bind, coord_to_index_absent; [done|].
    by apply np_where_first_absent.
  - intros c Hc. unfold read_zslice_coord.
    rewrite lift_bind, coord_to_index_absent; [done|].
    by apply np_where_first_None.
Qed.

Lemma read_by_number_absent_witness :
  read_inline_number Scenario.reader 106 Scenario.fresh =
    (Exc (IndexError (CoordinateNotInAxis (PyInt 106))), Scenario.fresh) /\
  read_crossline_number Scenario.reader 9 Scenario.fresh =
    (Exc (IndexError (CoordinateNotInAxis (PyInt 9))), Scenario.fresh).
Proof.
  destruct (read_by_number_absent Scenario.reader Scenario.fresh) as (Hil & Hxl & _).
  split.
  - apply Hil. cbn [ilines Scenario.reader]. intros Hin.
    repeat (apply elem_of_cons in Hin as [Hin|Hin]; [discriminate Hin|]).
    by apply elem_of_nil in Hin.
  - apply Hxl. cbn [xlines Scenario.reader]. intros Hin.
    repeat (apply elem_of_cons in Hin as [Hin|Hin]; [discriminate Hin|]).
    by apply elem_of_nil in Hin.
Defined.

(** ** The horizontal axes as progressions *)

Lemma haxis_bounds_get_haxis (fh : ZgyReader) (idx : nat) (start stop step : Z) :
  haxis_bounds fh idx = Ok (start, stop) ->
  F64.to_int (pair_at (annotinc fh) idx) = Ok step ->
  get_haxis fh idx = np_arange_intc start stop step.
Proof.
  unfold haxis_bounds, get_haxis. intros Hb Hs.
  bind_ok Hb a Ha. bind_ok Hb sp Hsp. bind_ok Hb b Hb'.
  injection Hb as <- <-. rewrite ?Ha, ?Hsp, ?result_bind_ok, ?Hb', ?Hs. reflexivity.
Qed.

(** X4. When the stop [int(start + size * inc)] that [get_haxis] gives to
    [np.arange] is [int(start) + size * int(inc)], as it is for integral
    annotations, and the range fits a C int, the axis has exactly [size]
    entries and entry [i] is [int(start) + i * int(inc)]. *)
Theorem get_haxis_progression (fh : ZgyReader) (idx : nat) (start stop step : Z) :
  haxis_bounds fh idx = Ok (start, stop) ->
  F64.to_int (pair_at (annotinc fh) idx) = Ok step ->
  step <> 0 ->
  stop = start + size_at fh idx * step ->
  0 <= size_at fh idx ->
  Intc.in_range start -> Intc.in_range stop ->
  exists axis,
    get_haxis fh idx = Ok axis /\
    length axis = Z.to_nat (size_at fh idx) /\
    distinct_axis axis = true /\
    forall i, 0 <= i < size_at fh idx ->
      axis !! Z.to_nat i = Some (start + i * step).
Proof.
  intros Hb Hs Hstep Hstop Hsz Hrs Hre.
  rewrite (haxis_bounds_get_haxis fh idx start stop step Hb Hs).
  destruct (np_arange_intc start stop step) as [axis|e] eqn:Har.
  2:{ rewrite np_arange_intc_bounded in Har by assumption. discriminate Har. }
  destruct (np_arange_intc_distinct start stop step axis Hrs Hre Har) as [Hd Hel].
  assert (Hlen : length axis = Z.to_nat (size_at fh idx)).
  { rewrite (np_arange_intc_length start stop step axis Hrs Hre Har). f_equal.
    replace (start - stop) with (- size_at fh idx * step) by lia.
    rewrite Z.div_mul by done. lia. }
  exists axis. repeat split; try assumption.
  intros i Hi.
  destruct (axis !! Z.to_nat i) as [a|] eqn:Ha.
  - rewrite (Hel _ _ Ha). by rewrite Z2Nat.id by lia.
  - apply lookup_ge_None in Ha. lia.
Qed.

Lemma get_haxis_progression_witness :
  exists axis,
    get_haxis Scenario.handle 0 = Ok axis /\
    length axis = 3%nat /\
    axis !! 2%nat = Some 104.
Proof.
  destruct (get_haxis_progression Scenario.handle 0 100 106 2)
    as (axis & Hax & Hlen & _ & Hel).
  - vm_compute; reflexivity.
  - vm_compute; reflexivity.
  - lia.
  - vm_compute; reflexivity.
  - vm_compute; discriminate.
  - vm_compute; split; discriminate.
  - vm_compute; split; discriminate.
  - exists axis. split; [exact Hax|]. split; [exact Hlen|].
    apply (Hel 2). vm_compute. split; [discriminate | reflexivity].
Defined.

(** X5. An annotation increment that truncates to zero (a fraction between
    -1 and 1) makes [get_haxis] raise ZeroDivisionError, and with it
    [__init__] on the inline axis: no reader is built on such a handle. *)
Theorem get_haxis_zero_step (fh : ZgyReader) (start stop : Z) :
  haxis_bounds fh 0 = Ok (start, stop) ->
  F64.to_int (fst (annotinc fh)) = Ok 0 ->
  get_haxis fh 0 = Exc ZeroDivisionError /\
  init fh = Exc ZeroDivisionError.
Proof.
  intros Hb Hs.
  assert (Hax : get_haxis fh 0 = Exc ZeroDivisionError).
  { by rewrite (haxis_bounds_get_haxis fh 0 start stop 0 Hb Hs). }
  split; [exact Hax|]. unfold init. destruct (size fh) as [[ni nj] nk].
  rewrite Hax. reflexivity.
Qed.

Lemma get_haxis_zero_step_witness :
  init Edge.half_step_handle = Exc ZeroDivisionError.
Proof.
  destruct (get_haxis_zero_step Edge.half_step_handle 100 101) as [_ Hinit].
  - vm_compute; reflexivity.
  - vm_compute; reflexivity.
  - exact Hinit.
Defined.

(** ** Volumes of a single line *)

Lemma div_int_zero (x : spec_float) : F64.div_int x 0 = Exc ZeroDivisionError.
Proof. reflexivity. Qed.

(** X6. [__init__] builds no reader on a volume of exactly one inline or
    exactly one crossline: the increment is a difference of corners divided
    by the count less one, a division by zero. With one inline, once the
    three axes are built, the exception is ZeroDivisionError. *)
Theorem init_single_line (fh : ZgyReader) :
  (forall r, init fh = Ok r -> n_ilines r <> 1 /\ n_xlines r <> 1) /\
  (forall il_axis xl_axis zspan z_axis,
     size_at fh 0 = 1 ->
     get_haxis fh 0 = Ok il_axis -> get_haxis fh 1 = Ok xl_axis ->
     F64.int_mul (size_at fh 2) (zinc fh) = Ok zspan ->
     np_arange_f64 (zstart fh) (F64.add (zstart fh) zspan) (zinc fh) = Ok z_axis ->
     init fh = Exc ZeroDivisionError).
Proof.
  split.
  - intros r Hinit.
    destruct (init_inv fh r Hinit)
      as (_ & _ & _ & _ & _ & _ & _ & _ & _ & _ & D1 & _ & D3 & _).
    split; intros Hone; rewrite Hone in *; change (1 - 1) with 0 in *.
    + rewrite div_int_zero in D1. discriminate D1.
    + rewrite div_int_zero in D3. discriminate D3.
  - intros il_axis xl_axis zspan z_axis Hone Hil Hxl Hzs Hz.
    unfold init. unfold size_at in Hone, Hzs.
    destruct (size fh) as [[ni nj] nk] eqn:Hsz. subst ni.
    rewrite Hil, Hxl, !result_bind_ok, Hzs, result_bind_ok, Hz, result_bind_ok.
    unfold size_at. rewrite Hsz. change (1 - 1) with 0.
    rewrite div_int_zero. reflexivity.
Qed.

Lemma init_single_line_witness :
  (n_ilines Scenario.reader <> 1 /\ n_xlines Scenario.reader <> 1) /\
  init Edge.single_inline_handle = Exc ZeroDivisionError.
Proof.
  destruct (init_single_line Scenario.handle) as [Hok _].
  destruct (init_single_line Edge.single_inline_handle) as [_ Hfail].
  split.
  - apply Hok. reflexivity.
  - apply (Hfail [100] [10; 11; 12; 13] (F64.of_Z 8) [F64.of_Z 0; F64.of_Z 4]);
      vm_compute; reflexivity.
Defined.

(** ** The guard of the header *)

(** X7. On an index outside [0, n_ilines * n_xlines) the two guarded
    functions differ: [get_trace] raises IndexError, while
    [gen_trace_header] raises AttributeError, its message being formatted
    from [self.range_error], an attribute the class never sets. *)
Theorem gen_trace_header_bad_index (r : SeismicReader) (index : Z) :
  ~ 0 <= index < n_ilines r * n_xlines r ->
  gen_trace_header r index = Exc (AttributeError "SeismicReader" "range_error") /\
  forall st, exists msg, get_trace r index st = (Exc (IndexError msg), st).
Proof.
  intros Hout. unfold gen_trace_header, get_trace.
  rewrite (trace_index_out_of_range r index Hout). split; [reflexivity|].
  intros st. eexists. reflexivity.
Qed.

Lemma gen_trace_header_bad_index_witness :
  gen_trace_header Scenario.reader (-1) =
    Exc (AttributeError "SeismicReader" "range_error").
Proof.
  destruct (gen_trace_header_bad_index Scenario.reader (-1)) as [H _].
  - simpl. lia.
  - exact H.
Defined.

(** ** Headers read back *)

Lemma result_bind_exc {A B} (e : exn) (k : A -> result B) : (Exc e ≫= k) = Exc e.
Proof. reflexivity. Qed.

Ltac bind_inv H x Hx :=
  match type of H with
  | (?m ≫= _) = Ok _ =>
      destruct m as [x|?] eqn:Hx;
      [ rewrite result_bind_ok in H; cbv beta iota in H
      | rewrite result_bind_exc in H; discriminate H ]
  end.

Lemma pack_i_inv (v : Z) (bs : list byte) :
  pack_i v = Ok bs -> - 2 ^ 31 <= v < 2 ^ 31 /\ bs = be_bytes 4 v.
Proof.
  unfold pack_i. destruct ((- 2 ^ 31 <=? v) && (v <? 2 ^ 31)) eqn:Hr; [|discriminate].
  intros [= <-]. apply andb_true_iff in Hr as [H1%Z.leb_le H2%Z.ltb_lt].
  split; [lia | reflexivity].
Qed.

Lemma pack_H_inv (v : Z) (bs : list byte) :
  pack_H v = Ok bs -> 0 <= v < 2 ^ 16 /\ bs = be_bytes 2 v.
Proof.
  unfold pack_H. destruct ((0 <=? v) && (v <? 2 ^ 16)) eqn:Hr; [|discriminate].
  intros [= <-]. apply andb_true_iff in Hr as [H1%Z.leb_le H2%Z.ltb_lt].
  split; [lia | reflexivity].
Qed.

(** A signed 32-bit field decodes to the value packed into it. *)
Lemma be_signed_4 (v : Z) :
  - 2 ^ 31 <= v < 2 ^ 31 -> be_signed (be_bytes 4 v) = v.
Proof.
  intros Hv. unfold be_signed. rewrite be_value_4, be_bytes_length.
  change (8 * Z.of_nat 4) with 32. change (32 - 1) with 31.
  change (2 ^ 31) with 2147483648 in *. change (2 ^ 32) with 4294967296.
  pose proof (Z.div_mod v 4294967296 ltac:(lia)) as Hdm.
  pose proof (Z.mod_pos_bound v 4294967296 ltac:(lia)) as Hm.
  destruct (Z.ltb_spec (v mod 4294967296) 2147483648); lia.
Qed.

Lemma be_unsigned_2 (v : Z) : 0 <= v < 2 ^ 16 -> be_value (be_bytes 2 v) = v.
Proof. intros Hv. rewrite be_value_2. apply Z.mod_small. lia. Qed.

(** X8. A header that [gen_trace_header] returns holds no truncated value.
    Whenever a record is returned, the index was valid, the record has 240
    bytes, and every field reads back as the value computed for the trace:
    the scale factor -100, the sample count and the sample interval as
    unsigned 16-bit, the scaled CDP X and Y and the inline and crossline
    numbers as signed 32-bit big-endian integers. *)
Theorem gen_trace_header_reads_back (r : SeismicReader) (index : Z) (f : Field) :
  gen_trace_header r index = Ok f ->
  0 <= index < n_ilines r * n_xlines r /\
  kind f = "trace"%string /\ length (buf f) = 240%nat /\
  exists cdp_x cdp_y inline_3d crossline_3d interval,
    trace_header_values r index = Ok (cdp_x, cdp_y, inline_3d, crossline_3d) /\
    (zf ← F64.mul_int (r_zinc r) 1000; F64.to_int zf) = Ok interval /\
    be_signed (slice 70 72 (buf f)) = -100 /\
    be_value (slice 114 116 (buf f)) = n_samples r /\
    be_value (slice 116 118 (buf f)) = interval /\
    be_signed (slice 180 184 (buf f)) = cdp_x /\
    be_signed (slice 184 188 (buf f)) = cdp_y /\
    be_signed (slice 188 192 (buf f)) = inline_3d /\
    be_signed (slice 192 196 (buf f)) = crossline_3d.
Proof.
  intros H. unfold gen_trace_header in H.
  destruct (negb ((0 <=? index) && (index <? n_ilines r * n_xlines r))) eqn:Hg;
    [discriminate H|].
  apply negb_false_iff, andb_true_iff in Hg as [H0%Z.leb_le H1%Z.ltb_lt].
  split; [lia|].
  destruct (trace_header_values r index) as [[[[cx cy] i3] x3]|e] eqn:Hv;
    [rewrite result_bind_ok in H; cbv beta iota in H
    | rewrite result_bind_exc in H; discriminate H].
  change (pack_h (-100)) with (Ok (be_bytes 2 (-100))) in H.
  rewrite result_bind_ok in H.
  bind_inv H bx Hbx. bind_inv H by' Hby. bind_inv H bi Hbi. bind_inv H bc Hbc.
  bind_inv H bn Hbn. bind_inv H zf Hzf. bind_inv H zi Hzi. bind_inv H bz Hbz.
  apply pack_i_inv in Hbx as [Rx ->]. apply pack_i_inv in Hby as [Ry ->].
  apply pack_i_inv in Hbi as [Ri ->]. apply pack_i_inv in Hbc as [Rc ->].
  apply pack_H_inv in Hbn as [Rn ->]. apply pack_H_inv in Hbz as [Rz ->].
  injection H as <-. cbn [buf kind].
  rewrite header_layout by apply be_bytes_length.
  destruct (header_layout_facts (be_bytes 2 (-100)) (be_bytes 4 cx)
              (be_bytes 4 cy) (be_bytes 4 i3) (be_bytes 4 x3)
              (be_bytes 2 (n_samples r)) (be_bytes 2 zi))
    as (Hlen & F1 & F2 & F3 & F4 & F5 & F6 & F7 & _);
    try apply be_bytes_length.
  split; [reflexivity|]. split; [exact Hlen|].
  exists cx, cy, i3, x3, zi.
  split; [reflexivity|]. split; [rewrite ?Hzf, result_bind_ok; exact Hzi|].
  rewrite F1, F2, F3, F4, F5, F6, F7.
  rewrite !be_signed_4, !be_unsigned_2 by assumption.
  repeat split; reflexivity.
Qed.

Lemma gen_trace_header_reads_back_witness :
  exists f,
    gen_trace_header Scenario.reader 5 = Ok f /\
    be_signed (slice 180 184 (buf f)) = 100100 /\
    be_signed (slice 188 192 (buf f)) = 102 /\
    be_signed (slice 192 196 (buf f)) = 11.
Proof.
  destruct (gen_trace_header Scenario.reader 5) as [f|e] eqn:Hf;
    [|vm_compute in Hf; discriminate Hf].
  destruct (gen_trace_header_reads_back Scenario.reader 5 f Hf)
    as (_ & _ & _ & cx & cy & i3 & x3 & zi & Hv & _ & _ & _ & _ & Hx & _ & Hi & Hc).
  assert (Hv' : trace_header_values Scenario.reader 5 = Ok (100100, 200100, 102, 11))
    by (vm_compute; reflexivity).
  rewrite Hv' in Hv. injection Hv as <- <- <- <-.
  exists f. repeat split; assumption.
Defined.

(** ** Reading the inline or crossline of an annotation number *)

Lemma independent_copy_ext (fh : ZgyReader) (read1 read2 : M loc) (st : state)
    (key : slab_key) (d : ndarray) :
  (forall s, read1 s = read2 s) ->
  independent_copy fh read2 st key d -> independent_copy fh read1 st key d.
Proof.
  intros Heq (l & st' & chunk & Hrun & Hrest).
  exists l, st', chunk. rewrite Heq. split; [exact Hrun|].
  destruct Hrest as (H1 & H2 & H3 & H4 & H5 & H6 & H7 & Hmut).
  repeat (split; [assumption|]).
  intros v st2. destruct (Hmut v) as (M1 & M2 & M3 & l2 & st3 & Hrun2 & Hl2).
  repeat (split; [assumption|]). exists l2, st3. by rewrite Heq.
Qed.

(** An integer range from [start] to [start + size * step]: [size] pairwise
    different entries in progression. *)
Lemma np_arange_intc_full (start stop step size : Z) (axis : list Z) :
  np_arange_intc start stop step = Ok axis ->
  stop = start + size * step -> 0 <= size ->
  Intc.in_range start -> Intc.in_range stop ->
  distinct_axis axis = true /\
  forall i, 0 <= i < size -> axis !! Z.to_nat i = Some (start + i * step).
Proof.
  intros Har Hstop Hsz Hrs Hre.
  destruct (np_arange_intc_distinct start stop step axis Hrs Hre Har) as [Hd Hel].
  split; [exact Hd|]. intros i Hi.
  assert (Hlen : length axis = Z.to_nat size).
  { pose proof (np_arange_intc_step _ _ _ _ Har) as Hz.
    rewrite (np_arange_intc_length start stop step axis Hrs Hre Har). f_equal.
    replace (start - stop) with (- size * step) by lia.
    rewrite Z.div_mul by done. lia. }
  destruct (axis !! Z.to_nat i) as [a|] eqn:Ha.
  - rewrite (Hel _ _ Ha). by rewrite Z2Nat.id by lia.
  - apply lookup_ge_None in Ha. lia.
Qed.

Lemma get_trace_copy (fh : ZgyReader) (r : SeismicReader) (st : state) (index : Z) :
  init fh = Ok r -> size_ok fh -> cache_ok fh st ->
  0 <= index < n_ilines r * n_xlines r ->
  independent_copy fh (get_trace r index) st
    (TraceSlab (64 * (index / n_xlines r / 64)) (64 * (index mod n_xlines r / 64)))
    (Nd1 (trace_at fh (index / n_xlines r) (index mod n_xlines r))).
Proof.
  intros Hinit Hsz Hok Hidx.
  destruct (reader_sizes fh r Hinit) as (Hld & _ & H0 & H1 & _).
  assert (Hnn : 0 <= n_ilines r).
  { unfold size_ok, size_at in *. destruct (size fh) as [[ni nj] nk]. lia. }
  destruct (trace_index_split _ _ _ Hnn Hidx) as (Hil & Hxl & _).
  unfold get_trace. rewrite (trace_index_in_range r index Hidx).
  unfold load_trace_chunk. rewrite Hld.
  apply cached_read_independent; [done | | done | apply select_trace].
  apply (slab_in_grid_trace fh); [done | |]; apply valid_in_grid; lia.
Qed.

(** X9. With integral annotations (the stop of the range being
    [int(start) + count * int(inc)], within a C int), reading by number
    reads the line that carries the number: for every valid ordinal [i],
    [read_inline_number] at [int(start) + i * int(inc)] returns the stored
    samples of inline [i] in a buffer of the caller's own, and
    [read_crossline_number] does so for crosslines. *)
Theorem read_by_number_reads_line (fh : ZgyReader) (r : SeismicReader)
    (st : state) :
  init fh = Ok r -> size_ok fh -> cache_ok fh st ->
  (forall start stop step i,
     haxis_bounds fh 0 = Ok (start, stop) ->
     F64.to_int (fst (annotinc fh)) = Ok step ->
     stop = start + n_ilines r * step ->
     Intc.in_range start -> Intc.in_range stop ->
     0 <= i < n_ilines r ->
     independent_copy fh (read_inline_number r (start + i * step)) st
       (InlineSlab (64 * (i / 64)))
       (Nd2 (tab (n_xlines r) (fun j => tab (n_samples r) (fun k => bulk fh i j k))))) /\
  (forall start stop step j,
     haxis_bounds fh 1 = Ok (start, stop) ->
     F64.to_int (snd (annotinc fh)) = Ok step ->
     stop = start + n_xlines r * step ->
     Intc.in_range start -> Intc.in_range stop ->
     0 <= j < n_xlines r ->
     independent_copy fh (read_crossline_number r (start + j * step)) st
       (CrosslineSlab (64 * (j / 64)))
       (Nd2 (tab (n_ilines r) (fun i => tab (n_samples r) (fun k => bulk fh i j k))))).
Proof.
  intros Hinit Hsz Hok.
  destruct (init_inv fh r Hinit) as (_ & _ & _ & _ & Hil & Hxl & _).
  split.
  - intros start stop step i Hb Hs Hstop Hrs Hre Hi.
    rewrite (haxis_bounds_get_haxis fh 0 start stop step Hb Hs) in Hil.
    destruct (np_arange_intc_full start stop step (n_ilines r) (ilines r)
                Hil Hstop ltac:(lia) Hrs Hre) as [Hd Hel].
    pose proof (coord_to_index_distinct (ilines r) false _ _ Hd (Hel i Hi)) as Hc.
    rewrite Z2Nat.id in Hc by lia.
    rewrite <- (inline_plane_inside fh r i Hinit Hi).
    apply (independent_copy_ext fh _ (read_inline r i)).
    + intros s. unfold read_inline_number. by rewrite lift_bind, Hc.
    + by apply read_inline_copy, valid_in_grid.
  - intros start stop step j Hb Hs Hstop Hrs Hre Hj.
    rewrite (haxis_bounds_get_haxis fh 1 start stop step Hb Hs) in Hxl.
    destruct (np_arange_intc_full start stop step (n_xlines r) (xlines r)
                Hxl Hstop ltac:(lia) Hrs Hre) as [Hd Hel].
    pose proof (coord_to_index_distinct (xlines r) false _ _ Hd (Hel j Hj)) as Hc.
    rewrite Z2Nat.id in Hc by lia.
    rewrite <- (crossline_plane_inside fh r j Hinit Hj).
    apply (independent_copy_ext fh _ (read_crossline r j)).
    + intros s. unfold read_crossline_number. by rewrite lift_bind, Hc.
    + by apply read_crossline_copy, valid_in_grid.
Qed.

Lemma read_by_number_reads_line_witness :
  independent_copy Scenario.handle (read_inline_number Scenario.reader 104)
    Scenario.fresh (InlineSlab 0)
    (Nd2 (tab 4 (fun j => tab 2 (fun k => bulk Scenario.handle 2 j k)))) /\
  independent_copy Scenario.handle (read_crossline_number Scenario.reader 13)
    Scenario.fresh (CrosslineSlab 0)
    (Nd2 (tab 3 (fun i => tab 2 (fun k => bulk Scenario.handle i 3 k)))).
Proof.
  destruct (read_by_number_reads_line Scenario.handle Scenario.reader Scenario.fresh)
    as [Hil Hxl].
  - reflexivity.
  - unfold size_ok. simpl. lia.
  - intros k l Hin. cbn in Hin. by apply elem_of_nil in Hin.
  - split.
    + apply (Hil 100 106 2 2).
      * vm_compute; reflexivity.
      * vm_compute; reflexivity.
      * vm_compute; reflexivity.
      * vm_compute; split; discriminate.
      * vm_compute; split; discriminate.
      * vm_compute; split; [discriminate | reflexivity].
    + apply (Hxl 10 14 1 3).
      * vm_compute; reflexivity.
      * vm_compute; reflexivity.
      * vm_compute; reflexivity.
      * vm_compute; split; discriminate.
      * vm_compute; split; discriminate.
      * vm_compute; split; [discriminate | reflexivity].
Defined.

(** ** The whole volume and its windows *)

Lemma nd3_at_tab3 {A} (d0 d1 d2 : Z) (f : Z -> Z -> Z -> A) (a b c : Z) :
  0 <= a < d0 -> 0 <= b < d1 -> 0 <= c < d2 ->
  nd3_at (tab3 (d0, d1, d2) f) a b c = Some (f a b c).
Proof.
  intros Ha Hb Hc. unfold nd3_at, tab3.
  rewrite tab_lookup by done. cbn [mbind option_bind].
  rewrite tab_lookup by done. cbn [mbind option_bind].
  by rewrite tab_lookup.
Qed.

Lemma read_volume_run (fh : ZgyReader) (r : SeismicReader) (st : state) :
  init fh = Ok r -> size_ok fh ->
  read_volume r st =
    (Ok (length (heap st)),
     set_heap (heap st ++
               [Nd3 (tab3 (n_ilines r, n_xlines r, n_samples r)
                          (fun i j k => bulk fh i j k))]) st).
Proof.
  intros Hinit Hsz.
  destruct (reader_sizes fh r Hinit) as (_ & Hfh & H0 & H1 & H2).
  assert (Hnn : 0 <= n_ilines r /\ 0 <= n_xlines r /\ 0 <= n_samples r).
  { unfold size_ok, size_at in *. destruct (size fh) as [[ni nj] nk]. lia. }
  unfold read_volume. rewrite read_subvolume_spec; [|lia | lia | lia |].
  2:{ rewrite Hfh. apply in_grid_inside; lia. }
  rewrite !Z.sub_0_r, Hfh. do 5 f_equal. unfold tab3.
  apply tab_ext; intros i Hi. apply tab_ext; intros j Hj.
  apply tab_ext; intros k Hk. rewrite !Z.add_0_l.
  apply store_sample_inside; lia.
Qed.



(** X11. A window inside the volume is that part of the whole volume:
    element [a, b, c] of [read_subvolume] on the window is element
    [min_il + a, min_xl + b, min_z + c] of [read_volume], the stored sample
    at that position; the second read leaves the result of the first as it
    was. *)
Theorem read_subvolume_window_of_volume (fh : ZgyReader) (r : SeismicReader)
    (st : state) (min_il max_il min_xl max_xl min_z max_z : Z) :
  init fh = Ok r -> size_ok fh ->
  0 <= min_il <= max_il -> max_il <= n_ilines r ->
  0 <= min_xl <= max_xl -> max_xl <= n_xlines r ->
  0 <= min_z <= max_z -> max_z <= n_samples r ->
  exists lv st1 vol lw st2 win,
    read_volume r st = (Ok lv, st1) /\
    read_subvolume r min_il max_il min_xl max_xl min_z max_z st1 = (Ok lw, st2) /\
    lv <> lw /\
    heap st2 !! lv = Some (Nd3 vol) /\ heap st2 !! lw = Some (Nd3 win) /\
    forall a b c,
      0 <= a < max_il - min_il -> 0 <= b < max_xl - min_xl ->
      0 <= c < max_z - min_z ->
      nd3_at win a b c = Some (bulk fh (min_il + a) (min_xl + b) (min_z + c)) /\
      nd3_at vol (min_il + a) (min_xl + b) (min_z + c) = nd3_at win a b c.
Proof.
  intros Hinit Hsz Hi Hi' Hx Hx' Hz Hz'.
  destruct (reader_sizes fh r Hinit) as (_ & Hfh & H0 & H1 & H2).
  eexists _, _, _, _, _, _.
  split; [by apply read_volume_run|].
  split.
  { apply read_subvolume_spec; [lia | lia | lia |].
    rewrite Hfh. apply in_grid_inside; lia. }
  cbn [heap set_heap]. rewrite length_app. cbn [length].
  split; [lia|].
  split; [apply lookup_app_l_Some, heap_lookup_fresh|].
  split.
  { rewrite lookup_app_r by (rewrite length_app; cbn [length]; lia).
    rewrite length_app. cbn [length].
    by replace (length (heap st) + 1 - (length (heap st) + 1))%nat with 0%nat by lia. }
  intros a b c Ha Hb Hc.
  rewrite !nd3_at_tab3 by lia. rewrite Hfh.
  rewrite store_sample_inside by lia. split; reflexivity.
Qed.

Lemma read_subvolume_window_of_volume_witness :
  exists lv st1 vol lw st2 win,
    read_volume Scenario.reader Scenario.fresh = (Ok lv, st1) /\
    read_subvolume Scenario.reader 1 3 2 4 0 2 st1 = (Ok lw, st2) /\
    heap st2 !! lv = Some (Nd3 vol) /\ heap st2 !! lw = Some (Nd3 win) /\
    nd3_at win 1 1 1 = Some (bulk Scenario.handle 2 3 1) /\
    nd3_at vol 2 3 1 = nd3_at win 1 1 1.
Proof.
  destruct (read_subvolume_window_of_volume Scenario.handle Scenario.reader
              Scenario.fresh 1 3 2 4 0 2)
    as (lv & st1 & vol & lw & st2 & win & Hv & Hw & _ & Hlv & Hlw & Hel).
  - reflexivity.
  - unfold size_ok. simpl. lia.
  - lia.
  - simpl. lia.
  - lia.
  - simpl. lia.
  - lia.
  - simpl. lia.
  - exists lv, st1, vol, lw, st2, win.
    destruct (Hel 1 1 1) as [E1 E2]; [lia | lia | lia |].
    repeat split; assumption.
Defined.

(** ** The four cached readers on one sample *)

Lemma cached_read_run (fh : ZgyReader) (key : slab_key) (s : selector)
    (d : ndarray) (st : state) :
  size_ok fh -> slab_in_grid fh key = true -> cache_ok fh st ->
  select3 (slab_content fh key) s = Ok d ->
  exists l st',
    (c ← get_or_load fh key; v ← np_index c s; np_copy v) st = (Ok l, st') /\
    heap st' !! l = Some d /\ cache_ok fh st' /\ extends st st'.
Proof.
  intros Hsz Hg Hok Hsel.
  destruct (cached_read_spec fh key s d st Hsz Hg Hok Hsel)
    as (l & st' & _ & Hrun & _ & _ & Hl & _ & _ & _ & Hok' & Hext).
  by exists l, st'.
Qed.

Lemma flat_index_parts (n_xl il xl : Z) :
  0 <= xl < n_xl ->
  (il * n_xl + xl) / n_xl = il /\ (il * n_xl + xl) mod n_xl = xl.
Proof.
  intros Hxl. split.
  - symmetry. apply (Z.div_unique _ _ il xl); [left; done | lia].
  - symmetry. apply (Z.mod_unique _ _ il xl); [left; done | lia].
Qed.

(** X12. The four cached readers agree on every stored sample. Run one
    after the other on a valid inline [il], crossline [xl] and sample [k],
    [get_trace] at the flat index [il * n_xlines + xl], [read_inline],
    [read_crossline] and [read_zslice] return four buffers that all hold the
    stored sample (il, xl, k) at their own position of it: [k] of the trace,
    [xl, k] of the inline, [il, k] of the crossline, [il, xl] of the slice;
    no read disturbs the result of an earlier one. *)
Theorem cached_readers_agree (fh : ZgyReader) (r : SeismicReader) (st : state)
    (il xl k : Z) :
  init fh = Ok r -> size_ok fh -> cache_ok fh st ->
  0 <= il < n_ilines r -> 0 <= xl < n_xlines r -> 0 <= k < n_samples r ->
  exists lt li lx lz st' t p q z,
    (lt ← get_trace r (il * n_xlines r + xl);
     li ← read_inline r il;
     lx ← read_crossline r xl;
     lz ← read_zslice r k;
     mret (lt, li, lx, lz)) st = (Ok (lt, li, lx, lz), st') /\
    heap st' !! lt = Some (Nd1 t) /\ heap st' !! li = Some (Nd2 p) /\
    heap st' !! lx = Some (Nd2 q) /\ heap st' !! lz = Some (Nd2 z) /\
    t !! Z.to_nat k = Some (bulk fh il xl k) /\
    (p !! Z.to_nat xl ≫= fun row => row !! Z.to_nat k) = Some (bulk fh il xl k) /\
    (q !! Z.to_nat il ≫= fun row => row !! Z.to_nat k) = Some (bulk fh il xl k) /\
    (z !! Z.to_nat il ≫= fun row => row !! Z.to_nat xl) = Some (bulk fh il xl k).
Proof.
  intros Hinit Hsz Hok Hil Hxl Hk.
  destruct (reader_sizes fh r Hinit) as (Hld & Hfh & H0 & H1 & H2).
  destruct (flat_index_parts (n_xlines r) il xl Hxl) as [Hdiv Hmod].
  assert (Hidx : 0 <= il * n_xlines r + xl < n_ilines r * n_xlines r) by nia.
  assert (Ht : exists lt st1, get_trace r (il * n_xlines r + xl) st = (Ok lt, st1) /\
             heap st1 !! lt = Some (Nd1 (trace_at fh il xl)) /\
             cache_ok fh st1 /\ extends st st1).
  { unfold get_trace. rewrite (trace_index_in_range r _ Hidx), Hdiv, Hmod.
    unfold load_trace_chunk. rewrite Hld.
    apply cached_read_run; [done | | done | apply select_trace].
    apply (slab_in_grid_trace fh); [done | |]; apply valid_in_grid; lia. }
  destruct Ht as (lt & st1 & Rt & Lt & Ok1 & E1).
  assert (Hi : exists li st2, read_inline r il st1 = (Ok li, st2) /\
             heap st2 !! li = Some (Nd2 (inline_plane fh il)) /\
             cache_ok fh st2 /\ extends st1 st2).
  { unfold read_inline, load_inline_chunk. rewrite Hld.
    apply cached_read_run; [done | | done | apply select_inline].
    apply (slab_in_grid_inline fh); [done|]. rewrite H0. by apply valid_in_grid. }
  destruct Hi as (li & st2 & Ri & Li & Ok2 & E2).
  assert (Hx : exists lx st3, read_crossline r xl st2 = (Ok lx, st3) /\
             heap st3 !! lx = Some (Nd2 (crossline_plane fh xl)) /\
             cache_ok fh st3 /\ extends st2 st3).
  { unfold read_crossline, load_crossline_chunk. rewrite Hld.
    apply cached_read_run; [done | | done | apply select_crossline].
    apply (slab_in_grid_crossline fh); [done|]. rewrite H1. by apply valid_in_grid. }
  destruct Hx as (lx & st3 & Rx & Lx & Ok3 & E3).
  assert (Hz : exists lz st4, read_zslice r k st3 = (Ok lz, st4) /\
             heap st4 !! lz = Some (Nd2 (zslice_plane fh k)) /\
             cache_ok fh st4 /\ extends st3 st4).
  { unfold read_zslice, load_zslice_chunk. rewrite Hld.
    apply cached_read_run; [done | | done | apply select_zslice].
    apply (slab_in_grid_zslice fh); [done|]. rewrite H2. by apply valid_in_grid. }
  destruct Hz as (lz & st4 & Rz & Lz & Ok4 & E4).
  exists lt, li, lx, lz, st4, (trace_at fh il xl), (inline_plane fh il),
    (crossline_plane fh xl), (zslice_plane fh k).
  split.
  { unfold mbind, M_bind. rewrite Rt, Ri, Rx, Rz. reflexivity. }
  split; [by do 3 (eapply extends_lookup; [eassumption|])|].
  split; [by do 2 (eapply extends_lookup; [eassumption|])|].
  split; [by eapply extends_lookup|]. split; [done|].
  unfold trace_at, inline_plane, crossline_plane, zslice_plane.
  rewrite H0, H1, H2.
  rewrite !(tab_lookup (n_ilines r)), !(tab_lookup (n_xlines r)) by done.
  cbn [mbind option_bind].
  rewrite !(tab_lookup (n_samples r)), !(tab_lookup (n_xlines r)) by done.
  rewrite store_sample_inside by lia. repeat split; reflexivity.
Qed.

Lemma cached_readers_agree_witness :
  exists lt li lx lz st',
    (lt ← get_trace Scenario.reader 11;
     li ← read_inline Scenario.reader 2;
     lx ← read_crossline Scenario.reader 3;
     lz ← read_zslice Scenario.reader 1;
     mret (lt, li, lx, lz)) Scenario.fresh = (Ok (lt, li, lx, lz), st').
Proof.
  destruct (cached_readers_agree Scenario.handle Scenario.reader Scenario.fresh 2 3 1)
    as (lt & li & lx & lz & st' & t & p & q & z & Hrun & _).
  - reflexivity.
  - unfold size_ok. simpl. lia.
  - intros k l Hin. cbn in Hin. by apply elem_of_nil in Hin.
  - simpl. lia.
  - simpl. lia.
  - simpl. lia.
  - exists lt, li, lx, lz, st'. exact Hrun.
Defined.

(** ** What a read leaves of the heap *)

Lemma keeps_ret {A} (a : A) : keeps_buffers (mret a : M A).
Proof. intros st res st' [= <- <-]. exists []. by rewrite app_nil_r. Qed.

Lemma keeps_raise {A} (e : exn) : keeps_buffers (raise e : M A).
Proof. intros st res st' [= <- <-]. exists []. by rewrite app_nil_r. Qed.

Lemma keeps_lift {A} (x : result A) : keeps_buffers (lift x).
Proof. intros st res st' [= <- <-]. exists []. by rewrite app_nil_r. Qed.

Lemma keeps_bind {A B} (m : M A) (k : A -> M B) :
  keeps_buffers m -> (forall a, keeps_buffers (k a)) -> keeps_buffers (m ≫= k).
Proof.
  intros Hm Hk st res st' Hrun. unfold mbind, M_bind in Hrun.
  destruct (m st) as [[a|e] st1] eqn:Hmst.
  - destruct (Hm _ _ _ Hmst) as [ext1 H1].
    destruct (Hk a _ _ _ Hrun) as [ext2 H2].
    exists (ext1 ++ ext2). by rewrite H2, H1, app_assoc.
  - injection Hrun as <- <-. by apply (Hm _ _ _ Hmst).
Qed.

Lemma keeps_alloc (v : ndarray) : keeps_buffers (alloc v).
Proof. intros st res st' [= <- <-]. by exists [v]. Qed.

Lemma keeps_np_index (a : loc) (s : selector) : keeps_buffers (np_index a s).
Proof.
  intros st res st' Hrun. unfold np_index in Hrun.
  destruct (read_view _ _); injection Hrun as <- <-; exists []; by rewrite app_nil_r.
Qed.

Lemma keeps_np_copy (v : view) : keeps_buffers (np_copy v).
Proof.
  intros st res st' Hrun. unfold np_copy in Hrun.
  destruct (read_view _ _).
  - by apply (keeps_alloc _ _ _ _ Hrun).
  - injection Hrun as <- <-. exists []. by rewrite app_nil_r.
Qed.

(** The buffer a ranged read fills is the one just allocated for it. *)
Lemma keeps_zeros_read (fh : ZgyReader) (shape start : Z * Z * Z) :
  keeps_buffers (b ← np_zeros3 shape; _ ← zgy_read fh start b; mret b).
Proof.
  intros st res st' Hrun. unfold mbind, M_bind, np_zeros3 in Hrun.
  destruct shape as [[d0 d1] d2].
  destruct ((d0 <? 0) || (d1 <? 0) || (d2 <? 0)).
  - injection Hrun as <- <-. exists []. by rewrite app_nil_r.
  - rewrite alloc_spec in Hrun. unfold zgy_read in Hrun.
    cbn [heap set_heap] in Hrun. rewrite heap_lookup_fresh in Hrun.
    destruct (in_grid _ _ _).
    + rewrite heap_insert_fresh in Hrun. injection Hrun as <- <-.
      cbn [heap set_heap]. by eexists.
    + injection Hrun as <- <-. cbn [heap set_heap]. by eexists.
Qed.

Lemma keeps_get_or_load (fh : ZgyReader) (k : slab_key) :
  keeps_buffers (get_or_load fh k).
Proof.
  intros st res st' Hrun. unfold get_or_load in Hrun.
  destruct (cache_lookup k (cache st)).
  - injection Hrun as <- <-. exists []. by rewrite app_nil_r.
  - destruct (load_slab fh k st) as [[l|e] st1] eqn:Hload;
      injection Hrun as <- <-; cbn [heap set_cache];
      by apply (keeps_zeros_read fh _ _ _ _ _ Hload).
Qed.

Lemma keeps_cached_read (fh : ZgyReader) (k : slab_key) (s : selector) :
  keeps_buffers (c ← get_or_load fh k; v ← np_index c s; np_copy v).
Proof.
  apply keeps_bind; [apply keeps_get_or_load|]. intros c.
  apply keeps_bind; [apply keeps_np_index|]. intros v. apply keeps_np_copy.
Qed.

(** X13. No read changes a buffer that was there before it. In any state,
    returning or raising, each of the nine reading functions leaves the
    heap it found followed by new buffers only: an array a caller holds is
    never written by a later read. *)
Theorem reads_keep_buffers (r : SeismicReader) :
  (forall i, keeps_buffers (read_inline r i)) /\
  (forall n, keeps_buffers (read_inline_number r n)) /\
  (forall j, keeps_buffers (read_crossline r j)) /\
  (forall n, keeps_buffers (read_crossline_number r n)) /\
  (forall k, keeps_buffers (read_zslice r k)) /\
  (forall c, keeps_buffers (read_zslice_coord r c)) /\
  (forall a b c d e f, keeps_buffers (read_subvolume r a b c d e f)) /\
  keeps_buffers (read_volume r) /\
  (forall index, keeps_buffers (get_trace r index)).
Proof.
  assert (Hil : forall i, keeps_buffers (read_inline r i))
    by (intros i; apply keeps_cached_read).
  assert (Hxl : forall j, keeps_buffers (read_crossline r j))
    by (intros j; apply keeps_cached_read).
  assert (Hz : forall k, keeps_buffers (read_zslice r k))
    by (intros k; apply keeps_cached_read).
  assert (Hsub : forall a b c d e f, keeps_buffers (read_subvolume r a b c d e f))
    by (intros; apply keeps_zeros_read).
  repeat split; try assumption.
  - intros n. apply keeps_bind; [apply keeps_lift | done].
  - intros n. apply keeps_bind; [apply keeps_lift | done].
  - intros c. apply keeps_bind; [apply keeps_lift | done].
  - apply Hsub.
  - intros index. unfold get_trace.
    destruct (negb _); [apply keeps_raise | apply keeps_cached_read].
Qed.

(** ** Reading the same ordinal twice *)

Lemma cache_lookup_of_elem (k : slab_key) (c : list (slab_key * loc)) (l : loc) :
  (k, l) ∈ c -> exists l', cache_lookup k c = Some l' /\ (k, l') ∈ c.
Proof.
  induction c as [|[k' l'] c IH]; intros Hin; [by apply elem_of_nil in Hin|].
  simpl. destruct (decide (k' = k)) as [->|Hne].
  - exists l'. split; [done | left].
  - apply elem_of_cons in Hin as [[= -> ->]|Hin]; [done|].
    destruct (IH Hin) as (l0 & Hl0 & Hin0). exists l0. split; [done | by right].
Qed.

Lemma cached_read_twice (fh : ZgyReader) (key : slab_key) (s : selector)
    (d : ndarray) (st : state) :
  size_ok fh -> slab_in_grid fh key = true -> cache_ok fh st ->
  (0 < cache_capacity st)%nat ->
  select3 (slab_content fh key) s = Ok d ->
  rereads_warm (c ← get_or_load fh key; v ← np_index c s; np_copy v) st d.
Proof.
  intros Hsz Hg Hok Hcap Hsel.
  destruct (cached_read_spec fh key s d st Hsz Hg Hok Hsel)
    as (l1 & st1 & chunk & Hrun & _ & Hcached & Hl1 & _ & _ & _ & Hok1 & _).
  destruct (cache_lookup_of_elem key (cache st1) chunk (Hcached Hcap))
    as (c' & Hlook & Hin).
  pose proof (Hok1 key c' Hin) as Hc'.
  pose proof (lookup_lt_Some _ _ _ Hl1) as Hlt.
  exists l1, st1, (length (heap st1)),
    (set_heap (heap st1 ++ [d])
       (set_cache ((key, c') :: cache_remove key (cache st1)) st1)).
  split; [exact Hrun|]. split.
  { unfold mbind at 1. unfold M_bind at 1. unfold get_or_load. rewrite Hlook.
    exact (view_copy_spec c' (slab_content fh key) s d
             (set_cache ((key, c') :: cache_remove key (cache st1)) st1) Hc' Hsel). }
  cbn [heap set_heap set_cache].
  split; [lia|]. split; [by apply lookup_app_l_Some|].
  split; [apply heap_lookup_fresh | reflexivity].
Qed.

(** X14. A second read of the same ordinal is served from the cached chunk.
    With a cache of at least one entry, calling [read_inline],
    [read_crossline], [read_zslice] or [get_trace] twice in a row on a valid
    ordinal returns two different buffers with the same stored samples, and
    the second call allocates nothing but its result: no chunk is loaded
    again. *)
Theorem repeated_read_is_warm (fh : ZgyReader) (r : SeismicReader) (st : state) :
  init fh = Ok r -> size_ok fh -> cache_ok fh st ->
  (0 < cache_capacity st)%nat ->
  (forall i, 0 <= i < n_ilines r ->
     rereads_warm (read_inline r i) st
       (Nd2 (tab (n_xlines r) (fun j => tab (n_samples r) (fun k => bulk fh i j k))))) /\
  (forall j, 0 <= j < n_xlines r ->
     rereads_warm (read_crossline r j) st
       (Nd2 (tab (n_ilines r) (fun i => tab (n_samples r) (fun k => bulk fh i j k))))) /\
  (forall k, 0 <= k < n_samples r ->
     rereads_warm (read_zslice r k) st
       (Nd2 (tab (n_ilines r) (fun i => tab (n_xlines r) (fun j => bulk fh i j k))))) /\
  (forall index, 0 <= index < n_ilines r * n_xlines r ->
     rereads_warm (get_trace r index) st
       (Nd1 (tab (n_samples r)
               (fun k => bulk fh (index / n_xlines r) (index mod n_xlines r) k)))).
Proof.
  intros Hinit Hsz Hok Hcap.
  destruct (reader_sizes fh r Hinit) as (Hld & Hfh & H0 & H1 & H2).
  repeat split.
  - intros i Hi. rewrite <- (inline_plane_inside fh r i Hinit Hi).
    unfold read_inline, load_inline_chunk. rewrite Hld.
    apply cached_read_twice; [done | | done | done | apply select_inline].
    apply (slab_in_grid_inline fh); [done|]. rewrite H0. by apply valid_in_grid.
  - intros j Hj. rewrite <- (crossline_plane_inside fh r j Hinit Hj).
    unfold read_crossline, load_crossline_chunk. rewrite Hld.
    apply cached_read_twice; [done | | done | done | apply select_crossline].
    apply (slab_in_grid_crossline fh); [done|]. rewrite H1. by apply valid_in_grid.
  - intros k Hk. rewrite <- (zslice_plane_inside fh r k Hinit Hk).
    unfold read_zslice, load_zslice_chunk. rewrite Hld.
    apply cached_read_twice; [done | | done | done | apply select_zslice].
    apply (slab_in_grid_zslice fh); [done|]. rewrite H2. by apply valid_in_grid.
  - intros index Hidx.
    assert (Hnn : 0 <= n_ilines r).
    { unfold size_ok, size_at in *. destruct (size fh) as [[ni nj] nk]. lia. }
    destruct (trace_index_split _ _ _ Hnn Hidx) as (Hil & Hxl & _).
    unfold get_trace. rewrite (trace_index_in_range r index Hidx).
    unfold load_trace_chunk. rewrite Hld.
    apply cached_read_twice; [done | | done | done |].
    { apply (slab_in_grid_trace fh); [done | |]; apply valid_in_grid; lia. }
    rewrite select_trace. unfold trace_at. cbn [loader_filehandle].
    rewrite H2. do 2 f_equal.
    apply tab_ext; intros k Hk. apply store_sample_inside; lia.
Qed.

Lemma repeated_read_is_warm_witness :
  rereads_warm (read_inline Scenario.reader 1) Scenario.fresh
    (Nd2 (tab 4 (fun j => tab 2 (fun k => bulk Scenario.handle 1 j k)))).
Proof.
  destruct (repeated_read_is_warm Scenario.handle Scenario.reader Scenario.fresh)
    as (Hil & _).
  - reflexivity.
  - unfold size_ok. simpl. lia.
  - intros k l Hin. cbn in Hin. by apply elem_of_nil in Hin.
  - simpl. lia.
  - apply (Hil 1). simpl. lia.
Defined.

(** ** The first sample coordinate *)

Lemma init_samples (fh : ZgyReader) (r : SeismicReader) :
  init fh = Ok r ->
  exists zspan,
    F64.int_mul (n_samples r) (zinc fh) = Ok zspan /\
    np_arange_f64 (zstart fh) (F64.add (zstart fh) zspan) (zinc fh) = Ok (samples r).
Proof.
  unfold init. destruct (size fh) as [[ni nj] nk] eqn:Hsz. intros Hi.
  bind_ok Hi il Hil. bind_ok Hi xl Hxl. bind_ok Hi zs Hzs. bind_ok Hi za Hza.
  bind_ok Hi e1 He1. bind_ok Hi n1 Hn1. bind_ok Hi e2 He2. bind_ok Hi n2 Hn2.
  injection Hi as <-. cbn [n_samples samples]. by exists zs.
Qed.

Lemma np_arange_f64_first (start stop step : spec_float) (l : list spec_float) :
  np_arange_f64 start stop step = Ok l -> l <> [] -> l !! 0%nat = Some start.
Proof.
  unfold np_arange_f64. destruct (F64.is_zero step); [discriminate|].
  destruct (F64.ceil _) as [len|]; [|discriminate].
  rewrite result_bind_ok. intros [= <-] Hne.
  destruct (Z.to_nat len) as [|n]; [done|]. reflexivity.
Qed.

(** X15. The start of the sample axis is ordinal 0. On a reader whose
    sample axis is not empty and starts at a number, looking the start
    coordinate [zstart] up gives ordinal 0, whatever the other samples are,
    and [read_zslice_coord] at [zstart] is [read_zslice] at 0. *)
Theorem zstart_is_ordinal_zero (fh : ZgyReader) (r : SeismicReader)
    (include_stop : bool) (st : state) :
  init fh = Ok r -> samples r <> [] -> F64.is_nan (zstart fh) = false ->
  samples r !! 0%nat = Some (zstart fh) /\
  coord_to_index (zstart fh) (samples r) include_stop = Ok 0 /\
  read_zslice_coord r (zstart fh) st = read_zslice r 0 st.
Proof.
  intros Hinit Hne Hnan.
  destruct (init_samples fh r Hinit) as (zspan & _ & Har).
  pose proof (np_arange_f64_first _ _ _ _ Har Hne) as Hfirst.
  assert (Hw : np_where_first (zstart fh) (samples r) = Some 0%nat).
  { destruct (samples r) as [|s0 rest]; [done|]. injection Hfirst as ->.
    cbn [np_where_first]. change (np_eqb ?a ?b) with (F64.eqb a b).
    by rewrite f64_eqb_refl. }
  split; [exact Hfirst|].
  assert (Hc : forall b, coord_to_index (zstart fh) (samples r) b = Ok 0)
    by (intros b; exact (coord_to_index_found _ _ b 0%nat Hw)).
  split; [apply Hc|].
  unfold read_zslice_coord. by rewrite lift_bind, Hc.
Qed.

Lemma zstart_is_ordinal_zero_witness :
  coord_to_index (zstart Scenario.handle) (samples Scenario.reader) false = Ok 0 /\
  read_zslice_coord Scenario.reader (zstart Scenario.handle) Scenario.fresh =
  read_zslice Scenario.reader 0 Scenario.fresh.
Proof.
  destruct (zstart_is_ordinal_zero Scenario.handle Scenario.reader false Scenario.fresh)
    as (_ & Hc & Hread).
  - reflexivity.
  - discriminate.
  - reflexivity.
  - split; [exact Hc | exact Hread].
Defined.

(** ** Past the brick grid *)

(** Outside the brick grid a miss is refused by the store: the cached read
    raises the store's error, and only the zero buffer made for the load is
    new. *)
Lemma cached_read_refused (fh : ZgyReader) (key : slab_key) (s : selector)
    (st : state) :
  size_ok fh -> cache_lookup key (cache st) = None ->
  in_grid fh (slab_start key)
          (nd_shape3 (tab3 (slab_shape fh key) (fun _ _ _ => F64.zero))) = false ->
  (c ← get_or_load fh key; v ← np_index c s; np_copy v) st =
    (Exc (StoreError "Requested brick position is outside the valid range"),
     set_heap
       (heap st ++ [Nd3 (tab3 (slab_shape fh key) (fun _ _ _ => F64.zero))]) st).
Proof.
  intros Hsz Hmiss Hout. unfold mbind at 1. unfold M_bind at 1.
  unfold get_or_load. rewrite Hmiss, load_slab_cases, Hout by done. reflexivity.
Qed.

Lemma in_grid_false (fh : ZgyReader) (i0 j0 k0 d0 d1 d2 : Z) :
  (i0 < 0 \/ grid_extent (size_at fh 0) < i0 + d0) \/
  (j0 < 0 \/ grid_extent (size_at fh 1) < j0 + d1) \/
  (k0 < 0 \/ grid_extent (size_at fh 2) < k0 + d2) ->
  in_grid fh (i0, j0, k0) (d0, d1, d2) = false.
Proof.
  intros Hout. destruct (in_grid fh (i0, j0, k0) (d0, d1, d2)) eqn:Hg; [|done].
  apply in_grid_spec in Hg. lia.
Qed.

(** X16. Past the bricks the store holds, a read fails as the store does.
    For an ordinal that is negative, or at or beyond the end of the last
    brick of its axis, [read_inline], [read_crossline] and [read_zslice] on
    a cache that does not hold the chunk (and a volume that is not empty
    along the axes before the one read) raise the store's error, not an
    IndexError; the cache is as it was, and the buffers already there are
    untouched. *)
Theorem reads_past_grid_are_refused (fh : ZgyReader) (r : SeismicReader)
    (st : state) :
  init fh = Ok r -> size_ok fh ->
  (forall i, i < 0 \/ grid_extent (n_ilines r) <= i ->
     cache_lookup (InlineSlab (64 * (i / 64))) (cache st) = None ->
     exists msg st',
       read_inline r i st = (Exc (StoreError msg), st') /\
       cache st' = cache st /\ exists ext, heap st' = heap st ++ ext) /\
  (forall j, j < 0 \/ grid_extent (n_xlines r) <= j ->
     0 < n_ilines r ->
     cache_lookup (CrosslineSlab (64 * (j / 64))) (cache st) = None ->
     exists msg st',
       read_crossline r j st = (Exc (StoreError msg), st') /\
       cache st' = cache st /\ exists ext, heap st' = heap st ++ ext) /\
  (forall k, k < 0 \/ grid_extent (n_samples r) <= k ->
     0 < n_ilines r -> 0 < n_xlines r ->
     cache_lookup (ZsliceSlab (64 * (k / 64))) (cache st) = None ->
     exists msg st',
       read_zslice r k st = (Exc (StoreError msg), st') /\
       cache st' = cache st /\ exists ext, heap st' = heap st ++ ext).
Proof.
  intros Hinit Hsz.
  destruct (reader_sizes fh r Hinit) as (Hld & Hfh & H0 & H1 & H2).
  assert (Hnn : 0 <= n_ilines r /\ 0 <= n_xlines r /\ 0 <= n_samples r).
  { unfold size_ok, size_at in *. destruct (size fh) as [[ni nj] nk]. lia. }
  assert (Hshape : forall k, slab_shape fh k =
            match k with
            | InlineSlab _ => (64, n_xlines r, n_samples r)
            | CrosslineSlab _ => (n_ilines r, 64, n_samples r)
            | ZsliceSlab _ => (n_ilines r, n_xlines r, 64)
            | TraceSlab _ _ => (64, 64, n_samples r)
            end).
  { intros k. unfold slab_shape. unfold size_at in *.
    destruct (size fh) as [[ni nj] nk]. by subst. }
  split; [|split].
  - intros i Hi Hmiss. unfold read_inline, load_inline_chunk. rewrite Hld.
    cbn [loader_filehandle]. rewrite cached_read_refused; [| done | done |].
    + eexists _, _. split; [reflexivity|]. cbn [cache heap set_heap].
      split; [reflexivity | by eexists].
    + rewrite Hshape.
      destruct (nd_shape3_tab3 64 (n_xlines r) (n_samples r)
                  (fun _ _ _ => F64.zero)) as (c1 & c2 & -> & _);
        [lia | lia | lia |].
      apply in_grid_false. left. rewrite H0. by apply grid_extent_outside.
  - intros j Hj Hpos Hmiss. unfold read_crossline, load_crossline_chunk.
    rewrite Hld. cbn [loader_filehandle].
    rewrite cached_read_refused; [| done | done |].
    + eexists _, _. split; [reflexivity|]. cbn [cache heap set_heap].
      split; [reflexivity | by eexists].
    + rewrite Hshape.
      destruct (nd_shape3_tab3 (n_ilines r) 64 (n_samples r)
                  (fun _ _ _ => F64.zero)) as (c1 & c2 & -> & _ & _ & Hc1 & _);
        [lia | lia | lia |].
      rewrite Hc1 by done.
      apply in_grid_false. right. left. rewrite H1. by apply grid_extent_outside.
  - intros k Hk Hpi Hpx Hmiss. unfold read_zslice, load_zslice_chunk.
    rewrite Hld. cbn [loader_filehandle].
    rewrite cached_read_refused; [| done | done |].
    + eexists _, _. split; [reflexivity|]. cbn [cache heap set_heap].
      split; [reflexivity | by eexists].
    + rewrite Hshape.
      destruct (nd_shape3_tab3 (n_ilines r) (n_xlines r) 64
                  (fun _ _ _ => F64.zero)) as (c1 & c2 & -> & _ & _ & _ & Hc2);
        [lia | lia | lia |].
      rewrite Hc2 by done.
      apply in_grid_false. right. right. rewrite H2. by apply grid_extent_outside.
Qed.

Lemma reads_past_grid_are_refused_witness :
  (exists msg st',
     read_inline Scenario.reader (-1) Scenario.fresh = (Exc (StoreError msg), st') /\
     cache st' = cache Scenario.fresh) /\
  (exists msg st',
     read_inline Scenario.reader 64 Scenario.fresh = (Exc (StoreError msg), st') /\
     cache st' = cache Scenario.fresh).
Proof.
  destruct (reads_past_grid_are_refused Scenario.handle Scenario.reader
              Scenario.fresh) as (Hil & _).
  - reflexivity.
  - unfold size_ok. simpl. lia.
  - split.
    + destruct (Hil (-1)) as (msg & st' & Hrun & Hc & _);
        [left; lia | reflexivity |].
      by exists msg, st'.
    + destruct (Hil 64) as (msg & st' & Hrun & Hc & _);
        [right; vm_compute; discriminate | reflexivity |].
      by exists msg, st'.
Defined.

(** ** Empty windows *)

(** X17. An empty inline range is not an error. With [max_il = min_il] at
    an inline position within the bricks of the volume, and crossline and
    sample ranges that are not empty and lie inside the volume,
    [read_subvolume] returns a new buffer with no inline in it, and leaves
    the cache as it was. *)
Theorem read_subvolume_empty (fh : ZgyReader) (r : SeismicReader) (st : state)
    (il min_xl max_xl min_z max_z : Z) :
  init fh = Ok r ->
  0 <= il < grid_extent (n_ilines r) ->
  0 <= min_xl < max_xl -> max_xl <= n_xlines r ->
  0 <= min_z < max_z -> max_z <= n_samples r ->
  exists l st',
    read_subvolume r il il min_xl max_xl min_z max_z st = (Ok l, st') /\
    heap st' !! l = Some (Nd3 []) /\
    heap st' = heap st ++ [Nd3 []] /\ cache st' = cache st.
Proof.
  intros Hinit Hil Hx Hx' Hz Hz'.
  destruct (reader_sizes fh r Hinit) as (_ & Hfh & H0 & H1 & H2).
  eexists _, _. split.
  { apply read_subvolume_spec; [lia | lia | lia |]. rewrite Hfh.
    apply in_grid_spec. rewrite H0, H1, H2.
    pose proof (grid_extent_covers (n_xlines r)).
    pose proof (grid_extent_covers (n_samples r)). lia. }
  cbn [heap set_heap cache]. unfold tab3. rewrite Z.sub_diag.
  change (tab 0 _) with (@nil (list (list spec_float))).
  split; [apply heap_lookup_fresh|]. split; reflexivity.
Qed.

Lemma read_subvolume_empty_witness :
  exists l st',
    read_subvolume Scenario.reader 7 7 0 4 0 2 Scenario.fresh = (Ok l, st') /\
    heap st' !! l = Some (Nd3 []).
Proof.
  destruct (read_subvolume_empty Scenario.handle Scenario.reader Scenario.fresh
              7 0 4 0 2)
    as (l & st' & Hrun & Hl & _);
    [ reflexivity | vm_compute; split; [discriminate | reflexivity]
    | lia | simpl; lia | lia | simpl; lia | ].
  exists l, st'. split; [exact Hrun | exact Hl].
Defined.

(** ** The lookup in full *)

Section FullLookup.
Context {A : Type} `{NpScalar A}.

(** X18. The lookup in full. It matches exactly: an ordinal below the axis
    length is returned only for an element equal to the coordinate. For a
    coordinate equal to no element: without [include_stop] the lookup
    raises "Coordinate {} not in axis"; with [include_stop], on an axis of
    two elements or more, it returns the axis length when the coordinate
    equals last + (last - previous), computed in the arithmetic of the
    axis elements (a C int sum wraps), and raises "Coordinate {} not in
    axis" otherwise; with [include_stop] on a shorter axis it fails with
    the IndexError of the out-of-bounds access to the last or to the
    previous element. *)
Theorem coord_to_index_exact (coord : A) (coords : list A) (include_stop : bool) :
  (forall n, coord_to_index coord coords include_stop = Ok n ->
     (exists i c, n = Z.of_nat i /\ coords !! i = Some c /\ np_eqb c coord = true) \/
     (include_stop = true /\ n = Z.of_nat (length coords))) /\
  (Forall (fun c => np_eqb c coord = false) coords ->
     (include_stop = false ->
        coord_to_index coord coords include_stop =
          Exc (IndexError (CoordinateNotInAxis (np_show coord)))) /\
     (include_stop = true ->
        forall front prev last, coords = front ++ [prev; last] ->
          coord_to_index coord coords include_stop =
            if np_eqb coord (np_add last (np_sub last prev))
            then Ok (Z.of_nat (length coords))
            else Exc (IndexError (CoordinateNotInAxis (np_show coord)))) /\
     (include_stop = true -> (length coords < 2)%nat ->
        coord_to_index coord coords include_stop =
          Exc (IndexError
                 (NpOutOfBounds (- Z.of_nat (length coords) - 1) 0
                                (Z.of_nat (length coords)))))).
Proof.
  split.
  - intros n Hn. unfold coord_to_index in Hn.
    destruct (np_where_first coord coords) as [i|] eqn:Hw.
    + injection Hn as <-. left.
      apply np_where_first_Some in Hw as [(c & Hc & Hm) _]. by exists i, c.
    + destruct include_stop; [|done]. right. split; [done|].
      lazy beta iota in Hn.
      bind_ok Hn a Ha. bind_ok Hn b Hb.
      destruct (np_eqb _ _); [by injection Hn | done].
  - intros Habs%np_where_first_None. repeat split.
    + intros ->. by apply coord_to_index_absent.
    + intros -> front prev last ->. by apply coord_to_index_stop.
    + intros -> Hlen. unfold coord_to_index. rewrite Habs.
      destruct coords as [|a [|b l]]; [done | done | simpl in Hlen; lia].
Qed.

End FullLookup.

Lemma coord_to_index_exact_witness :
  coord_to_index 106 [100; 102; 104] true = Ok 3 /\
  coord_to_index 105 [100; 102; 104] true =
    Exc (IndexError (CoordinateNotInAxis (PyInt 105))) /\
  coord_to_index 105 [100; 102; 104] false =
    Exc (IndexError (CoordinateNotInAxis (PyInt 105))).
Proof.
  destruct (coord_to_index_exact 106 [100; 102; 104] true) as [_ H106].
  destruct (coord_to_index_exact 105 [100; 102; 104] true) as [_ H105].
  destruct (coord_to_index_exact 105 [100; 102; 104] false) as [_ H105'].
  split; [|split].
  - destruct H106 as (_ & Hstop & _); [repeat constructor|].
    exact (Hstop eq_refl [100] 102 104 eq_refl).
  - destruct H105 as (_ & Hstop & _); [repeat constructor|].
    exact (Hstop eq_refl [100] 102 104 eq_refl).
  - destruct H105' as (Hno & _); [repeat constructor|].
    exact (Hno eq_refl).
Defined.
